(** * NeonNibbler: the game-tick state machine of App.tsx

    A shallow embedding of the game engine that lives inside the React
    component [App] (state hooks, helpers, command handlers, the tick
    [moveSnake] and the high-score effect), followed by the properties
    the specification states about it.

    Conventions of the embedding.

    - React state.  A handler is a closure over the values of the last
      render: a bare state name in the source ([combo], [lives],
      [activePowerUp], ...) reads that snapshot, passed here as the
      argument [r : Game].  A setter call writes the pending state
      carried by the monad [M]: [setX(v)] stores [v], [setX(f)] applies
      [f] to the pending value.  The state variables are independent
      of each other, so all that matters is the order in which the
      updates of one variable are applied, which is the order of React's
      queue for that variable, and the order of the calls that leave the
      component.
    - Updaters.  React runs a function passed to a setter either inside
      the call of the setter or when the component renders next; the
      two differ in where the setter calls and the draws of the updater
      fall among the others.  The tick is the one place where this shows
      (see [Schedule]); it decides nothing for [updateDirection], whose
      updater leaves its own variable as it is.
    - [Date.now()] and [Math.random()] read two streams supplied by the
      host; a cursor in the world records how much of each was consumed.
      [Math.random()] is a rational of the unit interval, and
      [Math.floor(Math.random() * GRID_SIZE)] is computed exactly.
    - Calls to the audio service and to the commentary service, and the
      entry into [handleLifeLost] and [resetGame], are appended to a
      trace.
    - The unbounded [do ... while] of [generateFood] runs on fuel; running
      out of fuel is the only source of [None]. *)

From Stdlib Require Import ZArith QArith Qround List Bool String Lia.
From Stdlib Require Import Qabs Qminmax Lqa.
Import ListNotations.
Local Open Scope Z_scope.

(** ** constants.ts *)

Definition GRID_SIZE : Z := 20.
Definition POWERUP_DURATION : Z := 5000.
Definition POWERUP_SPAWN_CHANCE : Q := 3 # 100.
Definition COMBO_TIMEOUT_MS : Z := 4000.
Definition POINTS_PER_FOOD : Z := 10.
Definition MAX_LIVES : Z := 3.

(** ** types.ts *)

Inductive Direction := UP | DOWN | LEFT | RIGHT.
Inductive GameStatus := IDLE | PLAYING | PAUSED | GAME_OVER.
Inductive PowerUpType := GHOST | SLOW_TIME.
Inductive GameOverReason := WALL | SELF.

Record Coordinate := { x : Z; y : Z }.

Definition SnakeBody := list Coordinate.

Record PowerUp := { pu_x : Z; pu_y : Z; pu_type : PowerUpType }.

Record ActivePowerUp := { ap_type : PowerUpType; expiresAt : Z }.

Definition INITIAL_SNAKE : SnakeBody :=
  [ {| x := 10; y := 10 |}; {| x := 10; y := 11 |}; {| x := 10; y := 12 |} ].

Definition INITIAL_DIRECTION : Direction := UP.

Definition KEY_MAP : list (string * Direction) :=
  [ ("ArrowUp", UP); ("ArrowDown", DOWN); ("ArrowLeft", LEFT); ("ArrowRight", RIGHT);
    ("w", UP); ("s", DOWN); ("a", LEFT); ("d", RIGHT);
    ("W", UP); ("S", DOWN); ("A", LEFT); ("D", RIGHT) ]%string.

Definition Direction_eqb (a b : Direction) : bool :=
  match a, b with
  | UP, UP | DOWN, DOWN | LEFT, LEFT | RIGHT, RIGHT => true
  | _, _ => false
  end.

Definition GameStatus_eqb (a b : GameStatus) : bool :=
  match a, b with
  | IDLE, IDLE | PLAYING, PLAYING | PAUSED, PAUSED | GAME_OVER, GAME_OVER => true
  | _, _ => false
  end.

Definition PowerUpType_eqb (a b : PowerUpType) : bool :=
  match a, b with
  | GHOST, GHOST | SLOW_TIME, SLOW_TIME => true
  | _, _ => false
  end.

(** ** The state hooks of [App] *)

Record Game := {
  snake : SnakeBody;
  food : Coordinate;
  powerUps : list PowerUp;
  activePowerUp : option ActivePowerUp;
  direction : Direction;
  nextDirection : Direction;
  score : Z;
  highScore : Z;
  lives : Z;
  status : GameStatus;
  gameOverReason : option GameOverReason;
  combo : Z;
  comboExpiresAt : Z
}.

(** The values passed to [useState]. *)
Definition initialGame : Game :=
  {| snake := INITIAL_SNAKE; food := {| x := 5; y := 5 |}; powerUps := [];
     activePowerUp := None; direction := INITIAL_DIRECTION;
     nextDirection := INITIAL_DIRECTION; score := 0; highScore := 0;
     lives := MAX_LIVES; status := IDLE; gameOverReason := None;
     combo := 0; comboExpiresAt := 0 |}.

(** Calls that leave the component. *)
Inductive Call :=
| AudioInit | StartBGM | StopBGM | PauseBGM | ResumeBGM | StartGameOverBGM
| PlayPauseSFX | PlayDamage | PlayEat | PlayPowerUp
| GenerateGameOverMessage (currentScore : Z) (reason : GameOverReason)
| EnterLifeLost (reason : GameOverReason)
| EnterResetGame.

(** The component together with its host: the ref [savedComboTimeRef],
    the [localStorage] entry 'neonSnakeHighScore', the two streams and
    the trace (latest call first). *)
Record World := {
  state : Game;
  savedComboTimeRef : Z;
  localStorage : option Z;
  randomSeq : nat -> Q;
  randomPos : nat;
  clockSeq : nat -> Z;
  clockPos : nat;
  calls : list Call
}.

(** ** A state monad with failure *)

Definition M (A : Type) : Type := World -> option (A * World).

Definition ret {A} (a : A) : M A := fun w => Some (a, w).

Definition bind {A B} (c : M A) (k : A -> M B) : M B :=
  fun w => match c w with
           | Some (a, w') => k a w'
           | None => None
           end.

Definition outOfFuel {A} : M A := fun _ => None.

Declare Scope m_scope.
Delimit Scope m_scope with m.
Notation "v <- c ;; k" := (bind c (fun v => k))
  (at level 61, c at next level, right associativity) : m_scope.
Notation "c ;; k" := (bind c (fun _ => k))
  (at level 61, right associativity) : m_scope.
Local Open Scope m_scope.

Definition gets {A} (f : Game -> A) : M A := fun w => Some (f (state w), w).

Definition modify (f : Game -> Game) : M unit :=
  fun w => Some (tt,
    {| state := f (state w); savedComboTimeRef := savedComboTimeRef w;
       localStorage := localStorage w; randomSeq := randomSeq w;
       randomPos := randomPos w; clockSeq := clockSeq w;
       clockPos := clockPos w; calls := calls w |}).

Definition call (c : Call) : M unit :=
  fun w => Some (tt,
    {| state := state w; savedComboTimeRef := savedComboTimeRef w;
       localStorage := localStorage w; randomSeq := randomSeq w;
       randomPos := randomPos w; clockSeq := clockSeq w;
       clockPos := clockPos w; calls := c :: calls w |}).

(** [Date.now()] *)
Definition Date_now : M Z :=
  fun w => Some (clockSeq w (clockPos w),
    {| state := state w; savedComboTimeRef := savedComboTimeRef w;
       localStorage := localStorage w; randomSeq := randomSeq w;
       randomPos := randomPos w; clockSeq := clockSeq w;
       clockPos := S (clockPos w); calls := calls w |}).

(** [Math.random()] *)
Definition Math_random : M Q :=
  fun w => Some (randomSeq w (randomPos w),
    {| state := state w; savedComboTimeRef := savedComboTimeRef w;
       localStorage := localStorage w; randomSeq := randomSeq w;
       randomPos := S (randomPos w); clockSeq := clockSeq w;
       clockPos := clockPos w; calls := calls w |}).

(** [savedComboTimeRef.current = v] *)
Definition setSavedComboTime (v : Z) : M unit :=
  fun w => Some (tt,
    {| state := state w; savedComboTimeRef := v;
       localStorage := localStorage w; randomSeq := randomSeq w;
       randomPos := randomPos w; clockSeq := clockSeq w;
       clockPos := clockPos w; calls := calls w |}).

Definition getSavedComboTime : M Z := fun w => Some (savedComboTimeRef w, w).

(** [localStorage.setItem('neonSnakeHighScore', v.toString())] *)
Definition localStorage_setItem (v : Z) : M unit :=
  fun w => Some (tt,
    {| state := state w; savedComboTimeRef := savedComboTimeRef w;
       localStorage := Some v; randomSeq := randomSeq w;
       randomPos := randomPos w; clockSeq := clockSeq w;
       clockPos := clockPos w; calls := calls w |}).

Definition localStorage_getItem : M (option Z) := fun w => Some (localStorage w, w).

(** *** The setters returned by [useState] *)

Definition setSnake (v : SnakeBody) : M unit :=
  modify (fun g =>
    {| snake := v; food := food g; powerUps := powerUps g;
       activePowerUp := activePowerUp g; direction := direction g;
       nextDirection := nextDirection g; score := score g;
       highScore := highScore g; lives := lives g; status := status g;
       gameOverReason := gameOverReason g; combo := combo g;
       comboExpiresAt := comboExpiresAt g |}).

Definition setFood (v : Coordinate) : M unit :=
  modify (fun g =>
    {| snake := snake g; food := v; powerUps := powerUps g;
       activePowerUp := activePowerUp g; direction := direction g;
       nextDirection := nextDirection g; score := score g;
       highScore := highScore g; lives := lives g; status := status g;
       gameOverReason := gameOverReason g; combo := combo g;
       comboExpiresAt := comboExpiresAt g |}).

Definition setPowerUps (v : list PowerUp) : M unit :=
  modify (fun g =>
    {| snake := snake g; food := food g; powerUps := v;
       activePowerUp := activePowerUp g; direction := direction g;
       nextDirection := nextDirection g; score := score g;
       highScore := highScore g; lives := lives g; status := status g;
       gameOverReason := gameOverReason g; combo := combo g;
       comboExpiresAt := comboExpiresAt g |}).

Definition setActivePowerUp (v : option ActivePowerUp) : M unit :=
  modify (fun g =>
    {| snake := snake g; food := food g; powerUps := powerUps g;
       activePowerUp := v; direction := direction g;
       nextDirection := nextDirection g; score := score g;
       highScore := highScore g; lives := lives g; status := status g;
       gameOverReason := gameOverReason g; combo := combo g;
       comboExpiresAt := comboExpiresAt g |}).

Definition setDirection (v : Direction) : M unit :=
  modify (fun g =>
    {| snake := snake g; food := food g; powerUps := powerUps g;
       activePowerUp := activePowerUp g; direction := v;
       nextDirection := nextDirection g; score := score g;
       highScore := highScore g; lives := lives g; status := status g;
       gameOverReason := gameOverReason g; combo := combo g;
       comboExpiresAt := comboExpiresAt g |}).

Definition setNextDirection (v : Direction) : M unit :=
  modify (fun g =>
    {| snake := snake g; food := food g; powerUps := powerUps g;
       activePowerUp := activePowerUp g; direction := direction g;
       nextDirection := v; score := score g;
       highScore := highScore g; lives := lives g; status := status g;
       gameOverReason := gameOverReason g; combo := combo g;
       comboExpiresAt := comboExpiresAt g |}).

(** [setScore(f)], the functional form; [setScore(v)] is [setScore (fun _ => v)]. *)
Definition setScore (f : Z -> Z) : M unit :=
  modify (fun g =>
    {| snake := snake g; food := food g; powerUps := powerUps g;
       activePowerUp := activePowerUp g; direction := direction g;
       nextDirection := nextDirection g; score := f (score g);
       highScore := highScore g; lives := lives g; status := status g;
       gameOverReason := gameOverReason g; combo := combo g;
       comboExpiresAt := comboExpiresAt g |}).

Definition setHighScore (v : Z) : M unit :=
  modify (fun g =>
    {| snake := snake g; food := food g; powerUps := powerUps g;
       activePowerUp := activePowerUp g; direction := direction g;
       nextDirection := nextDirection g; score := score g;
       highScore := v; lives := lives g; status := status g;
       gameOverReason := gameOverReason g; combo := combo g;
       comboExpiresAt := comboExpiresAt g |}).

Definition setLives (f : Z -> Z) : M unit :=
  modify (fun g =>
    {| snake := snake g; food := food g; powerUps := powerUps g;
       activePowerUp := activePowerUp g; direction := direction g;
       nextDirection := nextDirection g; score := score g;
       highScore := highScore g; lives := f (lives g); status := status g;
       gameOverReason := gameOverReason g; combo := combo g;
       comboExpiresAt := comboExpiresAt g |}).

Definition setStatus (v : GameStatus) : M unit :=
  modify (fun g =>
    {| snake := snake g; food := food g; powerUps := powerUps g;
       activePowerUp := activePowerUp g; direction := direction g;
       nextDirection := nextDirection g; score := score g;
       highScore := highScore g; lives := lives g; status := v;
       gameOverReason := gameOverReason g; combo := combo g;
       comboExpiresAt := comboExpiresAt g |}).

Definition setGameOverReason (v : option GameOverReason) : M unit :=
  modify (fun g =>
    {| snake := snake g; food := food g; powerUps := powerUps g;
       activePowerUp := activePowerUp g; direction := direction g;
       nextDirection := nextDirection g; score := score g;
       highScore := highScore g; lives := lives g; status := status g;
       gameOverReason := v; combo := combo g;
       comboExpiresAt := comboExpiresAt g |}).

Definition setCombo (f : Z -> Z) : M unit :=
  modify (fun g =>
    {| snake := snake g; food := food g; powerUps := powerUps g;
       activePowerUp := activePowerUp g; direction := direction g;
       nextDirection := nextDirection g; score := score g;
       highScore := highScore g; lives := lives g; status := status g;
       gameOverReason := gameOverReason g; combo := f (combo g);
       comboExpiresAt := comboExpiresAt g |}).

Definition setComboExpiresAt (v : Z) : M unit :=
  modify (fun g =>
    {| snake := snake g; food := food g; powerUps := powerUps g;
       activePowerUp := activePowerUp g; direction := direction g;
       nextDirection := nextDirection g; score := score g;
       highScore := highScore g; lives := lives g; status := status g;
       gameOverReason := gameOverReason g; combo := combo g;
       comboExpiresAt := v |}).

(** The operations of [M] unfold as soon as they are given a world. *)
Arguments ret {A} a w /.
Arguments bind {A B} c k w /.
Arguments outOfFuel {A} w /.
Arguments gets {A} f w /.
Arguments modify f w /.
Arguments call c w /.
Arguments Date_now w /.
Arguments Math_random w /.
Arguments setSavedComboTime v w /.
Arguments getSavedComboTime w /.
Arguments localStorage_setItem v w /.
Arguments localStorage_getItem w /.
Arguments setSnake v w /.
Arguments setFood v w /.
Arguments setPowerUps v w /.
Arguments setActivePowerUp v w /.
Arguments setDirection v w /.
Arguments setNextDirection v w /.
Arguments setScore f w /.
Arguments setHighScore v w /.
Arguments setLives f w /.
Arguments setStatus v w /.
Arguments setGameOverReason v w /.
Arguments setCombo f w /.
Arguments setComboExpiresAt v w /.

(** ** Helpers *)

Definition Qltb (a b : Q) : bool := negb (Qle_bool b a).

(** [Math.floor(Math.random() * GRID_SIZE)] for a sample [u]. *)
Definition randomIndex (u : Q) : Z := Qfloor (u * inject_Z GRID_SIZE).

(** [isOccupied(x, y, currentSnake, currentPowerUps)] *)
Definition isOccupied (x0 y0 : Z) (currentSnake : SnakeBody)
    (currentPowerUps : list PowerUp) : bool :=
  let onSnake := existsb (fun s => (x s =? x0) && (y s =? y0)) currentSnake in
  let onPowerUp := existsb (fun p => (pu_x p =? x0) && (pu_y p =? y0)) currentPowerUps in
  onSnake || onPowerUp.

(** [generateFood]: a [do ... while] with no bound in the source; each
    unit of fuel pays for one round. *)
Fixpoint generateFood (fuel : nat) (currentSnake : SnakeBody)
    (currentPowerUps : list PowerUp) : M Coordinate :=
  match fuel with
  | O => outOfFuel
  | S fuel' =>
      rx <- Math_random ;;
      ry <- Math_random ;;
      let newFood := {| x := randomIndex rx; y := randomIndex ry |} in
      if isOccupied (x newFood) (y newFood) currentSnake currentPowerUps
      then generateFood fuel' currentSnake currentPowerUps
      else ret newFood
  end.

(** The [do ... while] of [generatePowerUp].  The loop condition ends it
    after at most 20 rounds, so the budget of 20 further rounds given by
    [generatePowerUp] is never used up. *)
Fixpoint placementLoop (budget : nat) (attempts : Z) (currentSnake : SnakeBody)
    (currentFood : Coordinate) (currentPowerUps : list PowerUp)
    : M (Coordinate * Z) :=
  rx <- Math_random ;;
  ry <- Math_random ;;
  let newLoc := {| x := randomIndex rx; y := randomIndex ry |} in
  let attempts := attempts + 1 in
  if (isOccupied (x newLoc) (y newLoc) currentSnake currentPowerUps
      || ((x newLoc =? x currentFood) && (y newLoc =? y currentFood)))
     && (attempts <? 20)
  then match budget with
       | O => outOfFuel
       | S budget' =>
           placementLoop budget' attempts currentSnake currentFood currentPowerUps
       end
  else ret (newLoc, attempts).

(** [generatePowerUp(currentSnake, currentFood, currentPowerUps)];
    [None] is the source's [null]. *)
Definition generatePowerUp (currentSnake : SnakeBody) (currentFood : Coordinate)
    (currentPowerUps : list PowerUp) : M (option PowerUp) :=
  if Nat.ltb 0 (List.length currentPowerUps) then ret None
  else
    res <- placementLoop 20 0 currentSnake currentFood currentPowerUps ;;
    let (newLoc, attempts) := res in
    if attempts >=? 20 then ret None
    else
      u <- Math_random ;;
      let type := if Qltb (1 # 2) u then GHOST else SLOW_TIME in
      ret (Some {| pu_x := x newLoc; pu_y := y newLoc; pu_type := type |}).

(** ** Command handlers *)

(** [handleGameOver(currentScore, reason)].  The awaited commentary only
    fills [aiComment]; the request is recorded in the trace. *)
Definition handleGameOver (r : Game) (currentScore : Z) (reason : GameOverReason)
    : M unit :=
  call StartGameOverBGM ;;
  setStatus GAME_OVER ;;
  setGameOverReason (Some reason) ;;
  (if currentScore >? highScore r then localStorage_setItem currentScore else ret tt) ;;
  call (GenerateGameOverMessage currentScore reason).

(** [INITIAL_SNAKE.some(s => s.x === prevFood.x && s.y === prevFood.y)] *)
Definition isUnderSpawn (prevFood : Coordinate) : bool :=
  existsb (fun s => (x s =? x prevFood) && (y s =? y prevFood)) INITIAL_SNAKE.

(** The updater that [handleLifeLost] passes to [setFood]. *)
Definition handleLifeLost_food (fuel : nat) : M unit :=
  prevFood <- gets food ;;
  if isUnderSpawn prevFood
  then (newFood <- generateFood fuel INITIAL_SNAKE [] ;; setFood newFood)
  else setFood prevFood.

(** [handleLifeLost(reason)] up to its return.  The result tells whether
    it has called [setFood], and so left [handleLifeLost_food] for React
    to run: by then the component has updates pending, and React runs
    that updater when it renders and gets to the food. *)
Definition handleLifeLost_calls (r : Game) (reason : GameOverReason) : M bool :=
  call (EnterLifeLost reason) ;;
  if lives r >? 1 then
    call PlayDamage ;;
    setLives (fun l => l - 1) ;;
    setCombo (fun _ => 0) ;;
    setSnake INITIAL_SNAKE ;;
    setDirection INITIAL_DIRECTION ;;
    setNextDirection INITIAL_DIRECTION ;;
    setActivePowerUp None ;;
    ret true
  else
    setLives (fun _ => 0) ;;
    handleGameOver r (score r) reason ;;
    ret false.


(** [resetGame()] *)
Definition resetGame (fuel : nat) : M unit :=
  call EnterResetGame ;;
  call AudioInit ;;
  call StartBGM ;;
  setSnake INITIAL_SNAKE ;;
  setDirection INITIAL_DIRECTION ;;
  setNextDirection INITIAL_DIRECTION ;;
  setScore (fun _ => 0) ;;
  setLives (fun _ => MAX_LIVES) ;;
  setPowerUps [] ;;
  setActivePowerUp None ;;
  setCombo (fun _ => 0) ;;
  setComboExpiresAt 0 ;;
  setStatus PLAYING ;;
  setGameOverReason None ;;
  newFood <- generateFood fuel INITIAL_SNAKE [] ;;
  setFood newFood.

(** [handleExit()] *)
Definition handleExit : M unit :=
  call StopBGM ;;
  setStatus IDLE ;;
  setScore (fun _ => 0) ;;
  setLives (fun _ => MAX_LIVES) ;;
  setPowerUps [] ;;
  setActivePowerUp None ;;
  setCombo (fun _ => 0).

(** [handlePause()] *)
Definition handlePause (r : Game) : M unit :=
  call PlayPauseSFX ;;
  call PauseBGM ;;
  (if combo r >? 0
   then (now <- Date_now ;; setSavedComboTime (Z.max 0 (comboExpiresAt r - now)))
   else setSavedComboTime 0) ;;
  setStatus PAUSED.

(** [handleResume()] *)
Definition handleResume : M unit :=
  call PlayPauseSFX ;;
  call ResumeBGM ;;
  saved <- getSavedComboTime ;;
  (if saved >? 0
   then (now <- Date_now ;; setComboExpiresAt (now + saved))
   else ret tt) ;;
  setStatus PLAYING.

(** [updateDirection(newDir)]: an updater on [direction] that leaves it
    as it is and sets [nextDirection] from inside. *)
Definition updateDirection (newDir : Direction) : M unit :=
  currentDir <- gets direction ;;
  let isOpposite :=
    (Direction_eqb newDir UP && Direction_eqb currentDir DOWN)
    || (Direction_eqb newDir DOWN && Direction_eqb currentDir UP)
    || (Direction_eqb newDir LEFT && Direction_eqb currentDir RIGHT)
    || (Direction_eqb newDir RIGHT && Direction_eqb currentDir LEFT) in
  if negb isOpposite
  then (setDirection currentDir ;; setNextDirection newDir)
  else setDirection currentDir.

(** ** The game tick *)

(** [activePowerUp?.type === PowerUpType.GHOST] *)
Definition isGhost (a : option ActivePowerUp) : bool :=
  match a with
  | Some p => PowerUpType_eqb (ap_type p) GHOST
  | None => false
  end.

(** The [switch (currentDir)] applied to a copy of the head. *)
Definition stepHead (currentDir : Direction) (head : Coordinate) : Coordinate :=
  match currentDir with
  | UP => {| x := x head; y := y head - 1 |}
  | DOWN => {| x := x head; y := y head + 1 |}
  | LEFT => {| x := x head - 1; y := y head |}
  | RIGHT => {| x := x head + 1; y := y head |}
  end.

Definition outOfGrid (newHead : Coordinate) : bool :=
  (x newHead <? 0) || (x newHead >=? GRID_SIZE)
  || (y newHead <? 0) || (y newHead >=? GRID_SIZE).

(** The four assignments of the wrap-around, one after the other. *)
Definition wrapAround (newHead : Coordinate) : Coordinate :=
  let h1 := if x newHead <? 0 then {| x := GRID_SIZE - 1; y := y newHead |} else newHead in
  let h2 := if x h1 >=? GRID_SIZE then {| x := 0; y := y h1 |} else h1 in
  let h3 := if y h2 <? 0 then {| x := x h2; y := GRID_SIZE - 1 |} else h2 in
  if y h3 >=? GRID_SIZE then {| x := x h3; y := 0 |} else h3.

(** [powerUps.findIndex(pred)]; [None] is the source's [-1]. *)
Fixpoint findIndex {A} (pred : A -> bool) (l : list A) : option nat :=
  match l with
  | [] => None
  | a :: l' => if pred a then Some O
               else match findIndex pred l' with
                    | Some i => Some (S i)
                    | None => None
                    end
  end.

(** A copy of the array with [splice(i, 1)] applied. *)
Definition splice1 {A} (i : nat) (l : list A) : list A := firstn i l ++ skipn (S i) l.

(** How React runs the updater that a tick passes to [setSnake].

    - [Eager]: no update is pending on the component when [setSnake] is
      called.  React then runs the updater inside that call.  What the
      updater passes to setters is queued while it runs: ahead of the
      value it returns, which is queued when it has returned, and ahead
      of what [moveSnake] does after the call.
    - [Deferred]: an update is pending.  The updater is queued and runs
      when the component renders, after [moveSnake] has returned and
      has drawn the sample of its spawn test.  At a render React takes
      the state variables in the order of their declaration, [snake]
      first: what the updater passes to the setter of a later variable
      joins the queue of that variable, behind what [moveSnake] has
      queued there, and what it passes to [setSnake] is applied once
      the value it returns is in place.

    Which of the two happens depends on React's own bookkeeping, which
    the embedding leaves open: a property of the tick is stated for
    both. *)
Inductive Schedule :=
| Eager
| Deferred.

(** What the updater of a tick leaves behind for the render: whether
    [handleLifeLost] has passed its updater to [setFood], and the board
    that a pick-up has passed to [setPowerUps]. *)
Record Late := { lateFood : bool; lateBoard : option (list PowerUp) }.

(** The two paths [handleLifeLost(reason); return prevSnake;] of the
    updater.  [handleLifeLost] calls [setSnake(INITIAL_SNAKE)], and the
    updater returns [prevSnake] for the same variable: run eagerly, the
    returned value is queued last and stays; run at the render, the
    returned value is in place when the call of [setSnake] is applied. *)
Definition moveSnake_lost (s : Schedule) (r : Game) (prevSnake : SnakeBody)
    (reason : GameOverReason) : M Late :=
  match s with
  | Eager =>
      queued <- handleLifeLost_calls r reason ;;
      setSnake prevSnake ;;
      ret {| lateFood := queued; lateBoard := None |}
  | Deferred =>
      setSnake prevSnake ;;
      queued <- handleLifeLost_calls r reason ;;
      ret {| lateFood := queued; lateBoard := None |}
  end.

(** The updater passed to [setSnake], from the self-collision check on.
    [setSnake v] at the end is the updater's [return v]; the board that
    the pick-up passes to [setPowerUps] is handed on in the result. *)
Definition moveSnake_afterWall (s : Schedule) (fuel : nat) (r : Game)
    (prevSnake : SnakeBody) (newHead : Coordinate) : M Late :=
  if negb (isGhost (activePowerUp r))
     && existsb (fun seg => (x seg =? x newHead) && (y seg =? y newHead)) prevSnake
  then
    (* handleLifeLost('SELF'); return prevSnake; *)
    moveSnake_lost s r prevSnake SELF
  else
    let newSnake := newHead :: prevSnake in
    newSnake <-
      (if (x newHead =? x (food r)) && (y newHead =? y (food r)) then
         call PlayEat ;;
         setCombo (fun c => c + 1) ;;
         let effectiveCombo := combo r + 1 in
         let currentMultiplier := 1 + effectiveCombo / 5 in
         setScore (fun s => s + POINTS_PER_FOOD * currentMultiplier) ;;
         now <- Date_now ;;
         setComboExpiresAt (now + COMBO_TIMEOUT_MS) ;;
         newFood <- generateFood fuel newSnake (powerUps r) ;;
         setFood newFood ;;
         ret newSnake
       else ret (removelast newSnake)) ;;
    newPowerUps <-
      (match findIndex (fun p => (pu_x p =? x newHead) && (pu_y p =? y newHead))
               (powerUps r) with
       | Some hitPowerUpIndex =>
           match nth_error (powerUps r) hitPowerUpIndex with
           | Some powerUp =>
               call PlayPowerUp ;;
               now <- Date_now ;;
               setActivePowerUp
                 (Some {| ap_type := pu_type powerUp;
                          expiresAt := now + POWERUP_DURATION |}) ;;
               (* setPowerUps(newPowerUps) *)
               ret (Some (splice1 hitPowerUpIndex (powerUps r)))
           | None => ret None
           end
       | None => ret None
       end) ;;
    setSnake newSnake ;;
    ret {| lateFood := false; lateBoard := newPowerUps |}.

(** The updater passed to [setSnake].  With an empty [prevSnake] the
    head is [undefined], every comparison on its coordinates is false,
    and the pushed head is popped again. *)
Definition moveSnake_updater (s : Schedule) (fuel : nat) (r : Game)
    (prevSnake : SnakeBody) : M Late :=
  setDirection (nextDirection r) ;;
  let currentDir := nextDirection r in
  match prevSnake with
  | [] => setSnake [] ;; ret {| lateFood := false; lateBoard := None |}
  | head :: _ =>
      let newHead := stepHead currentDir head in
      if outOfGrid newHead then
        if isGhost (activePowerUp r)
        then moveSnake_afterWall s fuel r prevSnake (wrapAround newHead)
        else
          (* handleLifeLost('WALL'); return prevSnake; *)
          moveSnake_lost s r prevSnake WALL
      else moveSnake_afterWall s fuel r prevSnake newHead
  end.

(** The updater that the block "Randomly spawn powerups" passes to
    [setPowerUps]. *)
Definition moveSnake_spawn (r : Game) : M unit :=
  prev <- gets powerUps ;;
  if Nat.leb 1 (List.length prev) then setPowerUps prev
  else
    newItem <- generatePowerUp (snake r) (food r) prev ;;
    match newItem with
    | Some item => setPowerUps (prev ++ [item])
    | None => setPowerUps prev
    end.

(** What is in the queues of [food] and [powerUps] once the updater of
    the snake has run, applied as the render gets to the two variables:
    for the food, the updater of [handleLifeLost]; for the board, the
    updater of the spawn block, if the sample [u] of its test is under
    the chance, and the board of a pick-up, which is ahead of it in the
    queue when the updater of the snake ran eagerly and behind it
    otherwise. *)
Definition moveSnake_queued (s : Schedule) (fuel : nat) (r : Game) (u : Q)
    (late : Late) : M unit :=
  (if lateFood late then handleLifeLost_food fuel else ret tt) ;;
  match s with
  | Eager =>
      (match lateBoard late with
       | Some newPowerUps => setPowerUps newPowerUps
       | None => ret tt
       end) ;;
      (if Qltb u POWERUP_SPAWN_CHANCE then moveSnake_spawn r else ret tt)
  | Deferred =>
      (if Qltb u POWERUP_SPAWN_CHANCE then moveSnake_spawn r else ret tt) ;;
      (match lateBoard late with
       | Some newPowerUps => setPowerUps newPowerUps
       | None => ret tt
       end)
  end.

(** [moveSnake()] after its two sweeps: the call of [setSnake], the
    test [Math.random() < POWERUP_SPAWN_CHANCE], and the render. *)
Definition moveSnake_afterSweeps (s : Schedule) (fuel : nat) (r : Game) : M unit :=
  match s with
  | Eager =>
      prevSnake <- gets snake ;;
      late <- moveSnake_updater Eager fuel r prevSnake ;;
      u <- Math_random ;;
      moveSnake_queued Eager fuel r u late
  | Deferred =>
      u <- Math_random ;;
      prevSnake <- gets snake ;;
      late <- moveSnake_updater Deferred fuel r prevSnake ;;
      moveSnake_queued Deferred fuel r u late
  end.

(** [moveSnake()], the interval callback, and the render that follows
    it. *)
Definition moveSnake (s : Schedule) (fuel : nat) (r : Game) : M unit :=
  if negb (GameStatus_eqb (status r) PLAYING) then ret tt
  else
    now <- Date_now ;;
    (match activePowerUp r with
     | Some a => if now >? expiresAt a then setActivePowerUp None else ret tt
     | None => ret tt
     end) ;;
    (if (combo r >? 0) && (now >? comboExpiresAt r)
     then setCombo (fun _ => 0) else ret tt) ;;
    moveSnake_afterSweeps s fuel r.

(** ** Effects and events *)

(** The mount effect that reads the stored high score. *)
Definition loadHighScore : M unit :=
  saved <- localStorage_getItem ;;
  match saved with
  | Some v => setHighScore v
  | None => ret tt
  end.

(** The effect on [score, highScore], run after a render [r]. *)
Definition highScoreEffect (r : Game) : M unit :=
  if score r >? highScore r
  then (setHighScore (score r) ;; localStorage_setItem (score r))
  else ret tt.

(** [KEY_MAP[e.key]], for the values that the [key] of a keyboard event
    takes: a printed character or the name of a key, none of which is
    the name of a property that the object [KEY_MAP] inherits. *)
Fixpoint lookupKey (key : string) (m : list (string * Direction)) : option Direction :=
  match m with
  | [] => None
  | (k, d) :: m' => if String.eqb k key then Some d else lookupKey key m'
  end.

(** [handleKeyDown(e)] for an event with [e.key = key] and [e.code = code]. *)
Definition handleKeyDown (fuel : nat) (r : Game) (key code : string) : M unit :=
  match lookupKey key KEY_MAP with
  | Some d => updateDirection d
  | None =>
      if String.eqb code "Space" then
        if GameStatus_eqb (status r) PLAYING then handlePause r
        else if GameStatus_eqb (status r) PAUSED then handleResume
        else if GameStatus_eqb (status r) IDLE || GameStatus_eqb (status r) GAME_OVER
             then resetGame fuel
             else ret tt
      else if String.eqb code "Escape" then
        if GameStatus_eqb (status r) PLAYING then handlePause r else ret tt
      else ret tt
  end.

(** What can happen to the mounted component. *)
Inductive Event :=
| Tick (s : Schedule)               (* the interval fires *)
| KeyDown (key code : string)       (* window keydown *)
| Steer (newDir : Direction)        (* swipe, tap or on-screen control *)
| ClickPause                        (* header button, rendered while PLAYING *)
| ClickStart                        (* START GAME, rendered while IDLE *)
| OverlayRestart | OverlayResume | OverlayExit.

Definition dispatch (fuel : nat) (r : Game) (e : Event) : M unit :=
  match e with
  | Tick s => moveSnake s fuel r
  | KeyDown key code => handleKeyDown fuel r key code
  | Steer newDir => updateDirection newDir
  | ClickPause => if GameStatus_eqb (status r) PLAYING then handlePause r else ret tt
  | ClickStart => if GameStatus_eqb (status r) IDLE then resetGame fuel else ret tt
  | OverlayRestart => resetGame fuel
  | OverlayResume => handleResume
  | OverlayExit => handleExit
  end.

(** One event: the handler of the current render runs, the component
    renders again, and the high-score effect sees the new render. *)
Definition step (fuel : nat) (e : Event) : M unit :=
  r <- gets (fun g => g) ;;
  dispatch fuel r e ;;
  r' <- gets (fun g => g) ;;
  highScoreEffect r'.

Fixpoint run (fuel : nat) (es : list Event) : M unit :=
  match es with
  | [] => ret tt
  | e :: es' => step fuel e ;; run fuel es'
  end.

(** The first render and its effects. *)
Definition mount : M unit :=
  loadHighScore ;;
  highScoreEffect initialGame ;;
  r <- gets (fun g => g) ;;
  highScoreEffect r.

(** The world before the first render, given the stored high score and
    the two streams. *)
Definition freshWorld (saved : option Z) (rnd : nat -> Q) (clk : nat -> Z) : World :=
  {| state := initialGame; savedComboTimeRef := 0; localStorage := saved;
     randomSeq := rnd; randomPos := 0; clockSeq := clk; clockPos := 0;
     calls := [] |}.

(** ** Vocabulary of the properties *)

(** A cell of the board: [0 <= x, y < GRID_SIZE]. *)
Definition inGrid (c : Coordinate) : bool :=
  (0 <=? x c) && (x c <? GRID_SIZE) && (0 <=? y c) && (y c <? GRID_SIZE).

(** The [k]-th cell that a placement loop started in [w] draws. *)
Definition drawAt (w : World) (k : nat) : Coordinate :=
  {| x := randomIndex (randomSeq w (randomPos w + 2 * k));
     y := randomIndex (randomSeq w (randomPos w + 2 * k + 1)) |}.

(** [w] after [n] further calls of [Math.random()]. *)
Definition consumed (n : nat) (w : World) : World :=
  {| state := state w; savedComboTimeRef := savedComboTimeRef w;
     localStorage := localStorage w; randomSeq := randomSeq w;
     randomPos := randomPos w + n; clockSeq := clockSeq w;
     clockPos := clockPos w; calls := calls w |}.

(** The contract of [Math.random()]: a value of [0, 1). *)
Definition unitInterval (rnd : nat -> Q) : Prop :=
  forall i, (0 <= rnd i)%Q /\ (rnd i < 1)%Q.



(** The rejection test of [generatePowerUp]. *)
Definition blocked (currentSnake : SnakeBody) (currentFood : Coordinate)
    (currentPowerUps : list PowerUp) (c : Coordinate) : bool :=
  isOccupied (x c) (y c) currentSnake currentPowerUps
  || ((x c =? x currentFood) && (y c =? y currentFood)).

Definition isLifeLost (c : Call) : bool :=
  match c with EnterLifeLost _ => true | _ => false end.

Definition isSelfLifeLost (c : Call) : bool :=
  match c with EnterLifeLost SELF => true | _ => false end.

Definition isWallLifeLost (c : Call) : bool :=
  match c with EnterLifeLost WALL => true | _ => false end.

Definition isReset (c : Call) : bool :=
  match c with EnterResetGame => true | _ => false end.

(** How many calls of the trace satisfy [p]. *)
Definition invocations (p : Call -> bool) (trace : list Call) : nat :=
  List.length (filter p trace).

(** What the updater of a tick decides for the snake [prevSnake] under
    the render [r]: nothing to move, a lost life, or a move to a cell. *)
Inductive Outcome :=
| Stalled
| Lost (reason : GameOverReason)
| Moved (newHead : Coordinate).

Definition outcome (r : Game) (prevSnake : SnakeBody) : Outcome :=
  match prevSnake with
  | [] => Stalled
  | head :: _ =>
      let h := stepHead (nextDirection r) head in
      if outOfGrid h && negb (isGhost (activePowerUp r)) then Lost WALL
      else
        let newHead := if outOfGrid h then wrapAround h else h in
        if negb (isGhost (activePowerUp r))
           && existsb (fun seg => (x seg =? x newHead) && (y seg =? y newHead)) prevSnake
        then Lost SELF
        else Moved newHead
  end.

(** The food test of the tick. *)
Definition eats (r : Game) (newHead : Coordinate) : bool :=
  (x newHead =? x (food r)) && (y newHead =? y (food r)).

(** The random source offers, within [fuel] draws, a cell for the one
    food that a tick started in [w] can have to place: a cell off the
    grown snake and the board power-ups when the food is eaten, a cell
    off the reset snake when a life is lost with the food under it.  The
    draws are counted from where the tick makes them: at once for a
    food that is eaten in an updater run eagerly, and one sample later,
    after the sample of the spawn test, in every other case. *)
Definition foodCanBePlaced (s : Schedule) (fuel : nat) (w : World) : Prop :=
  match outcome (state w) (snake (state w)) with
  | Stalled => True
  | Lost _ =>
      lives (state w) > 1 -> isUnderSpawn (food (state w)) = true ->
      exists k, (k < fuel)%nat /\ isUnderSpawn (drawAt (consumed 1 w) k) = false
  | Moved newHead =>
      eats (state w) newHead = true ->
      exists k, (k < fuel)%nat
        /\ isOccupied
             (x (drawAt (match s with Eager => w | Deferred => consumed 1 w end) k))
             (y (drawAt (match s with Eager => w | Deferred => consumed 1 w end) k))
             (newHead :: snake (state w)) (powerUps (state w)) = false
  end.

(** Everything the render of a tick leaves as the updater of the snake
    has left it: all but the food, the power-ups on the board and the
    cursor of the random source. *)
Definition beyondRender (w : World) :=
  (snake (state w), activePowerUp (state w), direction (state w),
   nextDirection (state w), score (state w), highScore (state w), lives (state w),
   status (state w), gameOverReason (state w), combo (state w),
   comboExpiresAt (state w), savedComboTimeRef w, localStorage w, clockPos w,
   calls w, randomSeq w, clockSeq w).

(** The world a computation leaves behind ([w] itself if it does not
    return). *)
Definition after (c : M unit) (w : World) : World :=
  match c w with
  | Some (_, w') => w'
  | None => w
  end.

(** [getHighScore()] of the persistence contract: 0 when absent. *)
Definition getHighScore (w : World) : Z :=
  match localStorage w with Some v => v | None => 0 end.

(** The high score covers the score and is what the store holds. *)
Definition inSync (w : World) : Prop :=
  score (state w) <= highScore (state w)
  /\ getHighScore w = highScore (state w).

(** What a handler invocation does to the high score, the store, the
    trace and the snake. *)
Definition gentle (w w1 : World) : Prop :=
  highScore (state w1) = highScore (state w)
  /\ (forallb inGrid (snake (state w)) = true ->
      forallb inGrid (snake (state w1)) = true)
  /\ (score (state w) <= highScore (state w) -> localStorage w1 = localStorage w)
  /\ (invocations isLifeLost (calls w) <= invocations isLifeLost (calls w1))%nat
  /\ (invocations isReset (calls w) <= invocations isReset (calls w1))%nat
  /\ (invocations isLifeLost (calls w1) = invocations isLifeLost (calls w) ->
      invocations isReset (calls w1) = invocations isReset (calls w) ->
      (List.length (snake (state w)) <= List.length (snake (state w1)))%nat).

(** [gentle] for a computation started in [w]; stated on the computation
    so that tests can be split without running it. *)
Definition gentleAt (w : World) (c : M unit) : Prop :=
  forall w1, c w = Some (tt, w1) -> gentle w w1.


(** ** The rest of [App]: speed, steering by touch, and what every run keeps *)

Definition INITIAL_SPEED : Z := 150.
Definition MIN_SPEED : Z := 50.
Definition SPEED_DECREMENT : Z := 2.
Definition SWIPE_THRESHOLD : Q := 10 # 1.

(** [calculateSpeed()], for a component whose slider left [startSpeed];
    the interval in milliseconds.  [baseDifficultySpeed * 2.5] is exact
    on the integers that occur. *)
Definition calculateSpeed (startSpeed : Z) (g : Game) : Q :=
  let itemsEaten :=
    Z.max 0 (Z.of_nat (List.length (snake g)) - Z.of_nat (List.length INITIAL_SNAKE)) in
  let baseDifficultySpeed := Z.max MIN_SPEED (startSpeed - itemsEaten * SPEED_DECREMENT) in
  match activePowerUp g with
  | Some {| ap_type := SLOW_TIME |} => inject_Z baseDifficultySpeed * (5 # 2)
  | _ => inject_Z baseDifficultySpeed
  end.

(** The [onChange] of the difficulty slider: [setStartSpeed(300 - v)]
    for a slider value [v]. *)
Definition sliderSpeed (v : Z) : Z := 300 - v.

(** [getDifficultyLabel(ms)] and [getDifficultyColor(ms)], called on
    [startSpeed]. *)
Definition getDifficultyLabel (ms : Z) : string :=
  if ms <=? 80 then "INSANE"
  else if ms <=? 120 then "HARD"
  else if ms <=? 180 then "NORMAL"
  else "CHILL".

Definition getDifficultyColor (ms : Z) : string :=
  if ms <=? 80 then "text-fuchsia-500 animate-pulse"
  else if ms <=? 120 then "text-red-400"
  else if ms <=? 180 then "text-cyan-400"
  else "text-green-400".

(** The labels in order of difficulty. *)
Definition hardness (label : string) : nat :=
  if String.eqb label "INSANE" then 3
  else if String.eqb label "HARD" then 2
  else if String.eqb label "NORMAL" then 1
  else 0.

(** A touch point: [clientX], [clientY]. *)
Record Touch := { clientX : Q; clientY : Q }.

(** The direction [handleTouchEnd] hands to [updateDirection], if any:
    nothing without a recorded start or when the touch ended on a button
    or an input; a swipe when the longer displacement exceeds
    [SWIPE_THRESHOLD]; otherwise the quadrant of the tap around the
    centre of a window of [innerWidth] by [innerHeight]. *)
Definition touchDirection (touchStart : option Touch) (onControl : bool)
    (touchEnd : Touch) (innerWidth innerHeight : Q) : option Direction :=
  match touchStart with
  | None => None
  | Some start =>
      if onControl then None
      else
        let diffX := (clientX touchEnd - clientX start)%Q in
        let diffY := (clientY touchEnd - clientY start)%Q in
        let absDiffX := Qabs diffX in
        let absDiffY := Qabs diffY in
        if Qltb SWIPE_THRESHOLD (Qmax absDiffX absDiffY) then
          if Qltb absDiffY absDiffX then
            if Qltb 0 diffX then Some RIGHT else Some LEFT
          else
            if Qltb 0 diffY then Some DOWN else Some UP
        else
          let centerX := (innerWidth / (2 # 1))%Q in
          let centerY := (innerHeight / (2 # 1))%Q in
          let tapX := (clientX touchEnd - centerX)%Q in
          let tapY := (clientY touchEnd - centerY)%Q in
          if Qltb (Qabs tapY) (Qabs tapX) then
            if Qltb 0 tapX then Some RIGHT else Some LEFT
          else
            if Qltb 0 tapY then Some DOWN else Some UP
  end.

(** [handleTouchEnd(e)], for the value [touchStart] of
    [touchStartRef.current]; it returns the value the ref is left with. *)
Definition handleTouchEnd (touchStart : option Touch) (onControl : bool)
    (touchEnd : Touch) (innerWidth innerHeight : Q) : M (option Touch) :=
  match touchDirection touchStart onControl touchEnd innerWidth innerHeight with
  | Some d => updateDirection d ;; ret None
  | None => ret None
  end.

(** The reverse of a direction. *)
Definition opposite (d : Direction) : Direction :=
  match d with UP => DOWN | DOWN => UP | LEFT => RIGHT | RIGHT => LEFT end.

(** What every run from the mounted component keeps. *)
Record sound (w : World) : Prop := {
  sound_lives : 0 <= lives (state w) <= MAX_LIVES;
  sound_board : (List.length (powerUps (state w)) <= 1)%nat;
  sound_snake : (3 <= List.length (snake (state w)))%nat;
  sound_turn : nextDirection (state w) <> opposite (direction (state w));
  sound_combo : 0 <= combo (state w);
  sound_score : 0 <= score (state w) /\ (score (state w)) mod POINTS_PER_FOOD = 0
}.

(** No segment of the snake lies on the food. *)
Definition foodOffSnake (g : Game) : bool :=
  negb (existsb (fun s => (x s =? x (food g)) && (y s =? y (food g))) (snake g)).

(** The food lies on the board and [Math.random()] keeps its contract. *)
Record placed (w : World) : Prop := {
  placed_food : inGrid (food (state w)) = true;
  placed_source : unitInterval (randomSeq w)
}.

(** The status GAME_OVER is only shown with no life left and with the
    reason of the last collision on record. *)
Definition overForAReason (w : World) : Prop :=
  status (state w) = GAME_OVER ->
  lives (state w) = 0 /\ gameOverReason (state w) <> None.

(** [P] holds wherever the computation [c], started in [w], returns;
    stated on the computation so that tests can be split without running
    it. *)
Definition leadsTo (P : World -> Prop) (w : World) (c : M unit) : Prop :=
  forall w1, c w = Some (tt, w1) -> P w1.

(** The buffered direction after the steering commands [ds], one after
    the other, for a snake that moves in [dir]: each command replaces the
    buffer unless it is the reverse of [dir]. *)
Definition steered (dir : Direction) (ds : list Direction) (buffered : Direction)
    : Direction :=
  fold_left (fun acc d => if Direction_eqb d (opposite dir) then acc else d) ds buffered.

(** The part of the game a steering command or a key of a round in
    progress has no business with. *)
Definition round (g : Game) :=
  (snake g, food g, powerUps g, activePowerUp g, direction g, score g, lives g, combo g).

(** The world that a tick of a game in play hands to the updater of the
    snake: the clock has been read once and the two expiry sweeps have
    run on the render's values. *)
Definition swept (w : World) : World :=
  let now := clockSeq w (clockPos w) in
  {| state :=
       {| snake := snake (state w); food := food (state w);
          powerUps := powerUps (state w);
          activePowerUp :=
            match activePowerUp (state w) with
            | Some a => if now >? expiresAt a then None else Some a
            | None => None
            end;
          direction := direction (state w);
          nextDirection := nextDirection (state w); score := score (state w);
          highScore := highScore (state w); lives := lives (state w);
          status := status (state w);
          gameOverReason := gameOverReason (state w);
          combo := if (combo (state w) >? 0) && (now >? comboExpiresAt (state w))
                   then 0 else combo (state w);
          comboExpiresAt := comboExpiresAt (state w) |};
     savedComboTimeRef := savedComboTimeRef w; localStorage := localStorage w;
     randomSeq := randomSeq w; randomPos := randomPos w; clockSeq := clockSeq w;
     clockPos := S (clockPos w); calls := calls w |}.

(** The world in which the updater of the snake starts on a tick of a
    game in play: behind the sweeps when it runs eagerly, and behind the
    sample of the spawn test as well when it runs at the render. *)
Definition updaterStart (s : Schedule) (w : World) : World :=
  match s with
  | Eager => swept w
  | Deferred => consumed 1 (swept w)
  end.

(** The power-up of the board that lies on a cell, if any, as the tick
    looks it up: [powerUps.findIndex] and the element at that index. *)
Definition powerUpAt (board : list PowerUp) (c : Coordinate) : option (nat * PowerUp) :=
  match findIndex (fun p => (pu_x p =? x c) && (pu_y p =? y c)) board with
  | Some i => match nth_error board i with
              | Some p => Some (i, p)
              | None => None
              end
  | None => None
  end.

(** The game without its high score. *)
Definition allButHighScore (g : Game) :=
  (snake g, food g, powerUps g, activePowerUp g, direction g, nextDirection g,
   score g, lives g, status g, gameOverReason g, combo g, comboExpiresAt g).

(** ** Sample hosts and boards *)


(** A random source stuck on one sample. *)
Definition constSeq (u : Q) (i : nat) : Q := u.

(** A clock that advances by one millisecond per reading, from [t0]. *)
Definition tickingClock (t0 : Z) (i : nat) : Z := t0 + Z.of_nat i.

(** A snake that covers every cell of the board. *)
Definition fullBoard : SnakeBody :=
  map (fun k => {| x := Z.of_nat k mod 20; y := Z.of_nat k / 20 |}) (seq 0 400).

(** A world around a given game state. *)
Definition worldOf (g : Game) (rnd : nat -> Q) (clk : nat -> Z) : World :=
  {| state := g; savedComboTimeRef := 0; localStorage := None;
     randomSeq := rnd; randomPos := 0; clockSeq := clk; clockPos := 0;
     calls := [] |}.

(** A random source whose first 38 samples are 1/2 and all later ones 0:
    nineteen draws of the cell (10, 10), then draws of the cell (0, 0). *)
Definition lateFreeSeq (i : nat) : Q :=
  if Nat.ltb i 38 then 1 # 2 else 0.

(** A game in progress with a combo of [c] that expires at [e]. *)
Definition playingWithCombo (c e : Z) : Game :=
  {| snake := INITIAL_SNAKE; food := {| x := 5; y := 5 |}; powerUps := [];
     activePowerUp := None; direction := INITIAL_DIRECTION;
     nextDirection := INITIAL_DIRECTION; score := 0; highScore := 0;
     lives := MAX_LIVES; status := PLAYING; gameOverReason := None;
     combo := c; comboExpiresAt := e |}.

(** A game in progress whose food lies where the snake is put back after
    a lost life, with one power-up on the board. *)
Definition foodUnderSpawn : Game :=
  {| snake := [ {| x := 3; y := 0 |}; {| x := 3; y := 1 |}; {| x := 3; y := 2 |};
                {| x := 3; y := 3 |} ];
     food := {| x := 10; y := 11 |};
     powerUps := [ {| pu_x := 7; pu_y := 7; pu_type := GHOST |} ];
     activePowerUp := Some {| ap_type := SLOW_TIME; expiresAt := 9000 |};
     direction := UP; nextDirection := UP; score := 40; highScore := 40;
     lives := 3; status := PLAYING; gameOverReason := None;
     combo := 2; comboExpiresAt := 8000 |}.

(** A game in play: the initial snake heading UP with the food right
    ahead of it, a combo of [c] that expires at [e]. *)
Definition foodAhead (c e : Z) : Game :=
  {| snake := INITIAL_SNAKE; food := {| x := 10; y := 9 |}; powerUps := [];
     activePowerUp := None; direction := UP; nextDirection := UP;
     score := 0; highScore := 0; lives := MAX_LIVES; status := PLAYING;
     gameOverReason := None; combo := c; comboExpiresAt := e |}.

(** A game in play: a snake of three with its head on the left edge,
    heading LEFT, under the given active power-up. *)
Definition atLeftEdge (a : option ActivePowerUp) : Game :=
  {| snake := [ {| x := 0; y := 5 |}; {| x := 1; y := 5 |}; {| x := 2; y := 5 |} ];
     food := {| x := 15; y := 15 |}; powerUps := [];
     activePowerUp := a; direction := LEFT; nextDirection := LEFT;
     score := 30; highScore := 30; lives := 2; status := PLAYING;
     gameOverReason := None; combo := 0; comboExpiresAt := 0 |}.

(** A game in play: a snake of five curled so that turning UP runs the
    head into its own body, under the given active power-up. *)
Definition curled (a : option ActivePowerUp) : Game :=
  {| snake := [ {| x := 5; y := 6 |}; {| x := 4; y := 6 |}; {| x := 4; y := 5 |};
                {| x := 5; y := 5 |}; {| x := 6; y := 5 |} ];
     food := {| x := 15; y := 15 |}; powerUps := [];
     activePowerUp := a; direction := RIGHT; nextDirection := UP;
     score := 20; highScore := 20; lives := 3; status := PLAYING;
     gameOverReason := None; combo := 0; comboExpiresAt := 0 |}.

(** A random source whose first draw is the cell (10, 9), right ahead of
    the initial snake, and whose later draws are the cell (5, 5). *)
Definition aheadSeq (i : nat) : Q :=
  match i with
  | O => 1 # 2
  | S O => 9 # 20
  | _ => 1 # 4
  end.

(** A game in play on its last life: head on the left edge, heading LEFT. *)
Definition lastLife : Game :=
  {| snake := [ {| x := 0; y := 5 |}; {| x := 1; y := 5 |}; {| x := 2; y := 5 |} ];
     food := {| x := 15; y := 15 |}; powerUps := [];
     activePowerUp := None; direction := LEFT; nextDirection := LEFT;
     score := 50; highScore := 50; lives := 1; status := PLAYING;
     gameOverReason := None; combo := 0; comboExpiresAt := 0 |}.


(** A session: the game is started, the snake eats the food right ahead,
    turns LEFT and runs into the left wall, on a tick whose updater runs
    as [s] says. *)
Definition intoTheWall (s : Schedule) : list Event :=
  [ClickStart; Tick Deferred; Steer LEFT] ++ repeat (Tick Deferred) 10 ++ [Tick s].

(** The mounted component of a browser that stored a high score of 3. *)
Definition mounted : World :=
  after mount (freshWorld (Some 3) aheadSeq (tickingClock 0)).

(** A game in play with a GHOST power-up on the cell right ahead of the
    initial snake. *)
Definition powerUpAhead : Game :=
  {| snake := INITIAL_SNAKE; food := {| x := 5; y := 5 |};
     powerUps := [ {| pu_x := 10; pu_y := 9; pu_type := GHOST |} ];
     activePowerUp := None; direction := UP; nextDirection := UP;
     score := 0; highScore := 0; lives := MAX_LIVES; status := PLAYING;
     gameOverReason := None; combo := 0; comboExpiresAt := 0 |}.

(** A session: the game is started and the snake is left to run into the
    top wall three times. *)
Definition threeCrashes : list Event := ClickStart :: repeat (Tick Deferred) 33.

(** A game in play at the left wall with a GHOST in the active slot that
    ran out at 5000, in a host whose clock reads 6000 at the next
    reading and whose random source is stuck on 1/4. *)
Definition expiredGhostAtTheWall : World :=
  worldOf (atLeftEdge (Some {| ap_type := GHOST; expiresAt := 5000 |}))
    (constSeq (1 # 4)) (tickingClock 6000).

(** A random source whose first sample is 1/2 and whose first cell drawn
    after it is (3, 1), a cell of the snake of [foodUnderSpawn]; the
    later samples are 1/4. *)
Definition onTheSnakeSeq (i : nat) : Q :=
  match i with
  | O => 1 # 2
  | S O => 3 # 20
  | S (S O) => 1 # 20
  | _ => 1 # 4
  end.
(** * Properties *)

(** ** The monad *)

Lemma bind_Some {A B} (c : M A) (k : A -> M B) w b w' :
  bind c k w = Some (b, w') ->
  exists a w1, c w = Some (a, w1) /\ k a w1 = Some (b, w').
Proof.
  unfold bind. destruct (c w) as [[a w1]|]; [|discriminate].
  intros H. exists a, w1. auto.
Qed.

Lemma bind_eq {A B} (c : M A) (k : A -> M B) w a w1 :
  c w = Some (a, w1) -> bind c k w = k a w1.
Proof. unfold bind. intros ->. reflexivity. Qed.

Lemma consumed_0 w : consumed 0 w = w.
Proof. destruct w. unfold consumed. simpl. f_equal. apply Nat.add_0_r. Qed.

Lemma consumed_consumed n m w : consumed n (consumed m w) = consumed (m + n) w.
Proof. unfold consumed. simpl. f_equal. apply eq_sym, Nat.add_assoc. Qed.

Lemma drawAt_consumed w k : drawAt (consumed 2 w) k = drawAt w (S k).
Proof.
  unfold drawAt, consumed. simpl randomSeq. simpl randomPos.
  f_equal; f_equal; f_equal; lia.
Qed.

(** ** The random source *)

Lemma randomIndex_range u :
  (0 <= u)%Q -> (u < 1)%Q -> 0 <= randomIndex u < GRID_SIZE.
Proof.
  intros H0 H1. unfold randomIndex, GRID_SIZE. split.
  - rewrite <- (Qfloor_Z 0). apply Qfloor_resp_le.
    apply Qmult_le_0_compat; [assumption | discriminate].
  - apply Z.lt_nge. intros Hge.
    assert (Hq : (inject_Z 20 <= u * inject_Z 20)%Q).
    { eapply Qle_trans; [|apply Qfloor_le]. rewrite <- Zle_Qle. exact Hge. }
    assert (Hlt : (u * inject_Z 20 < 1 * inject_Z 20)%Q).
    { apply Qmult_lt_compat_r; [reflexivity | assumption]. }
    rewrite Qmult_1_l in Hlt.
    exact (Qlt_not_le _ _ Hlt Hq).
Qed.

Lemma drawAt_inGrid w k : unitInterval (randomSeq w) -> inGrid (drawAt w k) = true.
Proof.
  intros U. unfold inGrid, drawAt. cbn [x y].
  destruct (U (randomPos w + 2 * k)%nat) as [a1 a2].
  destruct (U (randomPos w + 2 * k + 1)%nat) as [b1 b2].
  pose proof (randomIndex_range _ a1 a2) as Hx.
  pose proof (randomIndex_range _ b1 b2) as Hy.
  rewrite !andb_true_iff, !Z.leb_le, !Z.ltb_lt. lia.
Qed.

(** ** [generateFood] *)

Lemma generateFood_unfold fuel currentSnake currentPowerUps w :
  generateFood (S fuel) currentSnake currentPowerUps w =
  if isOccupied (x (drawAt w 0)) (y (drawAt w 0)) currentSnake currentPowerUps
  then generateFood fuel currentSnake currentPowerUps (consumed 2 w)
  else Some (drawAt w 0, consumed 2 w).
Proof.
  assert (E : consumed 2 w =
    {| state := state w; savedComboTimeRef := savedComboTimeRef w;
       localStorage := localStorage w; randomSeq := randomSeq w;
       randomPos := S (S (randomPos w)); clockSeq := clockSeq w;
       clockPos := clockPos w; calls := calls w |}).
  { unfold consumed. f_equal. lia. }
  rewrite E. unfold drawAt.
  rewrite Nat.mul_0_r, Nat.add_0_r, Nat.add_1_r.
  cbn [generateFood]. unfold bind, Math_random, ret.
  cbn [x y state savedComboTimeRef localStorage randomSeq randomPos
       clockSeq clockPos calls].
  destruct (isOccupied _ _ _ _); reflexivity.
Qed.

(** The loop hands back the first draw that is not occupied, however
    many occupied draws come before it. *)
Lemma generateFood_first_free currentSnake currentPowerUps :
  forall k w,
    (forall j, (j < k)%nat ->
       isOccupied (x (drawAt w j)) (y (drawAt w j)) currentSnake currentPowerUps = true) ->
    isOccupied (x (drawAt w k)) (y (drawAt w k)) currentSnake currentPowerUps = false ->
    forall fuel, (k < fuel)%nat ->
      generateFood fuel currentSnake currentPowerUps w
      = Some (drawAt w k, consumed (2 * S k) w).
Proof.
  induction k as [|k IH]; intros w Hocc Hfree fuel Hfuel.
  - destruct fuel as [|fuel]; [lia|].
    rewrite generateFood_unfold, Hfree. reflexivity.
  - destruct fuel as [|fuel]; [lia|].
    rewrite generateFood_unfold, (Hocc O) by lia.
    rewrite (IH (consumed 2 w)).
    + rewrite drawAt_consumed, consumed_consumed.
      replace (2 + 2 * S k)%nat with (2 * S (S k))%nat by lia. reflexivity.
    + intros j Hj. rewrite drawAt_consumed. apply Hocc. lia.
    + rewrite drawAt_consumed. exact Hfree.
    + lia.
Qed.

(** Whatever the loop returns is one of its draws, it is not occupied,
    and only the cursor of the random source has moved. *)
Lemma generateFood_sound currentSnake currentPowerUps :
  forall fuel w c w',
    generateFood fuel currentSnake currentPowerUps w = Some (c, w') ->
    exists k, c = drawAt w k /\ w' = consumed (2 * S k) w
      /\ isOccupied (x c) (y c) currentSnake currentPowerUps = false.
Proof.
  induction fuel as [|fuel IH]; intros w c w' H.
  - discriminate.
  - rewrite generateFood_unfold in H.
    destruct (isOccupied _ _ _ _) eqn:E.
    + apply IH in H. destruct H as (k & Hc & Hw & Hf).
      exists (S k). rewrite drawAt_consumed in Hc. rewrite consumed_consumed in Hw.
      repeat split; auto. rewrite Hw.
      replace (2 + 2 * S k)%nat with (2 * S (S k))%nat by lia. reflexivity.
    + inversion H; subst. exists O. repeat split; auto.
Qed.


Lemma first_free_below currentSnake currentPowerUps w :
  forall n,
    (exists k, (k < n)%nat
      /\ isOccupied (x (drawAt w k)) (y (drawAt w k)) currentSnake currentPowerUps = false
      /\ forall j, (j < k)%nat ->
           isOccupied (x (drawAt w j)) (y (drawAt w j)) currentSnake currentPowerUps = true)
    \/ (forall j, (j < n)%nat ->
           isOccupied (x (drawAt w j)) (y (drawAt w j)) currentSnake currentPowerUps = true).
Proof.
  induction n as [|n [IH|IH]].
  - right. intros j Hj. lia.
  - left. destruct IH as (k & Hk & H). exists k. split; [lia | exact H].
  - destruct (isOccupied (x (drawAt w n)) (y (drawAt w n)) currentSnake currentPowerUps)
      eqn:E.
    + right. intros j Hj. destruct (Nat.eq_dec j n) as [->|Hne]; [exact E|].
      apply IH. lia.
    + left. exists n. repeat split; auto.
Qed.

Lemma first_free_draw currentSnake currentPowerUps w :
  forall k0,
    isOccupied (x (drawAt w k0)) (y (drawAt w k0)) currentSnake currentPowerUps = false ->
    exists k, (k <= k0)%nat
      /\ isOccupied (x (drawAt w k)) (y (drawAt w k)) currentSnake currentPowerUps = false
      /\ forall j, (j < k)%nat ->
           isOccupied (x (drawAt w j)) (y (drawAt w j)) currentSnake currentPowerUps = true.
Proof.
  intros k0 Hfree.
  destruct (first_free_below currentSnake currentPowerUps w (S k0))
    as [(k & Hk & Hf & Hocc)|Hall].
  - exists k. repeat split; auto. lia.
  - rewrite Hall in Hfree by lia. discriminate.
Qed.


Lemma randomIndex_twentieth a : randomIndex (a # 20) = a.
Proof.
  unfold randomIndex, GRID_SIZE, Qfloor, Qmult, inject_Z. cbn [Qnum Qden].
  change (Z.pos (20 * 1)) with 20. apply Z.div_mul. discriminate.
Qed.





Lemma fullBoard_covers c currentPowerUps :
  inGrid c = true -> isOccupied (x c) (y c) fullBoard currentPowerUps = true.
Proof.
  destruct c as [cx cy]. unfold inGrid, GRID_SIZE. cbn [x y].
  rewrite !andb_true_iff, !Z.leb_le, !Z.ltb_lt. intros Hin.
  unfold isOccupied. apply orb_true_iff. left.
  apply existsb_exists. exists {| x := cx; y := cy |}. split.
  - unfold fullBoard. apply in_map_iff. exists (Z.to_nat (cx + 20 * cy)). split.
    + rewrite Z2Nat.id by lia. f_equal; Z.div_mod_to_equations; lia.
    + apply in_seq. lia.
  - cbn [x y]. rewrite !Z.eqb_refl. reflexivity.
Qed.



(** ** Symbolic execution of handlers *)

(** Runs the primitive operations of [M] and reduces projections. *)
Ltac exec :=
  cbn [bind ret gets modify call Date_now Math_random outOfFuel
       setSavedComboTime getSavedComboTime localStorage_setItem localStorage_getItem
       setSnake setFood setPowerUps setActivePowerUp setDirection setNextDirection
       setScore setHighScore setLives setStatus setGameOverReason setCombo
       setComboExpiresAt consumed
       state savedComboTimeRef localStorage randomSeq randomPos clockSeq clockPos calls
       snake food powerUps activePowerUp direction nextDirection score highScore
       lives status gameOverReason combo comboExpiresAt] in *.

(** Splits on the first test that blocks the execution. *)
Ltac branch :=
  match goal with
  | H : context [if ?c then _ else _] |- _ => destruct c eqn:?
  | |- context [if ?c then _ else _] => destruct c eqn:?
  end; exec.

(** Resolves a finished run: [Some (tt, w1) = Some (tt, w')]. *)
Ltac finished :=
  match goal with
  | H : Some (_, _) = Some (_, _) |- _ => inversion H; subst; clear H; exec
  | H : None = Some _ |- _ => discriminate H
  end.

(** Replaces a returned [generateFood] by its first free draw. *)
Ltac food_drawn :=
  match goal with
  | H : context [generateFood ?f ?s ?p ?w] |- _ =>
      let G := fresh "G" in
      destruct (generateFood f s p w) as [[? ?]|] eqn:G;
      [ apply generateFood_sound in G;
        destruct G as (? & ? & ? & ?); subst; exec
      | exec; try discriminate ]
  end.

(** ** [generatePowerUp] *)

Lemma placementLoop_unfold budget attempts currentSnake currentFood currentPowerUps w :
  placementLoop budget attempts currentSnake currentFood currentPowerUps w =
  if blocked currentSnake currentFood currentPowerUps (drawAt w 0)
     && (attempts + 1 <? 20)
  then match budget with
       | O => None
       | S budget' =>
           placementLoop budget' (attempts + 1) currentSnake currentFood
             currentPowerUps (consumed 2 w)
       end
  else Some ((drawAt w 0, attempts + 1), consumed 2 w).
Proof.
  assert (E : consumed 2 w =
    {| state := state w; savedComboTimeRef := savedComboTimeRef w;
       localStorage := localStorage w; randomSeq := randomSeq w;
       randomPos := S (S (randomPos w)); clockSeq := clockSeq w;
       clockPos := clockPos w; calls := calls w |}).
  { unfold consumed. f_equal. lia. }
  rewrite E. unfold blocked, drawAt.
  rewrite Nat.mul_0_r, Nat.add_0_r, Nat.add_1_r.
  destruct budget; cbn [placementLoop]; unfold bind, Math_random, ret;
    cbn [x y state savedComboTimeRef localStorage randomSeq randomPos
         clockSeq clockPos calls];
    match goal with |- context [if ?b then _ else _] => destruct b end;
    reflexivity.
Qed.

(** The loop stops at the first draw that is not blocked, provided the
    attempts before it stay below 20. *)
Lemma placementLoop_first_free currentSnake currentFood currentPowerUps :
  forall k attempts budget w,
    (forall j, (j < k)%nat ->
       blocked currentSnake currentFood currentPowerUps (drawAt w j) = true) ->
    blocked currentSnake currentFood currentPowerUps (drawAt w k) = false ->
    attempts + Z.of_nat k <= 19 ->
    (k <= budget)%nat ->
    placementLoop budget attempts currentSnake currentFood currentPowerUps w
    = Some ((drawAt w k, attempts + Z.of_nat k + 1), consumed (2 * S k) w).
Proof.
  induction k as [|k IH]; intros attempts budget w Hb Hf Ha Hbud.
  - rewrite placementLoop_unfold, Hf. cbn [andb].
    do 3 f_equal. lia.
  - rewrite placementLoop_unfold, (Hb O) by lia.
    assert (Hlt : (attempts + 1 <? 20) = true) by (apply Z.ltb_lt; lia).
    rewrite Hlt. cbn [andb].
    destruct budget as [|budget]; [lia|].
    rewrite (IH (attempts + 1) budget (consumed 2 w)).
    + rewrite drawAt_consumed, consumed_consumed.
      replace (2 + 2 * S k)%nat with (2 * S (S k))%nat by lia.
      do 3 f_equal. lia.
    + intros j Hj. rewrite drawAt_consumed. apply Hb. lia.
    + rewrite drawAt_consumed. exact Hf.
    + lia.
    + lia.
Qed.

(** After blocked draws up to attempt 19, the loop stops on attempt 20
    whether or not that draw is blocked. *)
Lemma placementLoop_last_attempt currentSnake currentFood currentPowerUps :
  forall n attempts budget w,
    (forall j, (j < n)%nat ->
       blocked currentSnake currentFood currentPowerUps (drawAt w j) = true) ->
    attempts + Z.of_nat n = 19 ->
    (n <= budget)%nat ->
    placementLoop budget attempts currentSnake currentFood currentPowerUps w
    = Some ((drawAt w n, 20), consumed (2 * S n) w).
Proof.
  induction n as [|n IH]; intros attempts budget w Hb Ha Hbud.
  - rewrite placementLoop_unfold.
    assert (Hlt : (attempts + 1 <? 20) = false) by (apply Z.ltb_ge; lia).
    rewrite Hlt, andb_false_r. do 3 f_equal. lia.
  - rewrite placementLoop_unfold, (Hb O) by lia.
    assert (Hlt : (attempts + 1 <? 20) = true) by (apply Z.ltb_lt; lia).
    rewrite Hlt. cbn [andb].
    destruct budget as [|budget]; [lia|].
    rewrite (IH (attempts + 1) budget (consumed 2 w)).
    + rewrite drawAt_consumed, consumed_consumed.
      replace (2 + 2 * S n)%nat with (2 * S (S n))%nat by lia. reflexivity.
    + intros j Hj. rewrite drawAt_consumed. apply Hb. lia.
    + lia.
    + lia.
Qed.

(** With no power-up on the board, a first free draw among attempts 1
    to 19 becomes the new power-up. *)
Lemma generatePowerUp_spawns currentSnake currentFood w k :
  (forall j, (j < k)%nat -> blocked currentSnake currentFood [] (drawAt w j) = true) ->
  blocked currentSnake currentFood [] (drawAt w k) = false ->
  (k < 19)%nat ->
  exists type,
    generatePowerUp currentSnake currentFood [] w
    = Some (Some {| pu_x := x (drawAt w k); pu_y := y (drawAt w k); pu_type := type |},
            consumed (2 * S k + 1) w).
Proof.
  intros Hb Hf Hk. unfold generatePowerUp. cbn [List.length Nat.ltb Nat.leb].
  erewrite bind_eq.
  2:{ apply (placementLoop_first_free _ _ _ k 0 20%nat w Hb Hf); lia. }
  cbv beta iota.
  assert (Hlt : (0 + Z.of_nat k + 1 >=? 20) = false) by lia.
  rewrite Hlt. unfold bind, Math_random, ret, consumed.
  cbn [x y state savedComboTimeRef localStorage randomSeq randomPos
       clockSeq clockPos calls].
  eexists. do 3 f_equal. lia.
Qed.

(** With no power-up on the board, nineteen blocked draws end in "no
    spawn", whatever the twentieth draw is. *)
Lemma generatePowerUp_gives_up currentSnake currentFood w :
  (forall j, (j < 19)%nat -> blocked currentSnake currentFood [] (drawAt w j) = true) ->
  generatePowerUp currentSnake currentFood [] w = Some (None, consumed 40 w).
Proof.
  intros Hb. unfold generatePowerUp. cbn [List.length Nat.ltb Nat.leb].
  erewrite bind_eq.
  2:{ apply (placementLoop_last_attempt _ _ _ 19%nat 0 20%nat w Hb); lia. }
  reflexivity.
Qed.

(** A power-up already on the board: no attempt is made. *)
Lemma generatePowerUp_board_taken currentSnake currentFood p ps w :
  generatePowerUp currentSnake currentFood (p :: ps) w = Some (None, w).
Proof. reflexivity. Qed.

(** C2, evaluated where the code departs from it.  The snake is the
    initial one, the food is at (5, 5), no power-up is on the board; the
    first nineteen attempts land on the snake cell (10, 10) and the
    twentieth on the free cell (0, 0) of the board.  No power-up is
    spawned. *)
Theorem C2_twentieth_attempt_is_discarded :
  forallb (fun j => blocked INITIAL_SNAKE {| x := 5; y := 5 |} []
                      (drawAt (freshWorld None lateFreeSeq (tickingClock 0)) j))
          (seq 0 19) = true
  /\ drawAt (freshWorld None lateFreeSeq (tickingClock 0)) 19 = {| x := 0; y := 0 |}
  /\ inGrid {| x := 0; y := 0 |} = true
  /\ blocked INITIAL_SNAKE {| x := 5; y := 5 |} [] {| x := 0; y := 0 |} = false
  /\ generatePowerUp INITIAL_SNAKE {| x := 5; y := 5 |} []
       (freshWorld None lateFreeSeq (tickingClock 0))
     = Some (None, consumed 40 (freshWorld None lateFreeSeq (tickingClock 0))).
Proof.
  repeat split; vm_compute; reflexivity.
Qed.

(** ** [handlePause] and [handleResume] *)

(** C3 as stated fails on the handlers: [handleResume] called on the
    freshly mounted component (status IDLE) starts play, and
    [handlePause] called there sets the status to PAUSED. *)
Lemma C3_handlers_act_in_any_state :
  status (state (freshWorld None (constSeq (1 # 4)) (tickingClock 0))) = IDLE
  /\ (exists w',
        handleResume (freshWorld None (constSeq (1 # 4)) (tickingClock 0)) = Some (tt, w')
        /\ status (state w') = PLAYING)
  /\ (exists w',
        handlePause initialGame (freshWorld None (constSeq (1 # 4)) (tickingClock 0)) = Some (tt, w')
        /\ status (state w') = PAUSED).
Proof.
  split; [reflexivity|]. split; eexists; split; reflexivity.
Qed.

(** C3, amended.  [handlePause] and [handleResume] check nothing: in any
    state they return, with status PAUSED and PLAYING.  The check is in
    their callers: an Escape key or a click on the pause button outside
    PLAYING leaves the world as it is, and the Space key calls
    [handlePause] when PLAYING, [handleResume] when PAUSED and
    [resetGame] when IDLE or GAME_OVER. *)
Theorem C3_pause_resume_guarded_by_callers :
  (forall r w, exists w',
      handlePause r w = Some (tt, w') /\ status (state w') = PAUSED)
  /\ (forall w, exists w',
        handleResume w = Some (tt, w') /\ status (state w') = PLAYING)
  /\ (forall fuel r key w,
        lookupKey key KEY_MAP = None -> status r <> PLAYING ->
        handleKeyDown fuel r key "Escape" w = Some (tt, w))
  /\ (forall fuel r w,
        status r <> PLAYING -> dispatch fuel r ClickPause w = Some (tt, w))
  /\ (forall fuel r key w,
        lookupKey key KEY_MAP = None ->
        handleKeyDown fuel r key "Space" w =
        match status r with
        | PLAYING => handlePause r w
        | PAUSED => handleResume w
        | IDLE | GAME_OVER => resetGame fuel w
        end).
Proof.
  split; [|split; [|split; [|split]]].
  - intros r w.
    unfold handlePause, bind, call, Date_now, setSavedComboTime, setStatus, modify.
    cbn [state]. destruct (combo r >? 0); eexists; split; reflexivity.
  - intros w. unfold handleResume, bind, call, getSavedComboTime, Date_now,
      setComboExpiresAt, setStatus, modify, ret.
    cbn [state savedComboTimeRef]. destruct (savedComboTimeRef w >? 0);
      eexists; split; reflexivity.
  - intros fuel r key w Hkey Hst. unfold handleKeyDown. rewrite Hkey.
    cbn [String.eqb Ascii.eqb Bool.eqb]. destruct (status r); try reflexivity.
    contradiction.
  - intros fuel r w Hst. cbn [dispatch]. destruct (status r); try reflexivity. contradiction.
  - intros fuel r key w Hkey. unfold handleKeyDown. rewrite Hkey.
    cbn [String.eqb Ascii.eqb Bool.eqb]. destruct (status r); reflexivity.
Qed.

Lemma C3_pause_resume_guarded_by_callers_witness :
  handleKeyDown 1 initialGame "Escape" "Escape"
    (freshWorld None (constSeq (1 # 4)) (tickingClock 0))
  = Some (tt, freshWorld None (constSeq (1 # 4)) (tickingClock 0))
  /\ dispatch 1 initialGame ClickPause (freshWorld None (constSeq (1 # 4)) (tickingClock 0))
     = Some (tt, freshWorld None (constSeq (1 # 4)) (tickingClock 0))
  /\ handleKeyDown 1 (playingWithCombo 0 0) " " "Space"
       (worldOf (playingWithCombo 0 0) (constSeq (1 # 4)) (tickingClock 0))
     = handlePause (playingWithCombo 0 0)
         (worldOf (playingWithCombo 0 0) (constSeq (1 # 4)) (tickingClock 0)).
Proof.
  destruct C3_pause_resume_guarded_by_callers as (_ & _ & Hesc & Hclick & Hspace).
  split; [|split].
  - apply Hesc; [reflexivity | discriminate].
  - apply Hclick. discriminate.
  - apply (Hspace 1%nat (playingWithCombo 0 0) " "%string). reflexivity.
Defined.

(** C6 as stated fails when the combo has already run out at the pause:
    combo 1 expiring at 1000, paused at 1040 before any tick has swept
    it, resumed at the next clock reading 1041.  The saved remainder is 0
    and [comboExpiresAt] stays 1000: it is neither
    [t2 + (comboExpiresAt - t1)] nor [t2] plus the saved remainder. *)
Lemma C6_expired_combo_is_not_rebased :
  (handlePause (playingWithCombo 1 1000) ;; handleResume)
    (worldOf (playingWithCombo 1 1000) (constSeq (1 # 4)) (tickingClock 1040))
  = Some (tt, after (handlePause (playingWithCombo 1 1000) ;; handleResume)
                (worldOf (playingWithCombo 1 1000) (constSeq (1 # 4))
                   (tickingClock 1040)))
  /\ savedComboTimeRef
       (after (handlePause (playingWithCombo 1 1000))
          (worldOf (playingWithCombo 1 1000) (constSeq (1 # 4)) (tickingClock 1040)))
     = 0
  /\ comboExpiresAt (state
       (after (handlePause (playingWithCombo 1 1000) ;; handleResume)
          (worldOf (playingWithCombo 1 1000) (constSeq (1 # 4)) (tickingClock 1040))))
     = 1000
  /\ 1000 <> 1041 + (1000 - 1040)
  /\ 1000 <> 1041 + 0.
Proof.
  split; [vm_compute; reflexivity|].
  split; [vm_compute; reflexivity|].
  split; [vm_compute; reflexivity|].
  split; lia.
Qed.

(** C6, amended.  A pause at [t1] followed by a resume at [t2]: when the
    combo is positive and has time left at the pause
    ([t1 < comboExpiresAt]), [comboExpiresAt] becomes
    [t2 + (comboExpiresAt - t1)]; otherwise the saved remainder is 0 and
    [comboExpiresAt] is left as it was.  The combo counter is untouched
    and the game is PLAYING again. *)
Theorem C6_combo_time_survives_pause :
  forall w, exists w1 w2,
    handlePause (state w) w = Some (tt, w1)
    /\ handleResume w1 = Some (tt, w2)
    /\ (combo (state w) > 0 ->
        clockSeq w (clockPos w) < comboExpiresAt (state w) ->
        savedComboTimeRef w1 = comboExpiresAt (state w) - clockSeq w (clockPos w)
        /\ comboExpiresAt (state w2)
           = clockSeq w (S (clockPos w))
             + (comboExpiresAt (state w) - clockSeq w (clockPos w)))
    /\ (combo (state w) <= 0
        \/ (combo (state w) > 0 /\ comboExpiresAt (state w) <= clockSeq w (clockPos w)) ->
        savedComboTimeRef w1 = 0
        /\ comboExpiresAt (state w2) = comboExpiresAt (state w))
    /\ combo (state w2) = combo (state w)
    /\ status (state w2) = PLAYING.
Proof.
  intros w.
  destruct (handlePause (state w) w) as [[[] w1]|] eqn:Hp.
  2:{ exfalso. unfold handlePause in Hp. exec. branch; discriminate. }
  destruct (handleResume w1) as [[[] w2]|] eqn:Hr.
  2:{ exfalso. unfold handleResume in Hr. exec. branch; discriminate. }
  exists w1, w2. split; [reflexivity|]. split; [exact Hr|].
  unfold handlePause in Hp. unfold handleResume in Hr. exec.
  destruct (combo (state w) >? 0) eqn:Ec; exec; inversion Hp; subst; clear Hp; exec;
    branch; inversion Hr; subst; clear Hr; exec;
    repeat split; intros; lia.
Qed.

Lemma C6_combo_time_survives_pause_witness :
  exists w1 w2,
    handlePause (playingWithCombo 2 5000)
      (worldOf (playingWithCombo 2 5000) (constSeq (1 # 4)) (tickingClock 2000)) = Some (tt, w1)
    /\ handleResume w1 = Some (tt, w2)
    /\ savedComboTimeRef w1 = 3000
    /\ comboExpiresAt (state w2) = 5001.
Proof.
  destruct (C6_combo_time_survives_pause
              (worldOf (playingWithCombo 2 5000) (constSeq (1 # 4)) (tickingClock 2000)))
    as (w1 & w2 & Hp & Hr & Hpos & _).
  exists w1, w2. split; [exact Hp|]. split; [exact Hr|].
  apply Hpos; vm_compute; reflexivity.
Defined.

(** ** [handleLifeLost] *)

Lemma isUnderSpawn_isOccupied c :
  isOccupied (x c) (y c) INITIAL_SNAKE [] = isUnderSpawn c.
Proof. unfold isOccupied, isUnderSpawn. cbn [existsb]. apply orb_false_r. Qed.




(** ** The tick *)

Lemma placementLoop_total currentSnake currentFood currentPowerUps :
  forall budget attempts w,
    19 - attempts <= Z.of_nat budget ->
    exists res n,
      placementLoop budget attempts currentSnake currentFood currentPowerUps w
      = Some (res, consumed n w).
Proof.
  induction budget as [|budget IH]; intros attempts w Hb;
    rewrite placementLoop_unfold.
  - assert (Hlt : (attempts + 1 <? 20) = false) by lia.
    rewrite Hlt, andb_false_r. eauto.
  - destruct (blocked _ _ _ _ && (attempts + 1 <? 20)); [|eauto].
    destruct (IH (attempts + 1) (consumed 2 w)) as (res & n & E); [lia|].
    rewrite E, consumed_consumed. eauto.
Qed.

(** [generatePowerUp] always returns, and only draws random numbers. *)
Lemma generatePowerUp_frame currentSnake currentFood currentPowerUps w :
  exists item n,
    generatePowerUp currentSnake currentFood currentPowerUps w
    = Some (item, consumed n w).
Proof.
  unfold generatePowerUp.
  destruct (Nat.ltb 0 (List.length currentPowerUps)).
  - exists None, 0%nat. rewrite consumed_0. reflexivity.
  - destruct (placementLoop_total currentSnake currentFood currentPowerUps
                20 0 w) as ([newLoc attempts] & n & E); [lia|].
    cbn [bind]. rewrite E.
    destruct (attempts >=? 20).
    + exists None, n. reflexivity.
    + eexists _, (n + 1)%nat. unfold consumed. cbn.
      rewrite Nat.add_1_r, Nat.add_succ_r. reflexivity.
Qed.

Lemma invocations_cons p c trace :
  invocations p (c :: trace)
  = ((if p c then 1 else 0) + invocations p trace)%nat.
Proof. unfold invocations. cbn [filter]. destruct (p c); reflexivity. Qed.


Lemma drawAt_ext w1 w2 k :
  randomSeq w1 = randomSeq w2 -> randomPos w1 = randomPos w2 ->
  drawAt w1 k = drawAt w2 k.
Proof. unfold drawAt. intros E1 E2. rewrite E1, E2. reflexivity. Qed.

Lemma generateFood_returns fuel currentSnake currentPowerUps w k0 :
  (k0 < fuel)%nat ->
  isOccupied (x (drawAt w k0)) (y (drawAt w k0)) currentSnake currentPowerUps = false ->
  exists c w', generateFood fuel currentSnake currentPowerUps w = Some (c, w').
Proof.
  intros Hk Hfree.
  destruct (first_free_draw currentSnake currentPowerUps w k0 Hfree) as (k & Hle & Hf & Hocc).
  rewrite (generateFood_first_free currentSnake currentPowerUps k w Hocc Hf fuel) by lia.
  eauto.
Qed.


(** *** The render: the updaters left in the queues *)

(** The updater of the spawn block always returns, adds at most one
    power-up, and only to an empty board; it touches nothing but the
    board and the random cursor. *)
Lemma moveSnake_spawn_effect r w :
  exists w' spawned,
    moveSnake_spawn r w = Some (tt, w')
    /\ beyondRender w' = beyondRender w
    /\ food (state w') = food (state w)
    /\ powerUps (state w') = powerUps (state w) ++ spawned
    /\ (List.length spawned <= 1)%nat
    /\ (spawned <> [] -> powerUps (state w) = []).
Proof.
  unfold moveSnake_spawn. exec.
  destruct (Nat.leb 1 (List.length (powerUps (state w)))) eqn:El; exec.
  { eexists _, []. rewrite app_nil_r. repeat split; auto.
    intros F; contradiction F; reflexivity. }
  match goal with |- context [generatePowerUp ?s ?f ?p ?w0] =>
    destruct (generatePowerUp_frame s f p w0) as (item & n & E); rewrite E end.
  apply Nat.leb_gt in El.
  assert (Hemp : powerUps (state w) = [])
    by (destruct (powerUps (state w)); [reflexivity | cbn in El; lia]).
  destruct item as [item|]; exec.
  - eexists _, [item]. repeat split; auto.
  - eexists _, []. rewrite app_nil_r. repeat split; auto.
Qed.

(** The updater that [handleLifeLost] passes to [setFood] keeps the food
    unless it lies under the reset snake, and leaves it off that snake. *)
Lemma handleLifeLost_food_effect fuel w w' :
  handleLifeLost_food fuel w = Some (tt, w') ->
  beyondRender w' = beyondRender w
  /\ powerUps (state w') = powerUps (state w)
  /\ isUnderSpawn (food (state w')) = false
  /\ (isUnderSpawn (food (state w)) = false ->
      food (state w') = food (state w) /\ randomPos w' = randomPos w)
  /\ (unitInterval (randomSeq w) -> inGrid (food (state w)) = true ->
      inGrid (food (state w')) = true).
Proof.
  intros H. unfold handleLifeLost_food in H. exec.
  destruct (isUnderSpawn (food (state w))) eqn:Eu; exec.
  - food_drawn. finished.
    match goal with Hf : isOccupied _ _ INITIAL_SNAKE [] = false |- _ =>
      rewrite isUnderSpawn_isOccupied in Hf end.
    repeat split; auto; try discriminate.
    intros U _.
    match goal with |- inGrid (drawAt ?w0 ?k) = true =>
      apply (drawAt_inGrid w0 k) end.
    exact U.
  - finished. repeat split; auto.
Qed.

Lemma handleLifeLost_food_returns fuel w :
  (isUnderSpawn (food (state w)) = true ->
   exists k, (k < fuel)%nat /\ isUnderSpawn (drawAt w k) = false) ->
  exists w', handleLifeLost_food fuel w = Some (tt, w').
Proof.
  intros Hsrc. unfold handleLifeLost_food. exec.
  destruct (isUnderSpawn (food (state w))) eqn:Eu; exec; [|eauto].
  destruct Hsrc as (k0 & Hk0 & Hfree); [reflexivity|].
  rewrite <- isUnderSpawn_isOccupied in Hfree.
  match goal with |- context [generateFood fuel INITIAL_SNAKE [] ?w0] =>
    destruct (generateFood_returns fuel INITIAL_SNAKE [] w0 k0 Hk0 Hfree)
      as (c & w1 & E); rewrite E end.
  eauto.
Qed.

Lemma beyondRender_trans w1 w2 w3 :
  beyondRender w3 = beyondRender w2 -> beyondRender w2 = beyondRender w1 ->
  beyondRender w3 = beyondRender w1.
Proof. intros A B. rewrite A. exact B. Qed.

Lemma beyondRender_fields w w' :
  beyondRender w' = beyondRender w ->
  snake (state w') = snake (state w)
  /\ activePowerUp (state w') = activePowerUp (state w)
  /\ direction (state w') = direction (state w)
  /\ nextDirection (state w') = nextDirection (state w)
  /\ score (state w') = score (state w)
  /\ highScore (state w') = highScore (state w)
  /\ lives (state w') = lives (state w)
  /\ status (state w') = status (state w)
  /\ gameOverReason (state w') = gameOverReason (state w)
  /\ combo (state w') = combo (state w)
  /\ comboExpiresAt (state w') = comboExpiresAt (state w)
  /\ savedComboTimeRef w' = savedComboTimeRef w
  /\ localStorage w' = localStorage w
  /\ clockPos w' = clockPos w
  /\ calls w' = calls w
  /\ randomSeq w' = randomSeq w
  /\ clockSeq w' = clockSeq w.
Proof.
  unfold beyondRender.
  generalize (snake (state w)) (activePowerUp (state w)) (direction (state w))
    (nextDirection (state w)) (score (state w)) (highScore (state w))
    (lives (state w)) (status (state w)) (gameOverReason (state w))
    (combo (state w)) (comboExpiresAt (state w)) (savedComboTimeRef w)
    (localStorage w) (clockPos w) (calls w) (randomSeq w) (clockSeq w).
  intros. inversion H. repeat split; reflexivity.
Qed.

(** What the render of a tick does with the queues of the food and of
    the board. *)
Lemma moveSnake_queued_effect s fuel r u late w w' :
  moveSnake_queued s fuel r u late w = Some (tt, w') ->
  beyondRender w' = beyondRender w
  /\ (if lateFood late
      then isUnderSpawn (food (state w')) = false
           /\ (isUnderSpawn (food (state w)) = false ->
               food (state w') = food (state w))
           /\ (unitInterval (randomSeq w) -> inGrid (food (state w)) = true ->
               inGrid (food (state w')) = true)
      else food (state w') = food (state w))
  /\ exists spawned,
       (List.length spawned <= 1)%nat
       /\ match lateBoard late, s with
          | Some newPowerUps, Eager =>
              powerUps (state w') = newPowerUps ++ spawned
              /\ (spawned <> [] -> newPowerUps = [])
          | Some newPowerUps, Deferred => powerUps (state w') = newPowerUps
          | None, _ =>
              powerUps (state w') = powerUps (state w) ++ spawned
              /\ (spawned <> [] -> powerUps (state w) = [])
          end.
Proof.
  intros H. unfold moveSnake_queued in H. cbn [bind] in H.
  destruct ((if lateFood late then handleLifeLost_food fuel else ret tt) w)
    as [[[] w1]|] eqn:E1; [|discriminate].
  assert (F1 : beyondRender w1 = beyondRender w
               /\ powerUps (state w1) = powerUps (state w)
               /\ (if lateFood late
                   then isUnderSpawn (food (state w1)) = false
                        /\ (isUnderSpawn (food (state w)) = false ->
                            food (state w1) = food (state w))
                        /\ (unitInterval (randomSeq w) ->
                            inGrid (food (state w)) = true ->
                            inGrid (food (state w1)) = true)
                   else food (state w1) = food (state w))).
  { destruct (lateFood late).
    - apply handleLifeLost_food_effect in E1.
      destruct E1 as (A & B & C & D & E). repeat split; auto.
      intros Hu. apply D. exact Hu.
    - inversion E1; subst. repeat split; reflexivity. }
  clear E1. destruct F1 as (R1 & P1 & Fd1).
  assert (Hnil : forall b : list PowerUp,
             b = b ++ [] /\ (@nil PowerUp <> [] -> b = [])).
  { intros b. rewrite app_nil_r. split; [reflexivity|].
    intros F; contradiction F; reflexivity. }
  destruct s; cbn [bind] in H.
  - (* the board of a pick-up first, then the spawn updater *)
    destruct ((match lateBoard late with
               | Some newPowerUps => setPowerUps newPowerUps
               | None => ret tt
               end) w1) as [[[] w2]|] eqn:E2; [|discriminate].
    assert (F2 : beyondRender w2 = beyondRender w1
                 /\ food (state w2) = food (state w1)
                 /\ powerUps (state w2)
                    = match lateBoard late with
                      | Some newPowerUps => newPowerUps
                      | None => powerUps (state w1)
                      end).
    { destruct (lateBoard late); exec; inversion E2; subst; repeat split; reflexivity. }
    clear E2. destruct F2 as (R2 & Ff2 & P2).
    assert (F3 : exists spawned,
               beyondRender w' = beyondRender w2
               /\ food (state w') = food (state w2)
               /\ powerUps (state w') = powerUps (state w2) ++ spawned
               /\ (List.length spawned <= 1)%nat
               /\ (spawned <> [] -> powerUps (state w2) = [])).
    { destruct (Qltb u POWERUP_SPAWN_CHANCE).
      - destruct (moveSnake_spawn_effect r w2) as (w3 & spawned & E & F).
        rewrite E in H. inversion H; subst w3. exists spawned. exact F.
      - inversion H; subst. exists []. destruct (Hnil (powerUps (state w'))).
        repeat split; auto. }
    destruct F3 as (spawned & R3 & Ff3 & P3 & L3 & N3).
    split; [rewrite R3, R2; exact R1|].
    split.
    { rewrite Ff3, Ff2. exact Fd1. }
    exists spawned. split; [exact L3|].
    rewrite P3, P2 in *. destruct (lateBoard late); [auto|].
    rewrite P1 in *. auto.
  - (* the spawn updater first, then the board of a pick-up *)
    destruct ((if Qltb u POWERUP_SPAWN_CHANCE then moveSnake_spawn r else ret tt) w1)
      as [[[] w2]|] eqn:E2; [|discriminate].
    assert (F2 : exists spawned,
               beyondRender w2 = beyondRender w1
               /\ food (state w2) = food (state w1)
               /\ powerUps (state w2) = powerUps (state w1) ++ spawned
               /\ (List.length spawned <= 1)%nat
               /\ (spawned <> [] -> powerUps (state w1) = [])).
    { destruct (Qltb u POWERUP_SPAWN_CHANCE).
      - destruct (moveSnake_spawn_effect r w1) as (w3 & spawned & E & F).
        rewrite E in E2. inversion E2; subst w3. exists spawned. exact F.
      - inversion E2; subst. exists []. destruct (Hnil (powerUps (state w2))).
        repeat split; auto. }
    clear E2. destruct F2 as (spawned & R2 & Ff2 & P2 & L2 & N2).
    destruct (lateBoard late) as [b|]; exec; inversion H; subst; clear H.
    + split; [exact (beyondRender_trans _ _ _ R2 R1)|].
      split; [cbn [state food]; rewrite Ff2; exact Fd1|].
      exists []. split; [cbn; lia | reflexivity].
    + split; [rewrite R2; exact R1|].
      split; [rewrite Ff2; exact Fd1|].
      exists spawned. split; [exact L2|]. rewrite P2, P1 in *. auto.
Qed.

Lemma moveSnake_queued_returns s fuel r u late w :
  (lateFood late = true -> isUnderSpawn (food (state w)) = true ->
   exists k, (k < fuel)%nat /\ isUnderSpawn (drawAt w k) = false) ->
  exists w', moveSnake_queued s fuel r u late w = Some (tt, w').
Proof.
  intros Hsrc. unfold moveSnake_queued. cbn [bind].
  assert (E1 : exists w1,
             (if lateFood late then handleLifeLost_food fuel else ret tt) w
             = Some (tt, w1)).
  { destruct (lateFood late); [|eexists; reflexivity].
    apply handleLifeLost_food_returns. exact (Hsrc eq_refl). }
  destruct E1 as (w1 & E1). rewrite E1.
  assert (Hsp : forall w0, exists w2,
             (if Qltb u POWERUP_SPAWN_CHANCE then moveSnake_spawn r else ret tt) w0
             = Some (tt, w2)).
  { intros w0. destruct (Qltb u POWERUP_SPAWN_CHANCE); [|eexists; reflexivity].
    destruct (moveSnake_spawn_effect r w0) as (w2 & _ & E & _). eauto. }
  assert (Hbd : forall w0, exists w2,
             (match lateBoard late with
              | Some newPowerUps => setPowerUps newPowerUps
              | None => ret tt
              end) w0 = Some (tt, w2)).
  { intros w0. destruct (lateBoard late); eexists; reflexivity. }
  destruct s; cbn [bind].
  - destruct (Hbd w1) as (w2 & E2). rewrite E2. apply Hsp.
  - destruct (Hsp w1) as (w2 & E2). rewrite E2. apply Hbd.
Qed.

(** *** The updater of the snake *)

Lemma moveSnake_updater_lost s fuel r prevSnake reason w :
  outcome r prevSnake = Lost reason ->
  moveSnake_updater s fuel r prevSnake w
  = (setDirection (nextDirection r) ;; moveSnake_lost s r prevSnake reason) w.
Proof.
  unfold outcome, moveSnake_updater. destruct prevSnake as [|head tl]; [discriminate|].
  cbv zeta.
  destruct (outOfGrid (stepHead (nextDirection r) head)) eqn:Eo;
    destruct (isGhost (activePowerUp r)) eqn:Eg; cbn [negb andb];
    try discriminate.
  - intros H. inversion H. reflexivity.
  - destruct (existsb _ (head :: tl)) eqn:Es; [|discriminate].
    intros H. inversion H. unfold moveSnake_afterWall. rewrite Eg, Es. reflexivity.
Qed.

Lemma moveSnake_updater_moved s fuel r prevSnake newHead w :
  outcome r prevSnake = Moved newHead ->
  (negb (isGhost (activePowerUp r))
   && existsb (fun seg => (x seg =? x newHead) && (y seg =? y newHead)) prevSnake)
  = false
  /\ moveSnake_updater s fuel r prevSnake w
     = (setDirection (nextDirection r) ;;
        moveSnake_afterWall s fuel r prevSnake newHead) w.
Proof.
  unfold outcome, moveSnake_updater. destruct prevSnake as [|head tl]; [discriminate|].
  cbv zeta.
  destruct (outOfGrid (stepHead (nextDirection r) head)) eqn:Eo.
  - destruct (isGhost (activePowerUp r)) eqn:Eg; cbn [negb andb]; [|discriminate].
    intros H. inversion H. split; reflexivity.
  - cbn [andb].
    destruct (negb (isGhost (activePowerUp r)) && existsb _ (head :: tl)) eqn:Es;
      [discriminate|].
    intros H. inversion H; subst. split; [exact Es | reflexivity].
Qed.

(** The two paths of the updater that lose a life, in full: what they
    leave of the world [w] in which they start. *)
Lemma moveSnake_lost_effect s r prevSnake reason w :
  moveSnake_lost s r prevSnake reason w
  = Some ({| lateFood := lives r >? 1; lateBoard := None |},
          {| state :=
               {| snake := match s with
                           | Eager => prevSnake
                           | Deferred =>
                               if lives r >? 1 then INITIAL_SNAKE else prevSnake
                           end;
                  food := food (state w);
                  powerUps := powerUps (state w);
                  activePowerUp :=
                    if lives r >? 1 then None else activePowerUp (state w);
                  direction :=
                    if lives r >? 1 then INITIAL_DIRECTION else direction (state w);
                  nextDirection :=
                    if lives r >? 1 then INITIAL_DIRECTION
                    else nextDirection (state w);
                  score := score (state w);
                  highScore := highScore (state w);
                  lives := if lives r >? 1 then lives (state w) - 1 else 0;
                  status := if lives r >? 1 then status (state w) else GAME_OVER;
                  gameOverReason :=
                    if lives r >? 1 then gameOverReason (state w) else Some reason;
                  combo := if lives r >? 1 then 0 else combo (state w);
                  comboExpiresAt := comboExpiresAt (state w) |};
             savedComboTimeRef := savedComboTimeRef w;
             localStorage :=
               if lives r >? 1 then localStorage w
               else if score r >? highScore r then Some (score r)
                    else localStorage w;
             randomSeq := randomSeq w; randomPos := randomPos w;
             clockSeq := clockSeq w; clockPos := clockPos w;
             calls :=
               (if lives r >? 1 then [PlayDamage]
                else [GenerateGameOverMessage (score r) reason; StartGameOverBGM])
               ++ EnterLifeLost reason :: calls w |}).
Proof.
  unfold moveSnake_lost, handleLifeLost_calls, handleGameOver.
  destruct s; exec; destruct (lives r >? 1); exec; try reflexivity;
    destruct (score r >? highScore r); exec; reflexivity.
Qed.

(** A move of the snake, in full: what the updater leaves of the world
    [w] in which it goes on after the wall check.  [k] is the draw that
    places the food, if the move eats. *)
Lemma moveSnake_afterWall_effect s fuel r prevSnake newHead w late w' :
  (negb (isGhost (activePowerUp r))
   && existsb (fun seg => (x seg =? x newHead) && (y seg =? y newHead)) prevSnake)
  = false ->
  moveSnake_afterWall s fuel r prevSnake newHead w = Some (late, w') ->
  late = {| lateFood := false;
            lateBoard := match powerUpAt (powerUps r) newHead with
                         | Some (i, _) => Some (splice1 i (powerUps r))
                         | None => None
                         end |}
  /\ exists k,
       (eats r newHead = true ->
        isOccupied (x (drawAt w k)) (y (drawAt w k)) (newHead :: prevSnake)
          (powerUps r) = false)
       /\ w' = {| state :=
                    {| snake := if eats r newHead then newHead :: prevSnake
                                else removelast (newHead :: prevSnake);
                       food := if eats r newHead then drawAt w k else food (state w);
                       powerUps := powerUps (state w);
                       activePowerUp :=
                         match powerUpAt (powerUps r) newHead with
                         | Some (_, p) =>
                             Some {| ap_type := pu_type p;
                                     expiresAt :=
                                       clockSeq w (if eats r newHead
                                                   then S (clockPos w)
                                                   else clockPos w)
                                       + POWERUP_DURATION |}
                         | None => activePowerUp (state w)
                         end;
                       direction := direction (state w);
                       nextDirection := nextDirection (state w);
                       score := if eats r newHead
                                then score (state w)
                                     + POINTS_PER_FOOD * (1 + (combo r + 1) / 5)
                                else score (state w);
                       highScore := highScore (state w);
                       lives := lives (state w);
                       status := status (state w);
                       gameOverReason := gameOverReason (state w);
                       combo := if eats r newHead then combo (state w) + 1
                                else combo (state w);
                       comboExpiresAt :=
                         if eats r newHead
                         then clockSeq w (clockPos w) + COMBO_TIMEOUT_MS
                         else comboExpiresAt (state w) |};
                  savedComboTimeRef := savedComboTimeRef w;
                  localStorage := localStorage w;
                  randomSeq := randomSeq w;
                  randomPos := if eats r newHead then (randomPos w + 2 * S k)%nat
                               else randomPos w;
                  clockSeq := clockSeq w;
                  clockPos :=
                    match powerUpAt (powerUps r) newHead with
                    | Some _ => S (if eats r newHead then S (clockPos w) else clockPos w)
                    | None => if eats r newHead then S (clockPos w) else clockPos w
                    end;
                  calls :=
                    match powerUpAt (powerUps r) newHead with
                    | Some _ => [PlayPowerUp]
                    | None => []
                    end ++ (if eats r newHead then [PlayEat] else []) ++ calls w |}.
Proof.
  intros Hself H. unfold moveSnake_afterWall in H. rewrite Hself in H.
  unfold eats, powerUpAt. exec.
  destruct ((x newHead =? x (food r)) && (y newHead =? y (food r))) eqn:Ee; exec.
  - food_drawn.
    match goal with Hf : isOccupied _ _ _ _ = false |- _ => revert Hf end.
    match goal with |- context [drawAt ?w0 ?k] =>
      replace (drawAt w0 k) with (drawAt w k) by reflexivity; intros Hf end.
    destruct (findIndex _ (powerUps r)) as [i|]; exec;
      [destruct (nth_error (powerUps r) i) as [powerUp|]; exec|];
      finished; (split; [reflexivity|]); eexists; (split; [intros _; exact Hf|]);
      cbn [app]; reflexivity.
  - destruct (findIndex _ (powerUps r)) as [i|]; exec;
      [destruct (nth_error (powerUps r) i) as [powerUp|]; exec|];
      finished; (split; [reflexivity|]); exists 0%nat;
      (split; [intros F; discriminate F|]); cbn [app]; reflexivity.
Qed.

Lemma moveSnake_afterWall_returns s fuel r prevSnake newHead w :
  (eats r newHead = true ->
   exists k, (k < fuel)%nat
     /\ isOccupied (x (drawAt w k)) (y (drawAt w k)) (newHead :: prevSnake) (powerUps r)
        = false) ->
  (negb (isGhost (activePowerUp r))
   && existsb (fun seg => (x seg =? x newHead) && (y seg =? y newHead)) prevSnake)
  = false ->
  exists late w', moveSnake_afterWall s fuel r prevSnake newHead w = Some (late, w').
Proof.
  intros Hsrc Hself. unfold moveSnake_afterWall. rewrite Hself.
  unfold eats in Hsrc. exec.
  destruct ((x newHead =? x (food r)) && (y newHead =? y (food r))) eqn:Ee; exec.
  - destruct Hsrc as (k0 & Hk0 & Hfree); [reflexivity|].
    match goal with |- context [generateFood fuel ?sn ?p ?w0] =>
      destruct (generateFood_returns fuel sn p w0 k0 Hk0 Hfree) as (c & w1 & E);
      rewrite E end.
    exec.
    destruct (findIndex _ (powerUps r)) as [i|]; exec;
      [destruct (nth_error (powerUps r) i); exec|]; eauto.
  - destruct (findIndex _ (powerUps r)) as [i|]; exec;
      [destruct (nth_error (powerUps r) i); exec|]; eauto.
Qed.

(** The updater of the snake returns whenever the food of a move that
    eats can be placed. *)
Lemma moveSnake_updater_returns s fuel r prevSnake w :
  match outcome r prevSnake with
  | Moved newHead =>
      eats r newHead = true ->
      exists k, (k < fuel)%nat
        /\ isOccupied (x (drawAt w k)) (y (drawAt w k)) (newHead :: prevSnake) (powerUps r)
           = false
  | _ => True
  end ->
  exists late w', moveSnake_updater s fuel r prevSnake w = Some (late, w').
Proof.
  destruct (outcome r prevSnake) as [|reason|newHead] eqn:Eo; intros Hsrc.
  - unfold outcome in Eo. destruct prevSnake as [|head tl].
    + unfold moveSnake_updater. exec. eauto.
    + exfalso. destruct (outOfGrid _ && negb _); [discriminate|].
      destruct (negb _ && existsb _ _); discriminate.
  - rewrite (moveSnake_updater_lost s fuel r prevSnake reason w Eo).
    cbn [bind setDirection modify]. rewrite moveSnake_lost_effect. eauto.
  - destruct (moveSnake_updater_moved s fuel r prevSnake newHead w Eo) as (Hself & E).
    rewrite E. cbn [bind setDirection modify].
    apply moveSnake_afterWall_returns; [exact Hsrc | exact Hself].
Qed.

(** *** The tick, stage by stage *)

Lemma moveSnake_idle s fuel w :
  status (state w) <> PLAYING -> moveSnake s fuel (state w) w = Some (tt, w).
Proof.
  intros H. unfold moveSnake. destruct (status (state w)); try reflexivity.
  contradiction.
Qed.

Lemma moveSnake_playing s fuel w :
  status (state w) = PLAYING ->
  moveSnake s fuel (state w) w = moveSnake_afterSweeps s fuel (state w) (swept w).
Proof.
  intros Hst. unfold moveSnake, swept.
  destruct w as [g sv ls rs rp cs cp cl].
  destruct g as [sn fd pus ap dir nd sc hs lv st gr co ce]. exec. subst st.
  cbn [GameStatus_eqb negb]. exec.
  destruct ap as [a|]; exec;
    [destruct (cs cp >? expiresAt a); exec|];
    destruct ((co >? 0) && (cs cp >? ce)); exec; reflexivity.
Qed.

Lemma consumed_1 w :
  consumed 1 w
  = {| state := state w; savedComboTimeRef := savedComboTimeRef w;
       localStorage := localStorage w; randomSeq := randomSeq w;
       randomPos := S (randomPos w); clockSeq := clockSeq w;
       clockPos := clockPos w; calls := calls w |}.
Proof. unfold consumed. rewrite Nat.add_1_r. reflexivity. Qed.

(** A tick of a game in play, cut between the updater of the snake and
    the rest of the render. *)
Lemma moveSnake_stages s fuel w w' :
  status (state w) = PLAYING ->
  moveSnake s fuel (state w) w = Some (tt, w') ->
  exists late w1 u,
    moveSnake_updater s fuel (state w) (snake (state w)) (updaterStart s w)
    = Some (late, w1)
    /\ moveSnake_queued s fuel (state w) u late
         (match s with Eager => consumed 1 w1 | Deferred => w1 end) = Some (tt, w').
Proof.
  intros Hst H. rewrite (moveSnake_playing s fuel w Hst) in H.
  unfold moveSnake_afterSweeps, updaterStart in *.
  destruct s; cbn [bind gets Math_random] in H.
  - change (snake (state (swept w))) with (snake (state w)) in H.
    destruct (moveSnake_updater Eager fuel (state w) (snake (state w)) (swept w))
      as [[late w1]|]; [|discriminate].
    exists late, w1, (randomSeq w1 (randomPos w1)).
    split; [reflexivity|]. rewrite consumed_1. exact H.
  - rewrite consumed_1. cbn [state] in H.
    change (snake (state (swept w))) with (snake (state w)) in H.
    destruct (moveSnake_updater Deferred fuel (state w) (snake (state w)) _)
      as [[late w1]|]; [|discriminate].
    exists late, w1, (randomSeq (swept w) (randomPos (swept w))).
    split; [reflexivity | exact H].
Qed.

(** A tick returns whenever the random source can place the food. *)
Lemma moveSnake_returns s fuel w :
  foodCanBePlaced s fuel w ->
  exists w', moveSnake s fuel (state w) w = Some (tt, w').
Proof.
  intros Hsrc.
  destruct (GameStatus_eqb (status (state w)) PLAYING) eqn:Est.
  2:{ exists w. apply moveSnake_idle. intros E. rewrite E in Est. discriminate. }
  assert (Hst : status (state w) = PLAYING)
    by (destruct (status (state w)); try discriminate; reflexivity).
  rewrite (moveSnake_playing s fuel w Hst).
  unfold foodCanBePlaced in Hsrc.
  assert (Hd : forall k, drawAt (swept w) k = drawAt w k) by reflexivity.
  assert (Hd1 : forall k, drawAt (consumed 1 (swept w)) k = drawAt (consumed 1 w) k)
    by reflexivity.
  assert (U : exists late w1,
             moveSnake_updater s fuel (state w) (snake (state w)) (updaterStart s w)
             = Some (late, w1)).
  { apply moveSnake_updater_returns.
    destruct (outcome (state w) (snake (state w))); auto.
    intros He. destruct (Hsrc He) as (k & Hk & Hfree). exists k.
    split; [exact Hk|]. destruct s; exact Hfree. }
  destruct U as (late & w1 & U).
  assert (Q : forall u, exists w',
             moveSnake_queued s fuel (state w) u late
               (match s with Eager => consumed 1 w1 | Deferred => w1 end)
             = Some (tt, w')).
  { intros u. apply moveSnake_queued_returns. intros Hl Hu.
    destruct (outcome (state w) (snake (state w))) as [|reason|newHead] eqn:Eo.
    - exfalso. unfold outcome in Eo.
      destruct (snake (state w)) as [|head tl].
      + unfold moveSnake_updater in U. exec. inversion U; subst. discriminate Hl.
      + destruct (outOfGrid _ && negb _); [discriminate|].
        destruct (negb _ && existsb _ _); discriminate.
    - rewrite (moveSnake_updater_lost s fuel _ _ reason _ Eo) in U.
      cbn [bind setDirection modify] in U. rewrite moveSnake_lost_effect in U.
      inversion U; subst late w1; clear U. cbn [lateFood] in Hl.
      destruct (Hsrc) as (k & Hk & Hfree).
      + apply Z.gtb_lt in Hl. lia.
      + destruct s; exact Hu.
      + exists k. split; [exact Hk|]. rewrite <- Hfree.
        f_equal. destruct s; apply drawAt_ext; unfold updaterStart; exec;
          rewrite ?Nat.add_1_r; reflexivity.
    - exfalso.
      destruct (moveSnake_updater_moved s fuel _ _ newHead (updaterStart s w) Eo)
        as (Hself & E).
      rewrite E in U. cbn [bind setDirection modify] in U.
      apply moveSnake_afterWall_effect in U; [|exact Hself].
      destruct U as (Hlate & _). rewrite Hlate in Hl. discriminate Hl. }
  unfold moveSnake_afterSweeps, updaterStart in *.
  destruct s; cbn [bind gets Math_random].
  - change (snake (state (swept w))) with (snake (state w)).
    rewrite U. rewrite <- consumed_1. apply Q.
  - rewrite <- consumed_1.
    change (snake (state (consumed 1 (swept w)))) with (snake (state w)).
    rewrite U. apply Q.
Qed.

Lemma outcome_stalled r prevSnake : outcome r prevSnake = Stalled -> prevSnake = [].
Proof.
  unfold outcome. destruct prevSnake as [|head tl]; [reflexivity|].
  destruct (outOfGrid _ && negb _); [discriminate|].
  destruct (negb _ && existsb _ _); discriminate.
Qed.

(** Cuts a tick that has returned after the updater of the snake, for
    each of the three outcomes, and lists what the render keeps. *)
Ltac tick_stalled Hst Ho H :=
  let late := fresh "late" in let w1 := fresh "w1" in let u := fresh "u" in
  let U := fresh "U" in let Q := fresh "Q" in
  destruct (moveSnake_stages _ _ _ _ Hst H) as (late & w1 & u & U & Q);
  rewrite (outcome_stalled _ _ Ho) in U;
  unfold moveSnake_updater in U; cbn [bind setDirection setSnake modify ret] in U;
  inversion U; subst late w1; clear U;
  apply moveSnake_queued_effect in Q.

Ltac tick_lost Hst Ho H :=
  let late := fresh "late" in let w1 := fresh "w1" in let u := fresh "u" in
  let U := fresh "U" in let Q := fresh "Q" in
  destruct (moveSnake_stages _ _ _ _ Hst H) as (late & w1 & u & U & Q);
  rewrite (moveSnake_updater_lost _ _ _ _ _ _ Ho) in U;
  cbn [bind setDirection modify] in U; rewrite moveSnake_lost_effect in U;
  inversion U; subst late w1; clear U;
  apply moveSnake_queued_effect in Q.

Ltac tick_moved Hst Ho H :=
  let late := fresh "late" in let w1 := fresh "w1" in let u := fresh "u" in
  let U := fresh "U" in let Q := fresh "Q" in
  let Hself := fresh "Hself" in let E := fresh "E" in
  let k := fresh "k" in let Hfree := fresh "Hfree" in let Hlate := fresh "Hlate" in
  destruct (moveSnake_stages _ _ _ _ Hst H) as (late & w1 & u & U & Q);
  match type of U with
  | moveSnake_updater ?s ?fuel ?r ?prev ?w0 = _ =>
      destruct (moveSnake_updater_moved s fuel r prev _ w0 Ho) as (Hself & E);
      rewrite E in U; clear E
  end;
  cbn [bind setDirection modify] in U;
  apply moveSnake_afterWall_effect in U; [|exact Hself];
  destruct U as (Hlate & k & Hfree & U); subst late w1;
  apply moveSnake_queued_effect in Q.

(** A tick of a game in play that has nothing to move. *)
Lemma moveSnake_when_stalled s fuel w w' :
  status (state w) = PLAYING ->
  outcome (state w) (snake (state w)) = Stalled ->
  moveSnake s fuel (state w) w = Some (tt, w') ->
  snake (state w') = [] /\ calls w' = calls w
  /\ score (state w') = score (state w) /\ highScore (state w') = highScore (state w)
  /\ lives (state w') = lives (state w) /\ status (state w') = PLAYING
  /\ gameOverReason (state w') = gameOverReason (state w)
  /\ localStorage w' = localStorage w
  /\ combo (state w') = combo (state (swept w))
  /\ direction (state w') = nextDirection (state w)
  /\ nextDirection (state w') = nextDirection (state w)
  /\ randomSeq w' = randomSeq w
  /\ food (state w') = food (state w).
Proof.
  intros Hst Ho H. tick_stalled Hst Ho H. destruct Q as (R & F & _).
  apply beyondRender_fields in R. cbn [lateFood] in F.
  destruct s; cbn [updaterStart] in *; exec;
    destruct R as (R1 & R2 & R3 & R4 & R5 & R6 & R7 & R8 & R9 & R10 & R11 & R12
                   & R13 & R14 & R15 & R16 & R17);
    rewrite R1, R3, R4, R5, R6, R7, R8, R9, R10, R13, R15, R16, F;
    change (status (state (swept w))) with (status (state w)); rewrite Hst;
    repeat split; reflexivity.
Qed.

(** A tick of a game in play that loses a life, field by field. *)
Lemma moveSnake_when_lost s fuel w w' reason :
  status (state w) = PLAYING ->
  outcome (state w) (snake (state w)) = Lost reason ->
  moveSnake s fuel (state w) w = Some (tt, w') ->
  (snake (state w')
   = match s with
     | Eager => snake (state w)
     | Deferred => if lives (state w) >? 1 then INITIAL_SNAKE else snake (state w)
     end
   /\ lives (state w') = (if lives (state w) >? 1 then lives (state w) - 1 else 0)
   /\ status (state w') = (if lives (state w) >? 1 then PLAYING else GAME_OVER)
   /\ gameOverReason (state w')
      = (if lives (state w) >? 1 then gameOverReason (state w) else Some reason)
   /\ score (state w') = score (state w)
   /\ highScore (state w') = highScore (state w)
   /\ localStorage w'
      = (if lives (state w) >? 1 then localStorage w
         else if score (state w) >? highScore (state w) then Some (score (state w))
              else localStorage w)
   /\ calls w'
      = (if lives (state w) >? 1 then [PlayDamage]
         else [GenerateGameOverMessage (score (state w)) reason; StartGameOverBGM])
        ++ EnterLifeLost reason :: calls w)
  /\ (combo (state w') = (if lives (state w) >? 1 then 0 else combo (state (swept w)))
      /\ comboExpiresAt (state w') = comboExpiresAt (state w)
      /\ activePowerUp (state w')
         = (if lives (state w) >? 1 then None else activePowerUp (state (swept w)))
      /\ direction (state w')
         = (if lives (state w) >? 1 then INITIAL_DIRECTION else nextDirection (state w))
      /\ nextDirection (state w')
         = (if lives (state w) >? 1 then INITIAL_DIRECTION else nextDirection (state w))
      /\ savedComboTimeRef w' = savedComboTimeRef w
      /\ clockPos w' = S (clockPos w)
      /\ randomSeq w' = randomSeq w /\ clockSeq w' = clockSeq w)
  /\ (if lives (state w) >? 1
      then isUnderSpawn (food (state w')) = false
           /\ (isUnderSpawn (food (state w)) = false -> food (state w') = food (state w))
           /\ (unitInterval (randomSeq w) -> inGrid (food (state w)) = true ->
               inGrid (food (state w')) = true)
      else food (state w') = food (state w))
  /\ exists spawned,
       (List.length spawned <= 1)%nat
       /\ powerUps (state w') = powerUps (state w) ++ spawned
       /\ (spawned <> [] -> powerUps (state w) = []).
Proof.
  intros Hst Ho H. tick_lost Hst Ho H. destruct Q as (R & F & B).
  apply beyondRender_fields in R. cbn [lateFood lateBoard] in F, B.
  destruct s; cbn [updaterStart] in *; exec;
    destruct R as (R1 & R2 & R3 & R4 & R5 & R6 & R7 & R8 & R9 & R10 & R11 & R12
                   & R13 & R14 & R15 & R16 & R17);
    rewrite R1, R2, R3, R4, R5, R6, R7, R8, R9, R10, R11, R12, R13, R14, R15, R16,
      R17;
    change (status (state (swept w))) with (status (state w)); rewrite Hst;
    (split; [repeat split; reflexivity|]);
    (split; [repeat split; reflexivity|]);
    (split; [exact F | exact B]).
Qed.

(** A tick of a game in play that moves the snake, field by field. *)
Lemma moveSnake_when_moved s fuel w w' newHead :
  status (state w) = PLAYING ->
  outcome (state w) (snake (state w)) = Moved newHead ->
  moveSnake s fuel (state w) w = Some (tt, w') ->
  (snake (state w')
   = (if eats (state w) newHead then newHead :: snake (state w)
      else removelast (newHead :: snake (state w)))
   /\ score (state w')
      = (if eats (state w) newHead
         then score (state w) + POINTS_PER_FOOD * (1 + (combo (state w) + 1) / 5)
         else score (state w))
   /\ combo (state w')
      = (if eats (state w) newHead then combo (state (swept w)) + 1
         else combo (state (swept w)))
   /\ lives (state w') = lives (state w)
   /\ status (state w') = PLAYING
   /\ gameOverReason (state w') = gameOverReason (state w)
   /\ highScore (state w') = highScore (state w)
   /\ localStorage w' = localStorage w
   /\ calls w'
      = match powerUpAt (powerUps (state w)) newHead with
        | Some _ => [PlayPowerUp]
        | None => []
        end ++ (if eats (state w) newHead then [PlayEat] else []) ++ calls w)
  /\ (comboExpiresAt (state w')
      = (if eats (state w) newHead
         then clockSeq w (S (clockPos w)) + COMBO_TIMEOUT_MS
         else comboExpiresAt (state w))
      /\ activePowerUp (state w')
         = match powerUpAt (powerUps (state w)) newHead with
           | Some (_, p) =>
               Some {| ap_type := pu_type p;
                       expiresAt :=
                         clockSeq w (if eats (state w) newHead
                                     then S (S (clockPos w)) else S (clockPos w))
                         + POWERUP_DURATION |}
           | None => activePowerUp (state (swept w))
           end
      /\ direction (state w') = nextDirection (state w)
      /\ nextDirection (state w') = nextDirection (state w)
      /\ savedComboTimeRef w' = savedComboTimeRef w
      /\ randomSeq w' = randomSeq w /\ clockSeq w' = clockSeq w)
  /\ (if eats (state w) newHead
      then exists k,
             food (state w')
             = drawAt (match s with Eager => w | Deferred => consumed 1 w end) k
             /\ isOccupied (x (food (state w'))) (y (food (state w')))
                  (newHead :: snake (state w)) (powerUps (state w)) = false
      else food (state w') = food (state w))
  /\ exists spawned,
       (List.length spawned <= 1)%nat
       /\ match powerUpAt (powerUps (state w)) newHead, s with
          | Some (i, _), Eager =>
              powerUps (state w') = splice1 i (powerUps (state w)) ++ spawned
              /\ (spawned <> [] -> splice1 i (powerUps (state w)) = [])
          | Some (i, _), Deferred =>
              powerUps (state w') = splice1 i (powerUps (state w))
          | None, _ =>
              powerUps (state w') = powerUps (state w) ++ spawned
              /\ (spawned <> [] -> powerUps (state w) = [])
          end.
Proof.
  intros Hst Ho H. tick_moved Hst Ho H. destruct Q as (R & F & B).
  apply beyondRender_fields in R. cbn [lateFood lateBoard] in F, B.
  assert (Hd : forall j,
             drawAt (match s with Eager => swept w | Deferred => consumed 1 (swept w) end) j
             = drawAt (match s with Eager => w | Deferred => consumed 1 w end) j)
    by (intros j; destruct s; reflexivity).
  destruct R as (R1 & R2 & R3 & R4 & R5 & R6 & R7 & R8 & R9 & R10 & R11 & R12
                 & R13 & R14 & R15 & R16 & R17).
  rewrite R1, R2, R3, R4, R5, R6, R7, R8, R9, R10, R11, R12, R13, R15, R16, R17, F.
  clear R1 R2 R3 R4 R5 R6 R7 R8 R9 R10 R11 R12 R13 R14 R15 R16 R17 F.
  split.
  { destruct s; cbn [updaterStart]; exec;
      change (status (state (swept w))) with (status (state w)); rewrite Hst;
      repeat split; reflexivity. }
  split.
  { destruct s; cbn [updaterStart]; exec; repeat split; reflexivity. }
  split.
  { clear B. destruct (eats (state w) newHead); [|destruct s; reflexivity].
    exists k. specialize (Hfree eq_refl).
    destruct s; cbn [updaterStart] in *; exec; split; (reflexivity || exact Hfree). }
  destruct B as (spawned & L & B). exists spawned. split; [exact L|].
  destruct (powerUpAt (powerUps (state w)) newHead) as [[i pu]|];
    destruct s; cbn [updaterStart] in B; exec; exact B.
Qed.

(** A tick of a game in play, by outcome: what it leaves in the world. *)
Lemma moveSnake_outcome s fuel w w' :
  status (state w) = PLAYING ->
  moveSnake s fuel (state w) w = Some (tt, w') ->
  (highScore (state w') = highScore (state w)
   /\ (score (state w) <= highScore (state w) -> localStorage w' = localStorage w))
  /\
  match outcome (state w) (snake (state w)) with
  | Stalled =>
      snake (state w') = [] /\ calls w' = calls w
      /\ score (state w') = score (state w)
      /\ lives (state w') = lives (state w) /\ status (state w') = PLAYING
      /\ gameOverReason (state w') = gameOverReason (state w)
  | Lost reason =>
      (forall p, p PlayDamage = false -> p StartGameOverBGM = false ->
                 (forall sc, p (GenerateGameOverMessage sc reason) = false) ->
         invocations p (calls w')
         = ((if p (EnterLifeLost reason) then 1 else 0) + invocations p (calls w))%nat)
      /\ snake (state w')
         = match s with
           | Eager => snake (state w)
           | Deferred =>
               if lives (state w) >? 1 then INITIAL_SNAKE else snake (state w)
           end
      /\ lives (state w') = (if lives (state w) >? 1 then lives (state w) - 1 else 0)
      /\ status (state w') = (if lives (state w) >? 1 then PLAYING else GAME_OVER)
      /\ gameOverReason (state w')
         = (if lives (state w) >? 1 then gameOverReason (state w) else Some reason)
      /\ score (state w') = score (state w)
  | Moved newHead =>
      snake (state w')
      = (if eats (state w) newHead then newHead :: snake (state w)
         else removelast (newHead :: snake (state w)))
      /\ score (state w')
         = score (state w)
           + (if eats (state w) newHead
              then POINTS_PER_FOOD * (1 + (combo (state w) + 1) / 5) else 0)
      /\ combo (state w')
         = (if (combo (state w) >? 0)
               && (clockSeq w (clockPos w) >? comboExpiresAt (state w))
            then 0 else combo (state w))
           + (if eats (state w) newHead then 1 else 0)
      /\ lives (state w') = lives (state w)
      /\ status (state w') = PLAYING
      /\ gameOverReason (state w') = gameOverReason (state w)
      /\ (forall p, p PlayEat = false -> p PlayPowerUp = false ->
            invocations p (calls w') = invocations p (calls w))
  end.
Proof.
  intros Hst H.
  destruct (outcome (state w) (snake (state w))) as [|reason|newHead] eqn:Ho.
  - destruct (moveSnake_when_stalled s fuel w w' Hst Ho H)
      as (A1 & A2 & A3 & A4 & A5 & A6 & A7 & A8 & _).
    rewrite A1, A2, A3, A4, A5, A6, A7, A8. repeat split; reflexivity.
  - destruct (moveSnake_when_lost s fuel w w' reason Hst Ho H)
      as ((A1 & A2 & A3 & A4 & A5 & A6 & A7 & A8) & _).
    rewrite A1, A2, A3, A4, A5, A6, A7, A8.
    split.
    { split; [reflexivity|]. intros Hle.
      destruct (lives (state w) >? 1); [reflexivity|].
      destruct (score (state w) >? highScore (state w)) eqn:Eh; [lia | reflexivity]. }
    split.
    { intros p P1 P2 P3. destruct (lives (state w) >? 1); cbn [app];
        rewrite !invocations_cons, ?P1, ?P2, ?P3; reflexivity. }
    repeat split; reflexivity.
  - destruct (moveSnake_when_moved s fuel w w' newHead Hst Ho H)
      as ((A1 & A2 & A3 & A4 & A5 & A6 & A7 & A8 & A9) & _).
    rewrite A1, A2, A3, A4, A5, A6, A7, A8, A9.
    split; [split; [reflexivity | intros _; reflexivity]|].
    destruct (eats (state w) newHead); rewrite ?Z.add_0_r;
      (repeat split; try reflexivity);
      intros p P1 P2;
      destruct (powerUpAt (powerUps (state w)) newHead) as [[i pu]|]; cbn [app];
      rewrite ?invocations_cons, ?P1, ?P2; reflexivity.
Qed.

(** ** Score, walls, length and ghosts *)

Lemma hd_error_removelast {A} (a b : A) l :
  hd_error (removelast (a :: b :: l)) = Some a.
Proof. reflexivity. Qed.

Lemma length_removelast_cons {A} (a : A) l :
  List.length (removelast (a :: l)) = List.length l.
Proof.
  revert a. induction l as [|b l IH]; intros a; [reflexivity|].
  change (removelast (a :: b :: l)) with (a :: removelast (b :: l)).
  cbn [List.length]. rewrite IH. reflexivity.
Qed.

Lemma eats_true r c : eats r c = true -> c = food r.
Proof.
  unfold eats. rewrite andb_true_iff, !Z.eqb_eq. intros [Hx Hy].
  destruct c as [cx cy], (food r) as [fx fy]. cbn [x y] in *. congruence.
Qed.

Lemma eats_false r c : eats r c = false -> c <> food r.
Proof.
  unfold eats. intros H Hc. subst c. rewrite !Z.eqb_refl in H. discriminate.
Qed.

Lemma outcome_moved_nonempty r prevSnake newHead :
  outcome r prevSnake = Moved newHead -> exists head tl, prevSnake = head :: tl.
Proof.
  unfold outcome. destruct prevSnake as [|head tl]; [discriminate|]. eauto.
Qed.

(** When the head reaches the food and no life is lost, the score grows
    by [POINTS_PER_FOOD * (1 + floor((combo + 1) / 5))] for the combo of
    the render, while the combo becomes one more than the swept combo. *)
Lemma moveSnake_score_on_food s fuel w w' :
  status (state w) = PLAYING ->
  moveSnake s fuel (state w) w = Some (tt, w') ->
  invocations isLifeLost (calls w') = invocations isLifeLost (calls w) ->
  hd_error (snake (state w')) = Some (food (state w)) ->
  score (state w') - score (state w)
  = POINTS_PER_FOOD * (1 + (combo (state w) + 1) / 5)
  /\ combo (state w')
     = (if (combo (state w) >? 0)
           && (clockSeq w (clockPos w) >? comboExpiresAt (state w))
        then 0 else combo (state w)) + 1.
Proof.
  intros Hst H Hlife Hhead.
  destruct (moveSnake_outcome s fuel w w' Hst H) as (_ & O).
  destruct (outcome (state w) (snake (state w))) as [|reason|newHead] eqn:Eo.
  - destruct O as (Hs & _). rewrite Hs in Hhead. discriminate.
  - destruct O as (T & _).
    rewrite (T isLifeLost) in Hlife by reflexivity. cbn in Hlife. lia.
  - destruct O as (Hs & Hsc & Hco & _).
    destruct (outcome_moved_nonempty _ _ _ Eo) as (head & tl & Hprev).
    destruct (eats (state w) newHead) eqn:Ee.
    + split; lia.
    + exfalso. rewrite Hs, Hprev, hd_error_removelast in Hhead.
      apply eats_false in Ee. congruence.
Qed.

(** C1 holds on every tick whose top-of-tick sweep leaves the combo alone. *)
Lemma moveSnake_score_without_expiry s fuel w w' :
  status (state w) = PLAYING ->
  moveSnake s fuel (state w) w = Some (tt, w') ->
  invocations isLifeLost (calls w') = invocations isLifeLost (calls w) ->
  hd_error (snake (state w')) = Some (food (state w)) ->
  (combo (state w) >? 0) && (clockSeq w (clockPos w) >? comboExpiresAt (state w))
  = false ->
  score (state w') - score (state w) = 10 * (1 + combo (state w') / 5).
Proof.
  intros Hst H Hlife Hhead Hexp.
  destruct (moveSnake_score_on_food s fuel w w' Hst H Hlife Hhead) as (Hsc & Hco).
  rewrite Hexp in Hco. rewrite Hsc, Hco. reflexivity.
Qed.

(** C1, evaluated where the code departs from it.  The snake heads UP
    from (10, 10) onto the food at (10, 9) with a combo of 4 that ran out
    at 5950; the tick reads the clock at 6000.  The combo after the sweep
    and the increment is 1, for which C1 gives 10 points; the score goes
    up by 20, the points for a combo of 5.  This is so whether React runs
    the updater of the snake eagerly or at the render. *)
Theorem C1_expired_combo_still_multiplies :
  forall s,
  moveSnake s 1 (foodAhead 4 5950)
    (worldOf (foodAhead 4 5950) (constSeq (1 # 4)) (tickingClock 6000))
  = Some (tt, after (moveSnake s 1 (foodAhead 4 5950))
                (worldOf (foodAhead 4 5950) (constSeq (1 # 4)) (tickingClock 6000)))
  /\ hd_error (snake (state (after (moveSnake s 1 (foodAhead 4 5950))
         (worldOf (foodAhead 4 5950) (constSeq (1 # 4)) (tickingClock 6000)))))
     = Some (food (foodAhead 4 5950))
  /\ invocations isLifeLost (calls (after (moveSnake s 1 (foodAhead 4 5950))
         (worldOf (foodAhead 4 5950) (constSeq (1 # 4)) (tickingClock 6000))))
     = 0%nat
  /\ combo (state (after (moveSnake s 1 (foodAhead 4 5950))
         (worldOf (foodAhead 4 5950) (constSeq (1 # 4)) (tickingClock 6000))))
     = 1
  /\ 10 * (1 + 1 / 5) = 10
  /\ score (state (after (moveSnake s 1 (foodAhead 4 5950))
         (worldOf (foodAhead 4 5950) (constSeq (1 # 4)) (tickingClock 6000))))
     - score (foodAhead 4 5950)
     = 20.
Proof.
  intros s.
  destruct s;
    (split; [vm_compute; reflexivity|]);
    (split; [vm_compute; reflexivity|]);
    (split; [vm_compute; reflexivity|]);
    (split; [vm_compute; reflexivity|]);
    (split; vm_compute; reflexivity).
Qed.

Lemma wrapAround_mod d head :
  inGrid head = true ->
  outOfGrid (stepHead d head) = true ->
  wrapAround (stepHead d head)
  = {| x := x (stepHead d head) mod GRID_SIZE; y := y (stepHead d head) mod GRID_SIZE |}.
Proof.
  destruct head as [hx hy]. unfold inGrid, outOfGrid, wrapAround, GRID_SIZE.
  cbn [x y]. rewrite !andb_true_iff, !orb_true_iff, !Z.leb_le, !Z.ltb_lt, !Z.geb_le.
  intros Hin Hout.
  destruct d; cbn [stepHead x y] in *;
    repeat match goal with
           | |- context [if ?c then _ else _] =>
               lazymatch c with
               | context [if _ then _ else _] => fail
               | _ => destruct c eqn:?; cbn [x y] in *
               end
           end;
    f_equal; Z.div_mod_to_equations; lia.
Qed.

(** A tick of a game in play whose head, a cell of the board, steps off
    the board, by the active slot that the render of the tick has in
    hand, which is the slot before the expiry sweep of this tick.  The
    tick returns whenever the random source can place the food.  With
    GHOST in that slot the new head is the stepped cell with both
    coordinates taken modulo GRID_SIZE, no life is lost and play goes
    on.  Without it [handleLifeLost] is entered once, for WALL, and no
    head is wrapped: the snake is the one of before the tick, or the
    initial one if a life was to spare and the updater ran at the
    render. *)
Lemma moveSnake_wall_by_render_slot s fuel w head tl :
  status (state w) = PLAYING ->
  snake (state w) = head :: tl ->
  inGrid head = true ->
  outOfGrid (stepHead (nextDirection (state w)) head) = true ->
  (foodCanBePlaced s fuel w ->
   exists w', moveSnake s fuel (state w) w = Some (tt, w'))
  /\ (forall w',
        moveSnake s fuel (state w) w = Some (tt, w') ->
        (isGhost (activePowerUp (state w)) = true ->
         hd_error (snake (state w'))
         = Some {| x := x (stepHead (nextDirection (state w)) head) mod GRID_SIZE;
                   y := y (stepHead (nextDirection (state w)) head) mod GRID_SIZE |}
         /\ invocations isLifeLost (calls w') = invocations isLifeLost (calls w)
         /\ lives (state w') = lives (state w)
         /\ status (state w') = PLAYING)
        /\ (isGhost (activePowerUp (state w)) = false ->
            invocations isWallLifeLost (calls w')
            = S (invocations isWallLifeLost (calls w))
            /\ invocations isLifeLost (calls w')
               = S (invocations isLifeLost (calls w))
            /\ snake (state w')
               = match s with
                 | Eager => snake (state w)
                 | Deferred =>
                     if lives (state w) >? 1 then INITIAL_SNAKE else snake (state w)
                 end
            /\ lives (state w')
               = (if lives (state w) >? 1 then lives (state w) - 1 else 0)
            /\ status (state w')
               = (if lives (state w) >? 1 then PLAYING else GAME_OVER)
            /\ gameOverReason (state w')
               = (if lives (state w) >? 1 then gameOverReason (state w)
                  else Some WALL))).
Proof.
  intros Hst Hsn Hin Hout.
  split; [apply moveSnake_returns|].
  intros w' H.
  destruct (moveSnake_outcome s fuel w w' Hst H) as (_ & O).
  rewrite Hsn in O. unfold outcome in O. rewrite Hout in O. cbn [andb] in O.
  split; intros Hg; rewrite Hg in O; cbn [negb andb] in O.
  - destruct O as (Hs & _ & _ & Hl & Hstat & _ & T).
    rewrite Hs, (T isLifeLost) by reflexivity.
    rewrite <- (wrapAround_mod _ _ Hin Hout).
    repeat split; auto.
    destruct (eats _ _); reflexivity.
  - destruct O as (T & Hs & Hl & Hstat & Hgo & _).
    rewrite (T isWallLifeLost), (T isLifeLost) by reflexivity.
    rewrite Hsn. repeat split; auto.
Qed.

(** C5, evaluated where the code departs from it.  A snake of three
    heads LEFT with its head on the left edge, (0, 5), two lives, and a
    GHOST in the active slot that ran out at 5000; the tick reads the
    clock at 6000.  The expiry sweep at the top of the tick empties the
    slot, so no GHOST is active when the head steps to (-1, 5), and C5
    has the tick lose a life to the wall.  The wall check reads the slot
    of the render: the head wraps to (19, 5), [handleLifeLost] is not
    called, and both lives are kept.  This is so whether React runs the
    updater of the snake eagerly or at the render. *)
Theorem C5_expired_ghost_still_wraps :
  forall s,
  moveSnake s 1 (state expiredGhostAtTheWall) expiredGhostAtTheWall
  = Some (tt, after (moveSnake s 1 (state expiredGhostAtTheWall))
                expiredGhostAtTheWall)
  /\ status (state expiredGhostAtTheWall) = PLAYING
  /\ hd_error (snake (state expiredGhostAtTheWall)) = Some {| x := 0; y := 5 |}
  /\ outOfGrid (stepHead (nextDirection (state expiredGhostAtTheWall))
                  {| x := 0; y := 5 |}) = true
  /\ activePowerUp (state (swept expiredGhostAtTheWall)) = None
  /\ activePowerUp (state (after (moveSnake s 1 (state expiredGhostAtTheWall))
                             expiredGhostAtTheWall)) = None
  /\ hd_error (snake (state (after (moveSnake s 1 (state expiredGhostAtTheWall))
                               expiredGhostAtTheWall)))
     = Some {| x := 19; y := 5 |}
  /\ invocations isLifeLost
       (calls (after (moveSnake s 1 (state expiredGhostAtTheWall))
                 expiredGhostAtTheWall)) = 0%nat
  /\ lives (state (after (moveSnake s 1 (state expiredGhostAtTheWall))
                     expiredGhostAtTheWall)) = 2
  /\ lives (state expiredGhostAtTheWall) = 2.
Proof.
  intros s.
  destruct s; repeat (split; [vm_compute; reflexivity|]); vm_compute; reflexivity.
Qed.

(** ** Runs of events *)

(** Executes a handler made of primitive operations to its end. *)
Ltac crunch :=
  repeat (exec;
          first [ finished
                | food_drawn
                | match goal with
                  | H : context [match ?c with _ => _ end] |- _ =>
                      lazymatch c with
                      | context [match _ with _ => _ end] => fail
                      | _ => destruct c eqn:?
                      end
                  end ]).

Ltac count_calls :=
  rewrite ?invocations_cons; cbn [isLifeLost isReset Nat.add]; try lia.

Lemma gentle_refl w : gentle w w.
Proof. unfold gentle. repeat split; auto. Qed.

Lemma outOfGrid_false c : outOfGrid c = false -> inGrid c = true.
Proof.
  unfold outOfGrid, inGrid, GRID_SIZE.
  rewrite !orb_false_iff, !andb_true_iff, !Z.ltb_ge, !Z.leb_le, !Z.ltb_lt.
  intros H. assert (x c < 20 /\ y c < 20) by lia. lia.
Qed.

Lemma outcome_moved_inGrid r head tl newHead :
  outcome r (head :: tl) = Moved newHead ->
  inGrid head = true -> inGrid newHead = true.
Proof.
  unfold outcome. intros H Hin.
  destruct (outOfGrid (stepHead (nextDirection r) head)) eqn:Eo.
  - destruct (isGhost (activePowerUp r)); cbn [negb andb] in H; [|discriminate].
    inversion H; subst. rewrite (wrapAround_mod _ _ Hin Eo).
    unfold inGrid, GRID_SIZE. cbn [x y].
    pose proof (Z.mod_pos_bound (x (stepHead (nextDirection r) head)) 20 eq_refl).
    pose proof (Z.mod_pos_bound (y (stepHead (nextDirection r) head)) 20 eq_refl).
    rewrite !andb_true_iff, !Z.leb_le, !Z.ltb_lt. lia.
  - cbn [andb] in H.
    destruct (negb (isGhost (activePowerUp r)) && _); [discriminate|].
    inversion H; subst. apply outOfGrid_false. exact Eo.
Qed.

Lemma forallb_removelast {A} (p : A -> bool) l :
  forallb p l = true -> forallb p (removelast l) = true.
Proof.
  induction l as [|a l IH]; [auto|].
  destruct l as [|b l]; [reflexivity|].
  change (removelast (a :: b :: l)) with (a :: removelast (b :: l)).
  cbn [forallb] in *. rewrite !andb_true_iff in *. intuition.
Qed.

Lemma moveSnake_gentle s fuel w w1 :
  moveSnake s fuel (state w) w = Some (tt, w1) -> gentle w w1.
Proof.
  intros H.
  destruct (status (state w)) eqn:Hst;
    try (rewrite moveSnake_idle in H by (rewrite Hst; discriminate);
         inversion H; subst; apply gentle_refl).
  destruct (moveSnake_outcome s fuel w w1 Hst H) as ((Hh & Hls) & O).
  unfold gentle. split; [exact Hh|].
  destruct (outcome (state w) (snake (state w))) as [|reason|newHead] eqn:Eo.
  - destruct O as (Hs & Hc & _). rewrite Hc.
    unfold outcome in Eo.
    destruct (snake (state w)); [|cbn in Eo; repeat branch; discriminate].
    rewrite Hs. repeat split; auto.
  - destruct O as (T & Hs & _).
    rewrite (T isLifeLost), (T isReset) by reflexivity.
    cbn [isLifeLost isReset]. rewrite Hs.
    split; [destruct s, (lives (state w) >? 1); auto|].
    repeat split; auto; lia.
  - destruct O as (Hs & _ & _ & _ & _ & _ & T).
    rewrite (T isLifeLost), (T isReset) by reflexivity.
    destruct (outcome_moved_nonempty _ _ _ Eo) as (head & tl & Hprev).
    rewrite Hs. split.
    + intros Hin. rewrite Hprev in Hin, Eo.
      assert (Hnew : inGrid newHead = true).
      { apply (outcome_moved_inGrid _ _ _ _ Eo).
        cbn [forallb] in Hin. apply andb_true_iff in Hin. apply Hin. }
      assert (Hall : forallb inGrid (newHead :: snake (state w)) = true).
      { rewrite Hprev. cbn [forallb] in *. rewrite Hnew. exact Hin. }
      destruct (eats _ _); [exact Hall|].
      apply forallb_removelast. exact Hall.
    + repeat split; auto. intros _ _.
      destruct (eats _ _); [cbn [List.length]; lia|].
      rewrite length_removelast_cons. lia.
Qed.

Lemma updateDirection_gentle newDir w w1 :
  updateDirection newDir w = Some (tt, w1) -> gentle w w1.
Proof.
  intros H. unfold updateDirection in H. unfold gentle.
  crunch; repeat split; auto.
Qed.

Lemma handlePause_gentle r w w1 :
  handlePause r w = Some (tt, w1) -> gentle w w1.
Proof.
  intros H. unfold handlePause in H. unfold gentle.
  crunch; repeat split; auto; count_calls.
Qed.

Lemma handleResume_gentle w w1 :
  handleResume w = Some (tt, w1) -> gentle w w1.
Proof.
  intros H. unfold handleResume in H. unfold gentle.
  crunch; repeat split; auto; count_calls.
Qed.

Lemma handleExit_gentle w w1 :
  handleExit w = Some (tt, w1) -> gentle w w1.
Proof.
  intros H. unfold handleExit in H. unfold gentle.
  crunch; repeat split; auto; count_calls.
Qed.

Lemma resetGame_gentle fuel w w1 :
  resetGame fuel w = Some (tt, w1) -> gentle w w1.
Proof.
  intros H. unfold resetGame in H. unfold gentle.
  crunch; repeat split; auto; count_calls.
Qed.

Lemma gentleAt_ret w : gentleAt w (ret tt).
Proof. intros w1 H. inversion H. apply gentle_refl. Qed.

Lemma gentleAt_if w (b : bool) c1 c2 :
  gentleAt w c1 -> gentleAt w c2 -> gentleAt w (if b then c1 else c2).
Proof. destruct b; auto. Qed.

Lemma dispatch_gentleAt fuel e w : gentleAt w (dispatch fuel (state w) e).
Proof.
  assert (Hp : gentleAt w (handlePause (state w)))
    by (intros w1; apply handlePause_gentle).
  assert (Hr : gentleAt w handleResume) by (intros w1; apply handleResume_gentle).
  assert (Hn : gentleAt w (resetGame fuel)) by (intros w1; apply resetGame_gentle).
  assert (Hx : gentleAt w handleExit) by (intros w1; apply handleExit_gentle).
  assert (Hd : forall d, gentleAt w (updateDirection d))
    by (intros d w1; apply updateDirection_gentle).
  assert (Ht : forall s, gentleAt w (moveSnake s fuel (state w)))
    by (intros s w1; apply moveSnake_gentle).
  pose proof (gentleAt_ret w) as H0.
  destruct e; cbn [dispatch]; auto using gentleAt_if.
  unfold handleKeyDown. destruct (lookupKey key KEY_MAP); auto 8 using gentleAt_if.
Qed.

Lemma dispatch_gentle fuel e w w1 :
  dispatch fuel (state w) e w = Some (tt, w1) -> gentle w w1.
Proof. apply dispatch_gentleAt. Qed.

Lemma step_inv fuel e w w' :
  step fuel e w = Some (tt, w') ->
  exists w1,
    dispatch fuel (state w) e w = Some (tt, w1)
    /\ highScoreEffect (state w1) w1 = Some (tt, w').
Proof.
  unfold step. cbn [bind gets].
  destruct (dispatch fuel (state w) e w) as [[[] w1]|]; [|discriminate].
  intros H. exists w1. split; [reflexivity | exact H].
Qed.

Lemma highScoreEffect_effect w1 w' :
  highScoreEffect (state w1) w1 = Some (tt, w') ->
  snake (state w') = snake (state w1) /\ calls w' = calls w1
  /\ score (state w') = score (state w1)
  /\ highScore (state w') = Z.max (highScore (state w1)) (score (state w1))
  /\ (getHighScore w1 = highScore (state w1) ->
      getHighScore w' = highScore (state w')).
Proof.
  unfold highScoreEffect, getHighScore. intros H.
  destruct (score (state w1) >? highScore (state w1)) eqn:E; exec;
    inversion H; subst; exec; repeat split; auto; lia.
Qed.


(** One event only adds to the trace, and when it enters neither
    [handleLifeLost] nor [resetGame] the snake does not get shorter. *)
Lemma step_trace fuel e w w' :
  step fuel e w = Some (tt, w') ->
  (invocations isLifeLost (calls w) <= invocations isLifeLost (calls w'))%nat
  /\ (invocations isReset (calls w) <= invocations isReset (calls w'))%nat
  /\ (invocations isLifeLost (calls w') = invocations isLifeLost (calls w) ->
      invocations isReset (calls w') = invocations isReset (calls w) ->
      (List.length (snake (state w)) <= List.length (snake (state w')))%nat).
Proof.
  intros H. apply step_inv in H. destruct H as (w1 & D & E).
  apply dispatch_gentle in D. destruct D as (_ & _ & _ & Hl & Hr & Hlen).
  apply highScoreEffect_effect in E. destruct E as (Hs & Hc & _).
  rewrite Hs, Hc. auto.
Qed.

Lemma run_cons fuel e es w w' :
  run fuel (e :: es) w = Some (tt, w') ->
  exists w1, step fuel e w = Some (tt, w1) /\ run fuel es w1 = Some (tt, w').
Proof.
  cbn [run bind]. destruct (step fuel e w) as [[[] w1]|]; [|discriminate].
  intros H. exists w1. split; [reflexivity | exact H].
Qed.


Lemma run_trace fuel es :
  forall w w', run fuel es w = Some (tt, w') ->
    (invocations isLifeLost (calls w) <= invocations isLifeLost (calls w'))%nat
    /\ (invocations isReset (calls w) <= invocations isReset (calls w'))%nat
    /\ (invocations isLifeLost (calls w') = invocations isLifeLost (calls w) ->
        invocations isReset (calls w') = invocations isReset (calls w) ->
        (List.length (snake (state w)) <= List.length (snake (state w')))%nat).
Proof.
  induction es as [|e es IH]; intros w w' H.
  - inversion H; subst. auto.
  - apply run_cons in H. destruct H as (w1 & Hs & Hr).
    apply step_trace in Hs. destruct Hs as (A1 & A2 & A3).
    apply IH in Hr. destruct Hr as (B1 & B2 & B3).
    split; [lia|]. split; [lia|]. intros E1 E2.
    assert (L1 : (List.length (snake (state w)) <= List.length (snake (state w1)))%nat)
      by (apply A3; lia).
    assert (L2 : (List.length (snake (state w1)) <= List.length (snake (state w')))%nat)
      by (apply B3; lia).
    lia.
Qed.

Lemma mount_returns saved rnd clk :
  mount (freshWorld saved rnd clk) = Some (tt, after mount (freshWorld saved rnd clk))
  /\ inSync (after mount (freshWorld saved rnd clk)).
Proof.
  unfold after, inSync, getHighScore, mount, loadHighScore, highScoreEffect, freshWorld.
  destruct saved as [v|]; exec.
  - change (score initialGame) with 0. change (highScore initialGame) with 0.
    cbn [Z.gtb Z.compare]. exec.
    destruct (0 >? v) eqn:E; exec; repeat split; lia.
  - cbn. repeat split; lia.
Qed.

(** Over any run from the mounted component, every segment of the snake
    is a cell of the board. *)
Lemma run_keeps_snake_on_board fuel es :
  forall w w',
    forallb inGrid (snake (state w)) = true ->
    run fuel es w = Some (tt, w') ->
    forallb inGrid (snake (state w')) = true.
Proof.
  induction es as [|e es IH]; intros w w' Hin H.
  - inversion H; subst. exact Hin.
  - apply run_cons in H. destruct H as (w1 & Hs & Hr).
    apply (IH w1 w'); [|exact Hr].
    apply step_inv in Hs. destruct Hs as (w0 & D & E).
    apply dispatch_gentle in D. destruct D as (_ & Hgrid & _).
    apply highScoreEffect_effect in E. destruct E as (Hsn & _).
    rewrite Hsn. auto.
Qed.

Lemma mounted_snake_on_board saved rnd clk :
  forallb inGrid (snake (state (after mount (freshWorld saved rnd clk)))) = true.
Proof.
  unfold after, mount, loadHighScore, highScoreEffect, freshWorld.
  destruct saved as [v|]; exec; [|reflexivity].
  change (score initialGame) with 0. change (highScore initialGame) with 0.
  cbn [Z.gtb Z.compare]. exec.
  destruct (0 >? v); reflexivity.
Qed.

(** ** Ghost, length and high score *)

(** C9.  A tick that starts with GHOST in the active slot never enters
    [handleLifeLost], for SELF or otherwise: lives, status and game-over
    reason are what they were.  This holds whether React runs the
    updater of the snake eagerly or at the render. *)
Theorem C9_ghost_never_loses_to_self :
  forall s fuel w w',
    isGhost (activePowerUp (state w)) = true ->
    moveSnake s fuel (state w) w = Some (tt, w') ->
    invocations isSelfLifeLost (calls w') = invocations isSelfLifeLost (calls w)
    /\ invocations isLifeLost (calls w') = invocations isLifeLost (calls w)
    /\ lives (state w') = lives (state w)
    /\ status (state w') = status (state w)
    /\ gameOverReason (state w') = gameOverReason (state w).
Proof.
  intros s fuel w w' Hg H.
  destruct (status (state w)) eqn:Hst;
    try (rewrite moveSnake_idle in H by (rewrite Hst; discriminate);
         inversion H; subst; rewrite Hst; repeat split; reflexivity).
  destruct (moveSnake_outcome s fuel w w' Hst H) as (_ & O).
  unfold outcome in O.
  destruct (snake (state w)) as [|head tl];
    [|rewrite Hg in O; cbn [negb andb] in O; rewrite andb_false_r in O].
  - destruct O as (_ & Hc & _ & Hl & Hs & Hgo). rewrite Hc. repeat split; auto.
  - destruct O as (_ & _ & _ & Hl & Hs & Hgo & T).
    rewrite (T isSelfLifeLost), (T isLifeLost) by reflexivity.
    repeat split; auto.
Qed.

Lemma C9_ghost_never_loses_to_self_witness :
  moveSnake Deferred 1 (curled (Some {| ap_type := GHOST; expiresAt := 9000 |}))
    (worldOf (curled (Some {| ap_type := GHOST; expiresAt := 9000 |}))
       (constSeq (1 # 4)) (tickingClock 6000))
  = Some (tt, after (moveSnake Deferred 1 (curled (Some {| ap_type := GHOST; expiresAt := 9000 |})))
                (worldOf (curled (Some {| ap_type := GHOST; expiresAt := 9000 |}))
                   (constSeq (1 # 4)) (tickingClock 6000)))
  /\ invocations isSelfLifeLost
       (calls (after (moveSnake Deferred 1 (curled (Some {| ap_type := GHOST; expiresAt := 9000 |})))
                 (worldOf (curled (Some {| ap_type := GHOST; expiresAt := 9000 |}))
                    (constSeq (1 # 4)) (tickingClock 6000))))
     = 0%nat
  /\ lives (state (after (moveSnake Deferred 1 (curled (Some {| ap_type := GHOST; expiresAt := 9000 |})))
                    (worldOf (curled (Some {| ap_type := GHOST; expiresAt := 9000 |}))
                       (constSeq (1 # 4)) (tickingClock 6000))))
     = 3.
Proof.
  assert (E : moveSnake Deferred 1 (curled (Some {| ap_type := GHOST; expiresAt := 9000 |}))
    (worldOf (curled (Some {| ap_type := GHOST; expiresAt := 9000 |}))
       (constSeq (1 # 4)) (tickingClock 6000))
  = Some (tt, after (moveSnake Deferred 1 (curled (Some {| ap_type := GHOST; expiresAt := 9000 |})))
                (worldOf (curled (Some {| ap_type := GHOST; expiresAt := 9000 |}))
                   (constSeq (1 # 4)) (tickingClock 6000))))
    by (vm_compute; reflexivity).
  split; [exact E|].
  destruct (C9_ghost_never_loses_to_self Deferred 1
              (worldOf (curled (Some {| ap_type := GHOST; expiresAt := 9000 |}))
                 (constSeq (1 # 4)) (tickingClock 6000))
              (after
                 (moveSnake Deferred 1 (curled (Some {| ap_type := GHOST; expiresAt := 9000 |})))
                 (worldOf (curled (Some {| ap_type := GHOST; expiresAt := 9000 |}))
                    (constSeq (1 # 4)) (tickingClock 6000)))
              eq_refl E) as (Hs & _ & Hl & _).
  split; [exact Hs | exact Hl].
Defined.

(** C7.  A tick of a game in play that returns without entering
    [handleLifeLost] leaves the snake one longer when its new head is on
    the cell where the food was, and as long as before otherwise; and
    over any run of events that enters neither [handleLifeLost] nor
    [resetGame] the snake never gets shorter.  This holds whether React
    runs the updater of the snake eagerly or at the render, tick by
    tick. *)
Theorem C7_snake_length_within_a_life :
  (forall s fuel w w',
      status (state w) = PLAYING ->
      moveSnake s fuel (state w) w = Some (tt, w') ->
      invocations isLifeLost (calls w') = invocations isLifeLost (calls w) ->
      (hd_error (snake (state w')) = Some (food (state w)) ->
       List.length (snake (state w')) = S (List.length (snake (state w))))
      /\ (hd_error (snake (state w')) <> Some (food (state w)) ->
          List.length (snake (state w')) = List.length (snake (state w))))
  /\ (forall fuel es w w',
        run fuel es w = Some (tt, w') ->
        invocations isLifeLost (calls w') = invocations isLifeLost (calls w) ->
        invocations isReset (calls w') = invocations isReset (calls w) ->
        (List.length (snake (state w)) <= List.length (snake (state w')))%nat).
Proof.
  split.
  - intros s fuel w w' Hst H Hlife.
    destruct (moveSnake_outcome s fuel w w' Hst H) as (_ & O).
    destruct (outcome (state w) (snake (state w))) as [|reason|newHead] eqn:Eo.
    + destruct O as (Hs & _). rewrite Hs.
      unfold outcome in Eo.
      destruct (snake (state w)); [|cbn in Eo; repeat branch; discriminate].
      split; [discriminate | reflexivity].
    + destruct O as (T & _).
      rewrite (T isLifeLost) in Hlife by reflexivity. cbn in Hlife. lia.
    + destruct O as (Hs & _).
      destruct (outcome_moved_nonempty _ _ _ Eo) as (head & tl & Hprev).
      rewrite Hs. destruct (eats (state w) newHead) eqn:Ee.
      * split; [reflexivity|].
        intros Hne. exfalso. apply Hne. cbn [hd_error].
        rewrite (eats_true _ _ Ee). reflexivity.
      * rewrite length_removelast_cons. split; [|reflexivity].
        rewrite Hprev, hd_error_removelast. intros Heq. exfalso.
        apply eats_false in Ee. congruence.
  - intros fuel es w w' H E1 E2.
    destruct (run_trace fuel es w w' H) as (_ & _ & Hlen). auto.
Qed.

Lemma C7_snake_length_within_a_life_witness :
  List.length (snake (state (after (moveSnake Eager 1 (foodAhead 0 0))
     (worldOf (foodAhead 0 0) (constSeq (1 # 4)) (tickingClock 6000)))))
  = 4%nat
  /\ (List.length (snake (state (worldOf (foodAhead 0 0) (constSeq (1 # 4))
                                   (tickingClock 6000))))
      <= List.length (snake (state (after (run 1 [Tick Deferred; Steer LEFT; Tick Eager])
           (worldOf (foodAhead 0 0) (constSeq (1 # 4)) (tickingClock 6000)))))
     )%nat.
Proof.
  destruct C7_snake_length_within_a_life as (Htick & Hrun).
  split.
  - destruct (Htick Eager 1%nat
                (worldOf (foodAhead 0 0) (constSeq (1 # 4)) (tickingClock 6000))
                (after (moveSnake Eager 1 (foodAhead 0 0))
                   (worldOf (foodAhead 0 0) (constSeq (1 # 4)) (tickingClock 6000))))
      as (Hate & _);
      [reflexivity | vm_compute; reflexivity | vm_compute; reflexivity |].
    apply Hate. vm_compute. reflexivity.
  - apply (Hrun 1%nat [Tick Deferred; Steer LEFT; Tick Eager]);
      vm_compute; reflexivity.
Defined.




(** ** Scenarios *)

(** Heading UP, a turn to RIGHT is buffered; a later turn to DOWN, the
    opposite of the current direction, is ignored. *)
Example scenario_reverse_is_rejected :
  direction (state (after (run 1 [Steer RIGHT; Steer DOWN])
     (worldOf (foodAhead 0 0) (constSeq (1 # 4)) (tickingClock 6000)))) = UP
  /\ nextDirection (state (after (run 1 [Steer RIGHT; Steer DOWN])
       (worldOf (foodAhead 0 0) (constSeq (1 # 4)) (tickingClock 6000)))) = RIGHT
  /\ nextDirection (state (after (run 1 [Steer DOWN])
       (worldOf (foodAhead 0 0) (constSeq (1 # 4)) (tickingClock 6000)))) = UP.
Proof.
  split; [vm_compute; reflexivity|]. split; vm_compute; reflexivity.
Qed.

(** On the last life a wall ends the round: no lives, GAME_OVER for
    WALL, and the commentary is requested with the score and WALL. *)
Example scenario_last_life_at_the_wall :
  lives (state (after (step 1 (Tick Deferred))
     (worldOf lastLife (constSeq (1 # 4)) (tickingClock 6000)))) = 0
  /\ status (state (after (step 1 (Tick Deferred))
       (worldOf lastLife (constSeq (1 # 4)) (tickingClock 6000)))) = GAME_OVER
  /\ gameOverReason (state (after (step 1 (Tick Deferred))
       (worldOf lastLife (constSeq (1 # 4)) (tickingClock 6000)))) = Some WALL
  /\ calls (after (step 1 (Tick Deferred))
       (worldOf lastLife (constSeq (1 # 4)) (tickingClock 6000)))
     = [GenerateGameOverMessage 50 WALL; StartGameOverBGM; EnterLifeLost WALL].
Proof.
  split; [vm_compute; reflexivity|]. split; [vm_compute; reflexivity|].
  split; vm_compute; reflexivity.
Qed.

(** Without GHOST the curled snake that turns UP runs into itself and a
    life is lost for SELF. *)
Example scenario_self_collision :
  calls (after (moveSnake Deferred 1 (curled None))
     (worldOf (curled None) (constSeq (1 # 4)) (tickingClock 6000)))
  = [PlayDamage; EnterLifeLost SELF]
  /\ lives (state (after (moveSnake Deferred 1 (curled None))
       (worldOf (curled None) (constSeq (1 # 4)) (tickingClock 6000)))) = 2.
Proof.
  split; vm_compute; reflexivity.
Qed.

(** With the board full no power-up is spawned, and nothing fails. *)
Example scenario_no_room_for_a_power_up currentFood w :
  unitInterval (randomSeq w) ->
  generatePowerUp fullBoard currentFood [] w = Some (None, consumed 40 w).
Proof.
  intros U. apply generatePowerUp_gives_up. intros j _.
  unfold blocked. rewrite fullBoard_covers; [reflexivity|].
  apply drawAt_inGrid. exact U.
Qed.

(** * Further properties of [App] *)

(** ** What a tick keeps *)

Lemma existsb_removelast {A} (p : A -> bool) l :
  existsb p l = false -> existsb p (removelast l) = false.
Proof.
  induction l as [|a l IH]; [auto|].
  destruct l as [|b l]; [reflexivity|].
  change (removelast (a :: b :: l)) with (a :: removelast (b :: l)).
  cbn [existsb] in *. rewrite !orb_false_iff in *. intuition.
Qed.

Lemma length_splice1 {A} i (l : list A) :
  (List.length (splice1 i l) <= List.length l)%nat.
Proof.
  unfold splice1. rewrite length_app, length_firstn, length_skipn. lia.
Qed.

Lemma opposite_irrefl d : d <> opposite d.
Proof. destruct d; discriminate. Qed.

Lemma outcome_not_stalled r head tl : outcome r (head :: tl) <> Stalled.
Proof.
  unfold outcome.
  destruct (outOfGrid _ && negb _); [discriminate|].
  destruct (negb _ && existsb _ _); discriminate.
Qed.

Lemma spawned_on_empty_board (board spawned : list PowerUp) :
  (List.length spawned <= 1)%nat ->
  (spawned <> [] -> board = []) ->
  (List.length board <= 1)%nat ->
  (List.length (board ++ spawned) <= 1)%nat.
Proof.
  intros L N B. destruct spawned as [|item rest].
  - rewrite app_nil_r. exact B.
  - rewrite N by discriminate. exact L.
Qed.

(** The board after a tick of a game in play holds at most one power-up
    if it did before. *)
Lemma moveSnake_board s fuel w w' :
  status (state w) = PLAYING ->
  moveSnake s fuel (state w) w = Some (tt, w') ->
  (List.length (powerUps (state w)) <= 1)%nat ->
  (List.length (powerUps (state w')) <= 1)%nat.
Proof.
  intros Hst H Hb.
  destruct (outcome (state w) (snake (state w))) as [|reason|newHead] eqn:Ho.
  - tick_stalled Hst Ho H. destruct Q as (_ & _ & spawned & L & B).
    cbn [lateBoard] in B. destruct B as (B & N).
    assert (E : powerUps (state (updaterStart s w)) = powerUps (state w))
      by (destruct s; reflexivity).
    destruct s; exec; rewrite B; rewrite E in *;
      apply spawned_on_empty_board; assumption.
  - destruct (moveSnake_when_lost s fuel w w' reason Hst Ho H)
      as (_ & _ & _ & spawned & L & B & N).
    rewrite B. apply spawned_on_empty_board; assumption.
  - destruct (moveSnake_when_moved s fuel w w' newHead Hst Ho H)
      as (_ & _ & _ & spawned & L & B).
    pose proof (length_splice1 (A := PowerUp)) as Hsp.
    destruct (powerUpAt (powerUps (state w)) newHead) as [[i pu]|].
    + specialize (Hsp i (powerUps (state w))). destruct s.
      * destruct B as (B & N). rewrite B.
        apply spawned_on_empty_board; [assumption | assumption | lia].
      * rewrite B. lia.
    + assert (B' : powerUps (state w') = powerUps (state w) ++ spawned
                   /\ (spawned <> [] -> powerUps (state w) = []))
        by (destruct s; exact B).
      destruct B' as (B' & N). rewrite B'.
      apply spawned_on_empty_board; assumption.
Qed.

(** A tick keeps [sound]. *)
Lemma moveSnake_sound s fuel w w' :
  sound w -> moveSnake s fuel (state w) w = Some (tt, w') -> sound w'.
Proof.
  intros S H.
  destruct (status (state w)) eqn:Hst;
    try (rewrite moveSnake_idle in H by (rewrite Hst; discriminate);
         inversion H; subst; exact S).
  pose proof (moveSnake_board s fuel w w' Hst H) as Hboard.
  destruct S as [Sl Sbd Ssn Stn Sco [Ssc Smod]].
  assert (Hexp : 0 <= combo (state (swept w))).
  { unfold swept. cbn [state combo]. destruct (_ && _); lia. }
  destruct (snake (state w)) as [|head tl] eqn:Esn; [cbn in Ssn; lia|].
  destruct (outcome (state w) (head :: tl)) as [|reason|newHead] eqn:Eo.
  - exfalso. exact (outcome_not_stalled _ _ _ Eo).
  - rewrite <- Esn in Eo.
    destruct (moveSnake_when_lost s fuel w w' reason Hst Eo H)
      as ((A1 & A2 & A3 & A4 & A5 & _) & (B1 & _ & _ & B4 & B5 & _) & _).
    constructor.
    + rewrite A2. destruct (lives (state w) >? 1) eqn:El; unfold MAX_LIVES in *; lia.
    + exact (Hboard Sbd).
    + rewrite A1. destruct s, (lives (state w) >? 1); rewrite ?Esn; cbn; cbn in Ssn; lia.
    + rewrite B4, B5. destruct (lives (state w) >? 1);
        [discriminate | apply opposite_irrefl].
    + rewrite B1. destruct (lives (state w) >? 1); [lia | exact Hexp].
    + rewrite A5. split; assumption.
  - rewrite <- Esn in Eo.
    destruct (moveSnake_when_moved s fuel w w' newHead Hst Eo H)
      as ((A1 & A2 & A3 & A4 & _) & (_ & _ & B3 & B4 & _) & _).
    constructor.
    + rewrite A4. exact Sl.
    + exact (Hboard Sbd).
    + rewrite A1, Esn. destruct (eats (state w) newHead);
        [cbn [List.length] in *; lia | rewrite length_removelast_cons; exact Ssn].
    + rewrite B3, B4. apply opposite_irrefl.
    + rewrite A3. destruct (eats (state w) newHead); lia.
    + rewrite A2. destruct (eats (state w) newHead); [|split; assumption].
      unfold POINTS_PER_FOOD in *.
      assert (0 <= (combo (state w) + 1) / 5) by (apply Z.div_pos; lia).
      split; [nia|].
      rewrite (Z.mul_comm 10), Z.mod_add by lia. exact Smod.
Qed.

(** A tick keeps [placed]. *)
Lemma moveSnake_placed s fuel w w' :
  placed w -> moveSnake s fuel (state w) w = Some (tt, w') -> placed w'.
Proof.
  intros S H.
  destruct (status (state w)) eqn:Hst;
    try (rewrite moveSnake_idle in H by (rewrite Hst; discriminate);
         inversion H; subst; exact S).
  destruct S as [Sfg Ssrc].
  destruct (outcome (state w) (snake (state w))) as [|reason|newHead] eqn:Eo.
  - destruct (moveSnake_when_stalled s fuel w w' Hst Eo H)
      as (_ & _ & _ & _ & _ & _ & _ & _ & _ & _ & _ & Hr & Hf).
    constructor; [rewrite Hf; exact Sfg | rewrite Hr; exact Ssrc].
  - destruct (moveSnake_when_lost s fuel w w' reason Hst Eo H)
      as (_ & (_ & _ & _ & _ & _ & _ & _ & Hr & _) & F & _).
    constructor; [|rewrite Hr; exact Ssrc].
    destruct (lives (state w) >? 1).
    + destruct F as (_ & _ & F). apply F; assumption.
    + rewrite F. exact Sfg.
  - destruct (moveSnake_when_moved s fuel w w' newHead Hst Eo H)
      as (_ & (_ & _ & _ & _ & _ & Hr & _) & F & _).
    constructor; [|rewrite Hr; exact Ssrc].
    destruct (eats (state w) newHead).
    + destruct F as (k & F & _). rewrite F. apply drawAt_inGrid.
      destruct s; exact Ssrc.
    + rewrite F. exact Sfg.
Qed.

(** A tick keeps the food off the snake, unless it loses a life with a
    life to spare while the food lies under the reset snake, in an
    updater run eagerly: then the snake is not reset, and the food is
    placed off the reset snake only. *)
Lemma moveSnake_foodOffSnake s fuel w w' :
  foodOffSnake (state w) = true ->
  moveSnake s fuel (state w) w = Some (tt, w') ->
  (s = Eager -> status (state w) = PLAYING -> lives (state w) > 1 ->
   isUnderSpawn (food (state w)) = true ->
   forall reason, outcome (state w) (snake (state w)) <> Lost reason) ->
  foodOffSnake (state w') = true.
Proof.
  intros S H Hex.
  destruct (status (state w)) eqn:Hst;
    try (rewrite moveSnake_idle in H by (rewrite Hst; discriminate);
         inversion H; subst; exact S).
  unfold foodOffSnake in *. apply negb_true_iff in S. apply negb_true_iff.
  destruct (outcome (state w) (snake (state w))) as [|reason|newHead] eqn:Eo.
  - destruct (moveSnake_when_stalled s fuel w w' Hst Eo H) as (Hs & _).
    rewrite Hs. reflexivity.
  - destruct (moveSnake_when_lost s fuel w w' reason Hst Eo H)
      as ((A1 & _) & _ & F & _).
    rewrite A1. destruct (lives (state w) >? 1) eqn:El.
    + destruct F as (F1 & F2 & _).
      destruct (isUnderSpawn (food (state w))) eqn:Eu.
      * destruct s; [|exact F1].
        exfalso. apply (Hex eq_refl eq_refl) with (reason := reason);
          [apply Z.gtb_lt in El; lia | reflexivity | reflexivity].
      * rewrite (F2 eq_refl). destruct s; [exact S|].
        exact Eu.
    + rewrite F. destruct s; exact S.
  - destruct (moveSnake_when_moved s fuel w w' newHead Hst Eo H)
      as ((A1 & _) & _ & F & _).
    rewrite A1. destruct (eats (state w) newHead) eqn:Ee.
    + destruct F as (k & _ & F). unfold isOccupied in F.
      apply orb_false_iff in F. exact (proj1 F).
    + rewrite F. apply existsb_removelast. cbn [existsb].
      unfold eats in Ee. rewrite Ee. exact S.
Qed.

(** ** What the handlers keep *)

Lemma leadsTo_ret P w : P w -> leadsTo P w (ret tt).
Proof. intros S w1 H. inversion H; subst. exact S. Qed.

Lemma leadsTo_if P w (b : bool) c1 c2 :
  leadsTo P w c1 -> leadsTo P w c2 -> leadsTo P w (if b then c1 else c2).
Proof. destruct b; auto. Qed.

(** A property kept by the six handlers is kept by every event. *)
Lemma dispatch_leadsTo P fuel e w :
  P w ->
  leadsTo P w (handlePause (state w)) ->
  leadsTo P w handleResume ->
  leadsTo P w (resetGame fuel) ->
  leadsTo P w handleExit ->
  (forall d, leadsTo P w (updateDirection d)) ->
  (forall s, e = Tick s -> leadsTo P w (moveSnake s fuel (state w))) ->
  leadsTo P w (dispatch fuel (state w) e).
Proof.
  intros S Hp Hr Hn Hx Hd Ht.
  pose proof (leadsTo_ret P w S) as H0.
  destruct e; cbn [dispatch]; auto using leadsTo_if.
  unfold handleKeyDown. destruct (lookupKey key KEY_MAP); auto 8 using leadsTo_if.
Qed.

Lemma step_leadsTo P fuel e w :
  leadsTo P w (dispatch fuel (state w) e) ->
  (forall w1, P w1 -> leadsTo P w1 (highScoreEffect (state w1))) ->
  leadsTo P w (step fuel e).
Proof.
  intros D E w' H. apply step_inv in H. destruct H as (w1 & H1 & H2).
  exact (E w1 (D w1 H1) w' H2).
Qed.

Lemma run_leadsTo P fuel :
  (forall e w, P w -> leadsTo P w (step fuel e)) ->
  forall es w, P w -> leadsTo P w (run fuel es).
Proof.
  intros Hstep. induction es as [|e es IH]; intros w S w' H.
  - inversion H; subst. exact S.
  - apply run_cons in H. destruct H as (w1 & Hs & Hr).
    exact (IH w1 (Hstep e w S w1 Hs) w' Hr).
Qed.

Lemma mount_leadsTo P saved rnd clk :
  P (freshWorld saved rnd clk) ->
  (forall w, P w -> leadsTo P w loadHighScore) ->
  (forall r w, P w -> leadsTo P w (highScoreEffect r)) ->
  P (after mount (freshWorld saved rnd clk)).
Proof.
  intros S L E. destruct (mount_returns saved rnd clk) as (H & _).
  set (w' := after mount (freshWorld saved rnd clk)) in *. clearbody w'.
  unfold mount in H. cbn [bind] in H.
  destruct (loadHighScore _) as [[[] w1]|] eqn:E1; [|discriminate].
  apply (L _ S) in E1.
  destruct (highScoreEffect initialGame w1) as [[[] w2]|] eqn:E2; [|discriminate].
  apply (E _ _ E1) in E2.
  cbn [gets bind] in H.
  exact (E _ _ E2 _ H).
Qed.

(** *** [sound] *)

Lemma updateDirection_sound newDir w : sound w -> leadsTo sound w (updateDirection newDir).
Proof.
  intros [Sl Sbd Ssn Stn Sco Ssc] w1 H. unfold updateDirection in H.
  crunch; constructor; exec; auto.
  destruct newDir, (direction (state w)); cbn in *; discriminate.
Qed.

Lemma handlePause_sound r w : sound w -> leadsTo sound w (handlePause r).
Proof.
  intros [Sl Sbd Ssn Stn Sco Ssc] w1 H. unfold handlePause in H.
  crunch; constructor; exec; auto.
Qed.

Lemma handleResume_sound w : sound w -> leadsTo sound w handleResume.
Proof.
  intros [Sl Sbd Ssn Stn Sco Ssc] w1 H. unfold handleResume in H.
  crunch; constructor; exec; auto.
Qed.

Lemma handleExit_sound w : sound w -> leadsTo sound w handleExit.
Proof.
  intros [Sl Sbd Ssn Stn Sco Ssc] w1 H. unfold handleExit in H.
  crunch; constructor; exec; auto; try (unfold MAX_LIVES; lia).
  split; [lia | reflexivity].
Qed.

Lemma resetGame_sound fuel w : leadsTo sound w (resetGame fuel).
Proof.
  intros w1 H. unfold resetGame in H.
  crunch; constructor; exec.
  - unfold MAX_LIVES; lia.
  - cbn; lia.
  - cbn; lia.
  - discriminate.
  - lia.
  - split; [lia | reflexivity].
Qed.

Lemma highScoreEffect_sound r w : sound w -> leadsTo sound w (highScoreEffect r).
Proof.
  intros [Sl Sbd Ssn Stn Sco Ssc] w1 H. unfold highScoreEffect in H.
  crunch; constructor; exec; auto.
Qed.

Lemma loadHighScore_sound w : sound w -> leadsTo sound w loadHighScore.
Proof.
  intros [Sl Sbd Ssn Stn Sco Ssc] w1 H. unfold loadHighScore in H.
  crunch; constructor; exec; auto.
Qed.

Lemma step_sound fuel e w : sound w -> leadsTo sound w (step fuel e).
Proof.
  intros S. apply step_leadsTo.
  - apply dispatch_leadsTo; auto using handlePause_sound, handleResume_sound,
      resetGame_sound, handleExit_sound, updateDirection_sound.
    intros s _ w1. apply moveSnake_sound. exact S.
  - intros w1. apply highScoreEffect_sound.
Qed.

Lemma run_sound fuel es w w' :
  sound w -> run fuel es w = Some (tt, w') -> sound w'.
Proof.
  intros S. apply (run_leadsTo sound fuel); [|exact S].
  intros e w0. apply step_sound.
Qed.

Lemma freshWorld_sound saved rnd clk : sound (freshWorld saved rnd clk).
Proof.
  constructor; cbn.
  - unfold MAX_LIVES. lia.
  - lia.
  - lia.
  - discriminate.
  - lia.
  - split; [lia | reflexivity].
Qed.

Lemma mount_sound saved rnd clk :
  sound (after mount (freshWorld saved rnd clk)).
Proof.
  apply mount_leadsTo.
  - apply freshWorld_sound.
  - intros w. apply loadHighScore_sound.
  - intros r w. apply highScoreEffect_sound.
Qed.

(** *** [placed] *)

Lemma updateDirection_placed newDir w :
  placed w -> leadsTo placed w (updateDirection newDir).
Proof.
  intros [Sfg Ssrc] w1 H. unfold updateDirection in H.
  crunch; constructor; exec; auto.
Qed.

Lemma handlePause_placed r w : placed w -> leadsTo placed w (handlePause r).
Proof.
  intros [Sfg Ssrc] w1 H. unfold handlePause in H.
  crunch; constructor; exec; auto.
Qed.

Lemma handleResume_placed w : placed w -> leadsTo placed w handleResume.
Proof.
  intros [Sfg Ssrc] w1 H. unfold handleResume in H.
  crunch; constructor; exec; auto.
Qed.

Lemma handleExit_placed w : placed w -> leadsTo placed w handleExit.
Proof.
  intros [Sfg Ssrc] w1 H. unfold handleExit in H.
  crunch; constructor; exec; auto.
Qed.

Lemma resetGame_placed fuel w :
  unitInterval (randomSeq w) -> leadsTo placed w (resetGame fuel).
Proof.
  intros Ssrc w1 H. unfold resetGame in H.
  crunch; constructor; exec; [|exact Ssrc].
  apply drawAt_inGrid. exact Ssrc.
Qed.

Lemma highScoreEffect_placed r w : placed w -> leadsTo placed w (highScoreEffect r).
Proof.
  intros [Sfg Ssrc] w1 H. unfold highScoreEffect in H.
  crunch; constructor; exec; auto.
Qed.

Lemma loadHighScore_placed w : placed w -> leadsTo placed w loadHighScore.
Proof.
  intros [Sfg Ssrc] w1 H. unfold loadHighScore in H.
  crunch; constructor; exec; auto.
Qed.

Lemma step_placed fuel e w : placed w -> leadsTo placed w (step fuel e).
Proof.
  intros S. apply step_leadsTo.
  - apply dispatch_leadsTo; auto using handlePause_placed, handleResume_placed,
      handleExit_placed, updateDirection_placed.
    + apply resetGame_placed. apply S.
    + intros s _ w1. apply moveSnake_placed. exact S.
  - intros w1. apply highScoreEffect_placed.
Qed.

Lemma run_placed fuel es w w' :
  placed w -> run fuel es w = Some (tt, w') -> placed w'.
Proof.
  intros S. apply (run_leadsTo placed fuel); [|exact S].
  intros e w0. apply step_placed.
Qed.

Lemma mount_placed saved rnd clk :
  unitInterval rnd -> placed (after mount (freshWorld saved rnd clk)).
Proof.
  intros U. apply mount_leadsTo.
  - constructor; [reflexivity | exact U].
  - intros w. apply loadHighScore_placed.
  - intros r w. apply highScoreEffect_placed.
Qed.

(** *** [overForAReason] *)

Lemma updateDirection_over newDir w :
  overForAReason w -> leadsTo overForAReason w (updateDirection newDir).
Proof.
  unfold overForAReason. intros S w1 H. unfold updateDirection in H.
  crunch; exact S.
Qed.

Lemma handlePause_over r w : leadsTo overForAReason w (handlePause r).
Proof.
  unfold overForAReason. intros w1 H. unfold handlePause in H.
  crunch; discriminate.
Qed.

Lemma handleResume_over w : leadsTo overForAReason w handleResume.
Proof.
  unfold overForAReason. intros w1 H. unfold handleResume in H.
  crunch; discriminate.
Qed.

Lemma handleExit_over w : leadsTo overForAReason w handleExit.
Proof.
  unfold overForAReason. intros w1 H. unfold handleExit in H.
  crunch; discriminate.
Qed.

Lemma resetGame_over fuel w : leadsTo overForAReason w (resetGame fuel).
Proof.
  unfold overForAReason. intros w1 H. unfold resetGame in H.
  crunch; discriminate.
Qed.

Lemma highScoreEffect_over r w :
  overForAReason w -> leadsTo overForAReason w (highScoreEffect r).
Proof.
  unfold overForAReason. intros S w1 H. unfold highScoreEffect in H.
  crunch; exact S.
Qed.

Lemma loadHighScore_over w :
  overForAReason w -> leadsTo overForAReason w loadHighScore.
Proof.
  unfold overForAReason. intros S w1 H. unfold loadHighScore in H.
  crunch; exact S.
Qed.

Lemma moveSnake_over s fuel w :
  overForAReason w -> leadsTo overForAReason w (moveSnake s fuel (state w)).
Proof.
  intros S w' H.
  destruct (status (state w)) eqn:Hst;
    try (rewrite moveSnake_idle in H by (rewrite Hst; discriminate);
         inversion H; subst; exact S).
  destruct (moveSnake_outcome s fuel w w' Hst H) as (_ & O).
  unfold overForAReason.
  destruct (outcome (state w) (snake (state w))) as [|reason|newHead].
  - destruct O as (_ & _ & _ & _ & Os & _). rewrite Os. discriminate.
  - destruct O as (_ & _ & Ol & Os & Og & _). rewrite Os, Ol, Og.
    destruct (lives (state w) >? 1); [discriminate|].
    intros _. split; [reflexivity | discriminate].
  - destruct O as (_ & _ & _ & _ & Os & _). rewrite Os. discriminate.
Qed.

Lemma step_over fuel e w :
  overForAReason w -> leadsTo overForAReason w (step fuel e).
Proof.
  intros S. apply step_leadsTo.
  - apply dispatch_leadsTo; auto using handlePause_over, handleResume_over,
      resetGame_over, handleExit_over, updateDirection_over.
    intros s _. apply moveSnake_over. exact S.
  - intros w1. apply highScoreEffect_over.
Qed.

Lemma run_over fuel es w w' :
  overForAReason w -> run fuel es w = Some (tt, w') -> overForAReason w'.
Proof.
  intros S. apply (run_leadsTo overForAReason fuel); [|exact S].
  intros e w0. apply step_over.
Qed.

Lemma mount_over saved rnd clk :
  overForAReason (after mount (freshWorld saved rnd clk)).
Proof.
  apply mount_leadsTo.
  - intros H. discriminate H.
  - intros w. apply loadHighScore_over.
  - intros r w. apply highScoreEffect_over.
Qed.

(** *** The food and the snake *)

Lemma updateDirection_foodOffSnake newDir w :
  foodOffSnake (state w) = true ->
  leadsTo (fun w1 => foodOffSnake (state w1) = true) w (updateDirection newDir).
Proof.
  intros S w1 H. unfold updateDirection in H. unfold foodOffSnake in *.
  crunch; exact S.
Qed.

Lemma handlePause_foodOffSnake r w :
  foodOffSnake (state w) = true ->
  leadsTo (fun w1 => foodOffSnake (state w1) = true) w (handlePause r).
Proof.
  intros S w1 H. unfold handlePause in H. unfold foodOffSnake in *.
  crunch; exact S.
Qed.

Lemma handleResume_foodOffSnake w :
  foodOffSnake (state w) = true ->
  leadsTo (fun w1 => foodOffSnake (state w1) = true) w handleResume.
Proof.
  intros S w1 H. unfold handleResume in H. unfold foodOffSnake in *.
  crunch; exact S.
Qed.

Lemma handleExit_foodOffSnake w :
  foodOffSnake (state w) = true ->
  leadsTo (fun w1 => foodOffSnake (state w1) = true) w handleExit.
Proof.
  intros S w1 H. unfold handleExit in H. unfold foodOffSnake in *.
  crunch; exact S.
Qed.

Lemma resetGame_foodOffSnake fuel w :
  leadsTo (fun w1 => foodOffSnake (state w1) = true) w (resetGame fuel).
Proof.
  intros w1 H. unfold resetGame in H. unfold foodOffSnake.
  crunch.
  match goal with Hf : isOccupied _ _ INITIAL_SNAKE [] = false |- _ =>
    unfold isOccupied in Hf; apply orb_false_iff in Hf; destruct Hf as (Hf & _);
    rewrite Hf end.
  reflexivity.
Qed.

Lemma highScoreEffect_foodOffSnake r w :
  foodOffSnake (state w) = true ->
  leadsTo (fun w1 => foodOffSnake (state w1) = true) w (highScoreEffect r).
Proof.
  intros S w1 H. unfold highScoreEffect in H. unfold foodOffSnake in *.
  crunch; exact S.
Qed.

(** ** What every run keeps *)

Lemma aheadSeq_unit : unitInterval aheadSeq.
Proof.
  intros i. destruct i as [|[|i]]; cbn [aheadSeq]; unfold Qle, Qlt; cbn; lia.
Qed.

(** X1.  Over any run of events from the mounted component, the number of
    lives stays between 0 and [MAX_LIVES]. *)
Theorem lives_stay_within_bounds saved rnd clk fuel es w :
  run fuel es (after mount (freshWorld saved rnd clk)) = Some (tt, w) ->
  0 <= lives (state w) <= MAX_LIVES.
Proof.
  intros H. exact (sound_lives _ (run_sound fuel es _ _ (mount_sound saved rnd clk) H)).
Qed.

Lemma lives_stay_within_bounds_witness :
  0 <= lives (state (after (run 1 (intoTheWall Eager)) mounted)) <= MAX_LIVES.
Proof.
  apply (lives_stay_within_bounds (Some 3) aheadSeq (tickingClock 0) 1%nat (intoTheWall Eager)).
  vm_compute. reflexivity.
Defined.

(** X2.  Over any run of events from the mounted component, at most one
    power-up lies on the board. *)
Theorem at_most_one_power_up_on_board saved rnd clk fuel es w :
  run fuel es (after mount (freshWorld saved rnd clk)) = Some (tt, w) ->
  (List.length (powerUps (state w)) <= 1)%nat.
Proof.
  intros H. exact (sound_board _ (run_sound fuel es _ _ (mount_sound saved rnd clk) H)).
Qed.

Lemma at_most_one_power_up_on_board_witness :
  (List.length (powerUps (state (after (run 1 (intoTheWall Eager)) mounted))) <= 1)%nat.
Proof.
  apply (at_most_one_power_up_on_board (Some 3) aheadSeq (tickingClock 0) 1%nat
           (intoTheWall Eager)).
  vm_compute. reflexivity.
Defined.

(** X3.  Over any run of events from the mounted component, the snake has
    at least the three segments it starts with, and each of them is a cell
    of the board. *)
Theorem snake_keeps_its_segments_on_board saved rnd clk fuel es w :
  run fuel es (after mount (freshWorld saved rnd clk)) = Some (tt, w) ->
  (List.length INITIAL_SNAKE <= List.length (snake (state w)))%nat
  /\ forallb inGrid (snake (state w)) = true.
Proof.
  intros H. split.
  - exact (sound_snake _ (run_sound fuel es _ _ (mount_sound saved rnd clk) H)).
  - exact (run_keeps_snake_on_board fuel es _ _ (mounted_snake_on_board saved rnd clk) H).
Qed.

Lemma snake_keeps_its_segments_on_board_witness :
  (List.length INITIAL_SNAKE
   <= List.length (snake (state (after (run 1 (intoTheWall Eager)) mounted))))%nat
  /\ forallb inGrid (snake (state (after (run 1 (intoTheWall Eager)) mounted))) = true.
Proof.
  apply (snake_keeps_its_segments_on_board (Some 3) aheadSeq (tickingClock 0) 1%nat
           (intoTheWall Eager)).
  vm_compute. reflexivity.
Defined.



(** X5.  Over any run of events from the mounted component, the score is a
    non-negative multiple of [POINTS_PER_FOOD] and the combo counter is
    not negative. *)
Theorem score_is_a_multiple_of_the_food_points saved rnd clk fuel es w :
  run fuel es (after mount (freshWorld saved rnd clk)) = Some (tt, w) ->
  0 <= score (state w) /\ score (state w) mod POINTS_PER_FOOD = 0
  /\ 0 <= combo (state w).
Proof.
  intros H.
  pose proof (run_sound fuel es _ _ (mount_sound saved rnd clk) H) as S.
  destruct (sound_score _ S) as (H1 & H2).
  repeat split; [exact H1 | exact H2 | exact (sound_combo _ S)].
Qed.

Lemma score_is_a_multiple_of_the_food_points_witness :
  0 <= score (state (after (run 1 (intoTheWall Eager)) mounted))
  /\ score (state (after (run 1 (intoTheWall Eager)) mounted)) mod POINTS_PER_FOOD = 0
  /\ 0 <= combo (state (after (run 1 (intoTheWall Eager)) mounted)).
Proof.
  apply (score_is_a_multiple_of_the_food_points (Some 3) aheadSeq (tickingClock 0)
           1%nat (intoTheWall Eager)).
  vm_compute. reflexivity.
Defined.

(** X6.  An event keeps the food off the snake, with one exception: a
    tick of a game in play that loses a life with a life to spare while
    the food lies under the reset snake, in an updater run eagerly.  On
    such a tick the snake is not reset and the food is placed off the
    reset snake only: in the game [foodUnderSpawn] with the first cell
    drawn on the snake, the food ends under it. *)
Theorem food_stays_off_the_snake :
  (forall fuel e w w',
      foodOffSnake (state w) = true ->
      step fuel e w = Some (tt, w') ->
      (e = Tick Eager -> status (state w) = PLAYING -> lives (state w) > 1 ->
       isUnderSpawn (food (state w)) = true ->
       forall reason, outcome (state w) (snake (state w)) <> Lost reason) ->
      foodOffSnake (state w') = true)
  /\ (foodOffSnake (state (worldOf foodUnderSpawn onTheSnakeSeq (tickingClock 6000)))
      = true
      /\ step 1 (Tick Eager) (worldOf foodUnderSpawn onTheSnakeSeq (tickingClock 6000))
         = Some (tt, after (step 1 (Tick Eager))
                       (worldOf foodUnderSpawn onTheSnakeSeq (tickingClock 6000)))
      /\ foodOffSnake
           (state (after (step 1 (Tick Eager))
                     (worldOf foodUnderSpawn onTheSnakeSeq (tickingClock 6000))))
         = false
      /\ foodOffSnake
           (state (after (step 1 (Tick Deferred))
                     (worldOf foodUnderSpawn onTheSnakeSeq (tickingClock 6000))))
         = true).
Proof.
  split.
  - intros fuel e w w' S H Hex.
    revert w' H.
    change (leadsTo (fun w1 => foodOffSnake (state w1) = true) w (step fuel e)).
    apply step_leadsTo.
    + apply dispatch_leadsTo; auto using handlePause_foodOffSnake,
        handleResume_foodOffSnake, resetGame_foodOffSnake, handleExit_foodOffSnake,
        updateDirection_foodOffSnake.
      intros s Es w1 H1.
      apply (moveSnake_foodOffSnake s fuel w w1 S H1).
      intros E. subst s. exact (Hex Es).
    + intros w1. apply highScoreEffect_foodOffSnake.
  - split; [vm_compute; reflexivity|]. split; [vm_compute; reflexivity|].
    split; vm_compute; reflexivity.
Qed.

Lemma food_stays_off_the_snake_witness :
  foodOffSnake (state (after (step 1 (Tick Eager)) (after (run 1 [ClickStart]) mounted)))
  = true.
Proof.
  destruct food_stays_off_the_snake as (Hkeep & _).
  apply (Hkeep 1%nat (Tick Eager) (after (run 1 [ClickStart]) mounted)).
  - vm_compute. reflexivity.
  - vm_compute. reflexivity.
  - intros _ _ _ Hu. vm_compute in Hu. discriminate Hu.
Defined.

(** X7.  With [Math.random()] in [0, 1), over any run of events from the
    mounted component the food is a cell of the board. *)
Theorem food_stays_on_the_board saved rnd clk fuel es w :
  unitInterval rnd ->
  run fuel es (after mount (freshWorld saved rnd clk)) = Some (tt, w) ->
  inGrid (food (state w)) = true.
Proof.
  intros U H.
  exact (placed_food _ (run_placed fuel es _ _ (mount_placed saved rnd clk U) H)).
Qed.

Lemma food_stays_on_the_board_witness :
  inGrid (food (state (after (run 1 (intoTheWall Eager)) mounted))) = true.
Proof.
  apply (food_stays_on_the_board (Some 3) aheadSeq (tickingClock 0) 1%nat (intoTheWall Eager)).
  - exact aheadSeq_unit.
  - vm_compute. reflexivity.
Defined.

(** X22.  Over any run of events from the mounted component, the status
    GAME_OVER is shown only with no life left and with the reason of the
    last collision on record. *)
Theorem game_over_only_without_lives saved rnd clk fuel es w :
  run fuel es (after mount (freshWorld saved rnd clk)) = Some (tt, w) ->
  status (state w) = GAME_OVER ->
  lives (state w) = 0 /\ gameOverReason (state w) <> None.
Proof.
  intros H. exact (run_over fuel es _ _ (mount_over saved rnd clk) H).
Qed.

Lemma game_over_only_without_lives_witness :
  lives (state (after (run 1 threeCrashes) mounted)) = 0
  /\ gameOverReason (state (after (run 1 threeCrashes) mounted)) <> None.
Proof.
  apply (game_over_only_without_lives (Some 3) aheadSeq (tickingClock 0) 1%nat
           threeCrashes).
  - vm_compute. reflexivity.
  - vm_compute. reflexivity.
Defined.

(** X23.  A tick never lowers the score: at any point of a run of events
    from the mounted component, a tick leaves the score as it is or raises
    it by at least [POINTS_PER_FOOD], whether React runs its updater
    eagerly or at the render. *)
Theorem tick_never_lowers_the_score saved rnd clk fuel es s w w' :
  run fuel es (after mount (freshWorld saved rnd clk)) = Some (tt, w) ->
  step fuel (Tick s) w = Some (tt, w') ->
  score (state w') = score (state w)
  \/ score (state w) + POINTS_PER_FOOD <= score (state w').
Proof.
  intros Hrun H.
  pose proof (sound_combo _ (run_sound fuel es _ _ (mount_sound saved rnd clk) Hrun))
    as Hco.
  apply step_inv in H. destruct H as (w1 & D & E). cbn [dispatch] in D.
  apply highScoreEffect_effect in E. destruct E as (_ & _ & Hsc & _).
  rewrite Hsc.
  destruct (status (state w)) eqn:Hst;
    try (rewrite moveSnake_idle in D by (rewrite Hst; discriminate);
         inversion D; subst; left; reflexivity).
  destruct (moveSnake_outcome s fuel w w1 Hst D) as (_ & O).
  destruct (outcome (state w) (snake (state w))) as [|reason|newHead].
  - destruct O as (_ & _ & Os & _). left. exact Os.
  - destruct O as (_ & _ & _ & _ & _ & Os). left. exact Os.
  - destruct O as (_ & Os & _). rewrite Os.
    destruct (eats (state w) newHead); [right | left; lia].
    unfold POINTS_PER_FOOD.
    assert (0 <= (combo (state w) + 1) / 5) by (apply Z.div_pos; lia).
    nia.
Qed.

Lemma tick_never_lowers_the_score_witness :
  score (state (after (run 1 [ClickStart; Tick Deferred]) mounted))
  = score (state (after (run 1 [ClickStart]) mounted))
  \/ score (state (after (run 1 [ClickStart]) mounted)) + POINTS_PER_FOOD
     <= score (state (after (run 1 [ClickStart; Tick Deferred]) mounted)).
Proof.
  apply (tick_never_lowers_the_score (Some 3) aheadSeq (tickingClock 0) 1%nat
           [ClickStart] Deferred).
  - vm_compute. reflexivity.
  - vm_compute. reflexivity.
Defined.

(** ** Steering *)

Lemma updateDirection_effect newDir w :
  exists w',
    updateDirection newDir w = Some (tt, w')
    /\ nextDirection (state w')
       = (if Direction_eqb newDir (opposite (direction (state w)))
          then nextDirection (state w) else newDir)
    /\ round (state w') = round (state w)
    /\ status (state w') = status (state w)
    /\ highScore (state w') = highScore (state w)
    /\ comboExpiresAt (state w') = comboExpiresAt (state w)
    /\ savedComboTimeRef w' = savedComboTimeRef w
    /\ localStorage w' = localStorage w /\ calls w' = calls w
    /\ clockPos w' = clockPos w /\ randomPos w' = randomPos w.
Proof.
  unfold updateDirection, round. exec.
  destruct newDir, (direction (state w)); cbn [Direction_eqb opposite andb orb negb];
    exec; eexists; repeat split; reflexivity.
Qed.

Lemma highScoreEffect_round w1 w' :
  highScoreEffect (state w1) w1 = Some (tt, w') ->
  nextDirection (state w') = nextDirection (state w1)
  /\ round (state w') = round (state w1)
  /\ status (state w') = status (state w1).
Proof.
  unfold highScoreEffect, round. intros H.
  destruct (score (state w1) >? highScore (state w1)); exec;
    inversion H; subst; exec; repeat split; reflexivity.
Qed.

Lemma highScoreEffect_returns r w : exists w', highScoreEffect r w = Some (tt, w').
Proof.
  unfold highScoreEffect. destruct (score r >? highScore r); exec; eexists; reflexivity.
Qed.

Lemma step_Steer fuel d w :
  exists w',
    step fuel (Steer d) w = Some (tt, w')
    /\ nextDirection (state w')
       = (if Direction_eqb d (opposite (direction (state w)))
          then nextDirection (state w) else d)
    /\ round (state w') = round (state w)
    /\ status (state w') = status (state w).
Proof.
  destruct (updateDirection_effect d w) as (w1 & E & Hn & Hr & Hs & _).
  destruct (highScoreEffect_returns (state w1) w1) as (w' & E').
  exists w'. unfold step. cbn [bind gets dispatch]. rewrite E. cbn [bind gets].
  split; [exact E'|].
  destruct (highScoreEffect_round _ _ E') as (Hn' & Hr' & Hs').
  rewrite Hn', Hr', Hs'. auto.
Qed.

Lemma round_direction g g' : round g' = round g -> direction g' = direction g.
Proof. unfold round. intros H. inversion H. reflexivity. Qed.

(** X8.  Any sequence of steering commands (swipes, taps, on-screen
    arrows) is absorbed without fuel: the snake, its direction, the food,
    the board, the score, the lives and the status are what they were, and
    the buffered direction is the last command that is not the reverse of
    the direction the snake moves in. *)
Theorem steering_buffers_the_last_accepted_turn fuel ds :
  forall w, exists w',
    run fuel (map Steer ds) w = Some (tt, w')
    /\ nextDirection (state w')
       = steered (direction (state w)) ds (nextDirection (state w))
    /\ round (state w') = round (state w)
    /\ status (state w') = status (state w).
Proof.
  induction ds as [|d ds IH]; intros w.
  - exists w. repeat split; reflexivity.
  - destruct (step_Steer fuel d w) as (w1 & E & Hn & Hr & Hs).
    destruct (IH w1) as (w' & E' & Hn' & Hr' & Hs').
    exists w'. cbn [map run bind]. rewrite E.
    split; [exact E'|].
    rewrite Hn', Hr', Hs', (round_direction _ _ Hr), Hn. cbn [steered fold_left].
    repeat split; auto.
Qed.

(** ** Keys *)

Lemma handlePause_effect r w :
  exists w',
    handlePause r w = Some (tt, w')
    /\ status (state w') = PAUSED
    /\ round (state w') = round (state w)
    /\ nextDirection (state w') = nextDirection (state w)
    /\ highScore (state w') = highScore (state w)
    /\ localStorage w' = localStorage w /\ randomPos w' = randomPos w.
Proof.
  unfold handlePause, round. exec.
  destruct (combo r >? 0); exec; eexists; repeat split; reflexivity.
Qed.

Lemma handleResume_effect w :
  exists w',
    handleResume w = Some (tt, w')
    /\ status (state w') = PLAYING
    /\ round (state w') = round (state w)
    /\ nextDirection (state w') = nextDirection (state w)
    /\ highScore (state w') = highScore (state w)
    /\ localStorage w' = localStorage w /\ randomPos w' = randomPos w.
Proof.
  unfold handleResume, round. exec.
  destruct (savedComboTimeRef w >? 0); exec; eexists; repeat split; reflexivity.
Qed.

(** X9.  While a round is in play or paused, no key can do more than
    steer, pause or resume: whatever the key, the handler returns without
    fuel and leaves the snake, its direction, the food, the board, the
    active power-up, the score, the lives, the combo, the high score and
    the store as they were, and draws no random number. *)
Theorem keys_cannot_alter_a_round fuel key code w :
  status (state w) = PLAYING \/ status (state w) = PAUSED ->
  exists w',
    handleKeyDown fuel (state w) key code w = Some (tt, w')
    /\ round (state w') = round (state w)
    /\ highScore (state w') = highScore (state w)
    /\ localStorage w' = localStorage w /\ randomPos w' = randomPos w.
Proof.
  intros Hst. unfold handleKeyDown.
  destruct (lookupKey key KEY_MAP) as [d|].
  - destruct (updateDirection_effect d w) as (w' & E & _ & Hr & _ & Hh & _ & _ & Hl & _ & _ & Hp).
    exists w'. auto.
  - assert (Hsame : exists w', ret tt w = Some (tt, w')
              /\ round (state w') = round (state w)
              /\ highScore (state w') = highScore (state w)
              /\ localStorage w' = localStorage w /\ randomPos w' = randomPos w)
      by (exists w; repeat split; reflexivity).
    assert (Hp : exists w', handlePause (state w) w = Some (tt, w')
              /\ round (state w') = round (state w)
              /\ highScore (state w') = highScore (state w)
              /\ localStorage w' = localStorage w /\ randomPos w' = randomPos w).
    { destruct (handlePause_effect (state w) w) as (w' & E & _ & Hr & _ & Hh & Hl & Hq).
      exists w'. auto. }
    assert (Hr : exists w', handleResume w = Some (tt, w')
              /\ round (state w') = round (state w)
              /\ highScore (state w') = highScore (state w)
              /\ localStorage w' = localStorage w /\ randomPos w' = randomPos w).
    { destruct (handleResume_effect w) as (w' & E & _ & Hr & _ & Hh & Hl & Hq).
      exists w'. auto. }
    destruct Hst as [Hst|Hst]; rewrite Hst; cbn [GameStatus_eqb];
      destruct (String.eqb code "Space"); try assumption;
      destruct (String.eqb code "Escape"); assumption.
Qed.

Lemma keys_cannot_alter_a_round_witness :
  exists w',
    handleKeyDown 0 (foodAhead 2 9000) " " "Space"
      (worldOf (foodAhead 2 9000) (constSeq (1 # 4)) (tickingClock 6000))
    = Some (tt, w')
    /\ round (state w') = round (foodAhead 2 9000).
Proof.
  destruct (keys_cannot_alter_a_round 0 " " "Space"
              (worldOf (foodAhead 2 9000) (constSeq (1 # 4)) (tickingClock 6000)))
    as (w' & E & Hr & _).
  - left. reflexivity.
  - exists w'. split; [exact E | exact Hr].
Defined.

(** ** Speed *)

Lemma calculateSpeed_cases startSpeed g :
  let base :=
    Z.max MIN_SPEED
      (startSpeed
       - Z.max 0 (Z.of_nat (List.length (snake g)) - Z.of_nat (List.length INITIAL_SNAKE))
         * SPEED_DECREMENT) in
  calculateSpeed startSpeed g = inject_Z base
  \/ calculateSpeed startSpeed g = (inject_Z base * (5 # 2))%Q.
Proof.
  unfold calculateSpeed. destruct (activePowerUp g) as [[[] e]|]; auto.
Qed.

(** X10.  Whatever the slider is set to and however long the snake, the
    tick interval is never under [MIN_SPEED] milliseconds; with the slider
    in its range of 50 to 250 it is at most 250 ms, or 625 ms while
    SLOW_TIME is active. *)
Theorem speed_stays_within_limits startSpeed v g :
  (inject_Z MIN_SPEED <= calculateSpeed startSpeed g)%Q
  /\ (50 <= v <= 250 ->
      (calculateSpeed (sliderSpeed v) g
       <= (if match activePowerUp g with
              | Some a => PowerUpType_eqb (ap_type a) SLOW_TIME
              | None => false
              end
           then 625 # 1 else 250 # 1))%Q).
Proof.
  split.
  - destruct (calculateSpeed_cases startSpeed g) as [E|E]; rewrite E;
      unfold Qle, inject_Z, Qmult, MIN_SPEED; cbn [Qnum Qden Pos.mul]; lia.
  - intros Hv. unfold calculateSpeed, sliderSpeed, MIN_SPEED, SPEED_DECREMENT.
    destruct (activePowerUp g) as [[[] e]|]; cbn [ap_type PowerUpType_eqb];
      unfold Qle, inject_Z, Qmult; cbn [Qnum Qden Pos.mul]; lia.
Qed.

(** X11.  A longer snake never makes the game slower: with the same
    slider setting and the same active power-up, the tick interval of the
    longer snake is at most that of the shorter one. *)
Theorem speed_never_slows_as_the_snake_grows startSpeed g1 g2 :
  (List.length (snake g1) <= List.length (snake g2))%nat ->
  activePowerUp g1 = activePowerUp g2 ->
  (calculateSpeed startSpeed g2 <= calculateSpeed startSpeed g1)%Q.
Proof.
  intros Hlen Hap. unfold calculateSpeed. rewrite Hap.
  unfold MIN_SPEED, SPEED_DECREMENT.
  destruct (activePowerUp g2) as [[[] e]|];
    unfold Qle, inject_Z, Qmult; cbn [Qnum Qden Pos.mul]; lia.
Qed.

Lemma speed_stays_within_limits_witness :
  (inject_Z MIN_SPEED <= calculateSpeed (sliderSpeed 250) (curled None))%Q
  /\ (calculateSpeed (sliderSpeed 50) foodUnderSpawn <= 625 # 1)%Q.
Proof.
  destruct (speed_stays_within_limits (sliderSpeed 250) 50 (curled None)) as (H1 & _).
  destruct (speed_stays_within_limits 0 50 foodUnderSpawn) as (_ & H2).
  split; [exact H1|]. apply H2. lia.
Defined.

Lemma speed_never_slows_as_the_snake_grows_witness :
  (calculateSpeed INITIAL_SPEED (curled None)
   <= calculateSpeed INITIAL_SPEED initialGame)%Q.
Proof.
  apply speed_never_slows_as_the_snake_grows.
  - vm_compute. lia.
  - reflexivity.
Defined.

(** X25.  The difficulty shown follows the slider: moving the slider up
    never shows an easier label, and the colour of the label depends on
    the label alone. *)
Theorem difficulty_label_follows_the_slider v1 v2 :
  v1 <= v2 ->
  (hardness (getDifficultyLabel (sliderSpeed v1))
   <= hardness (getDifficultyLabel (sliderSpeed v2)))%nat
  /\ (getDifficultyLabel (sliderSpeed v1) = getDifficultyLabel (sliderSpeed v2) ->
      getDifficultyColor (sliderSpeed v1) = getDifficultyColor (sliderSpeed v2)).
Proof.
  intros Hv. unfold getDifficultyLabel, getDifficultyColor, sliderSpeed.
  destruct (300 - v1 <=? 80) eqn:A1; [|destruct (300 - v1 <=? 120) eqn:A2;
                                        [|destruct (300 - v1 <=? 180) eqn:A3]];
    (destruct (300 - v2 <=? 80) eqn:B1; [|destruct (300 - v2 <=? 120) eqn:B2;
                                           [|destruct (300 - v2 <=? 180) eqn:B3]]);
    try lia; split; try (intros E; discriminate E); try reflexivity;
    vm_compute; lia.
Qed.

Lemma difficulty_label_follows_the_slider_witness :
  (hardness (getDifficultyLabel (sliderSpeed 150))
   <= hardness (getDifficultyLabel (sliderSpeed 250)))%nat.
Proof.
  apply (difficulty_label_follows_the_slider 150 250). lia.
Defined.

(** ** The last life *)

(** X12.  A tick of a game in play that costs the last life ends the
    round, and it does so without drawing a food cell: whatever the fuel
    and whether React runs the updater eagerly or at the render, the
    tick returns with the status GAME_OVER, no lives, the reason of the
    collision recorded, the game-over music started and one commentary
    requested for the score and that reason; the snake, the food, the
    score and the high score stay as they are, and the score is written to
    the store exactly when it is above the high score. *)
Theorem last_life_ends_the_round s fuel w reason :
  status (state w) = PLAYING ->
  lives (state w) <= 1 ->
  outcome (state w) (snake (state w)) = Lost reason ->
  exists w',
    moveSnake s fuel (state w) w = Some (tt, w')
    /\ status (state w') = GAME_OVER /\ lives (state w') = 0
    /\ gameOverReason (state w') = Some reason
    /\ calls w'
       = GenerateGameOverMessage (score (state w)) reason :: StartGameOverBGM
         :: EnterLifeLost reason :: calls w
    /\ localStorage w'
       = (if score (state w) >? highScore (state w)
          then Some (score (state w)) else localStorage w)
    /\ snake (state w') = snake (state w) /\ food (state w') = food (state w)
    /\ score (state w') = score (state w)
    /\ highScore (state w') = highScore (state w).
Proof.
  intros Hst Hl Ho.
  destruct (moveSnake_returns s fuel w) as (w' & H).
  { unfold foodCanBePlaced. rewrite Ho. intros Hgt. lia. }
  exists w'. split; [exact H|].
  destruct (moveSnake_when_lost s fuel w w' reason Hst Ho H)
    as ((A1 & A2 & A3 & A4 & A5 & A6 & A7 & A8) & _ & F & _).
  assert (El : (lives (state w) >? 1) = false) by lia.
  rewrite El in *. rewrite A1, A2, A3, A4, A5, A6, A7, A8, F.
  destruct s; repeat split; reflexivity.
Qed.

Lemma last_life_ends_the_round_witness :
  exists w',
    moveSnake Eager 0 lastLife (worldOf lastLife (constSeq (1 # 4)) (tickingClock 6000))
    = Some (tt, w')
    /\ status (state w') = GAME_OVER /\ lives (state w') = 0
    /\ gameOverReason (state w') = Some WALL.
Proof.
  destruct (last_life_ends_the_round Eager 0
              (worldOf lastLife (constSeq (1 # 4)) (tickingClock 6000)) WALL)
    as (w' & E & H1 & H2 & H3 & _).
  - reflexivity.
  - vm_compute. discriminate.
  - vm_compute. reflexivity.
  - exists w'. repeat split; assumption.
Defined.

(** ** Timers and pick-ups *)

Lemma findIndex_nth_error {A} (pred : A -> bool) l :
  forall i, findIndex pred l = Some i ->
    exists a, nth_error l i = Some a /\ pred a = true.
Proof.
  induction l as [|a l IH]; intros i H; [discriminate|].
  cbn [findIndex] in H. destruct (pred a) eqn:Ep.
  - inversion H; subst. exists a. split; [reflexivity | exact Ep].
  - destruct (findIndex pred l) as [j|]; [|discriminate].
    inversion H; subst. exact (IH j eq_refl).
Qed.

Lemma powerUpAt_Some board c i p :
  powerUpAt board c = Some (i, p) ->
  nth_error board i = Some p /\ pu_x p = x c /\ pu_y p = y c.
Proof.
  unfold powerUpAt. intros H.
  destruct (findIndex _ board) as [j|] eqn:Ef; [|discriminate].
  destruct (findIndex_nth_error _ _ _ Ef) as (a & Hn & Hp).
  rewrite Hn in H. inversion H; subst.
  apply andb_true_iff in Hp. destruct Hp as (Hx & Hy).
  split; [exact Hn|]. split; lia.
Qed.

(** X13.  A move onto a cell that holds a power-up of the board activates
    it: whenever the food can be placed the tick returns, the active slot
    holds the type of that power-up with a deadline of [POWERUP_DURATION]
    past a fresh reading of the clock (the reading after the one the food
    takes, if the same move also eats), whatever was active before, and
    the pick-up sound is the last call of the tick.  The power-up is
    taken off the board.  When React runs the updater of the snake
    eagerly, the board without it is queued ahead of the updater of the
    spawn block, which may then put one new power-up on the emptied
    board; when the updater runs at the render, the board without the
    power-up is applied last and is the board after the tick. *)
Theorem picked_power_up_becomes_active s fuel w newHead i p :
  status (state w) = PLAYING ->
  outcome (state w) (snake (state w)) = Moved newHead ->
  powerUpAt (powerUps (state w)) newHead = Some (i, p) ->
  foodCanBePlaced s fuel w ->
  exists w',
    moveSnake s fuel (state w) w = Some (tt, w')
    /\ activePowerUp (state w')
       = Some {| ap_type := pu_type p;
                 expiresAt :=
                   clockSeq w (if eats (state w) newHead
                               then S (S (clockPos w)) else S (clockPos w))
                   + POWERUP_DURATION |}
    /\ match s with
       | Eager =>
           exists spawned,
             powerUps (state w') = splice1 i (powerUps (state w)) ++ spawned
             /\ (List.length spawned <= 1)%nat
             /\ (spawned <> [] -> splice1 i (powerUps (state w)) = [])
       | Deferred => powerUps (state w') = splice1 i (powerUps (state w))
       end
    /\ hd_error (calls w') = Some PlayPowerUp.
Proof.
  intros Hst Ho Hp Hsrc.
  destruct (moveSnake_returns s fuel w Hsrc) as (w' & H).
  exists w'. split; [exact H|].
  destruct (moveSnake_when_moved s fuel w w' newHead Hst Ho H)
    as ((_ & _ & _ & _ & _ & _ & _ & _ & T4) & (_ & T2 & _) & _ & spawned & L & B).
  rewrite Hp in T2, T4, B. rewrite T2, T4.
  split; [reflexivity|]. split; [|reflexivity].
  destruct s; [|exact B].
  destruct B as (B & N). exists spawned. auto.
Qed.

Lemma picked_power_up_becomes_active_witness :
  exists w',
    moveSnake Deferred 1 powerUpAhead
      (worldOf powerUpAhead (constSeq (1 # 4)) (tickingClock 6000))
    = Some (tt, w')
    /\ activePowerUp (state w') = Some {| ap_type := GHOST; expiresAt := 11001 |}
    /\ powerUps (state w') = [].
Proof.
  destruct (picked_power_up_becomes_active Deferred 1
              (worldOf powerUpAhead (constSeq (1 # 4)) (tickingClock 6000))
              {| x := 10; y := 9 |} 0%nat {| pu_x := 10; pu_y := 9; pu_type := GHOST |})
    as (w' & E & Ha & Hb & _).
  - reflexivity.
  - vm_compute. reflexivity.
  - vm_compute. reflexivity.
  - vm_compute. intros Heats. discriminate Heats.
  - exists w'. split; [exact E|]. split; [exact Ha | exact Hb].
Defined.

(** X14.  The active power-up lasts until its deadline: on a move that
    picks nothing up, whenever the food can be placed the tick returns,
    and the active slot is emptied exactly when the clock reading at the
    top of the tick is past [expiresAt]; otherwise it is kept as it is.
    This holds whether React runs the updater of the snake eagerly or at
    the render. *)
Theorem active_power_up_lasts_until_its_deadline s fuel w newHead :
  status (state w) = PLAYING ->
  outcome (state w) (snake (state w)) = Moved newHead ->
  powerUpAt (powerUps (state w)) newHead = None ->
  foodCanBePlaced s fuel w ->
  exists w',
    moveSnake s fuel (state w) w = Some (tt, w')
    /\ activePowerUp (state w')
       = match activePowerUp (state w) with
         | Some a => if clockSeq w (clockPos w) >? expiresAt a then None else Some a
         | None => None
         end.
Proof.
  intros Hst Ho Hp Hsrc.
  destruct (moveSnake_returns s fuel w Hsrc) as (w' & H).
  exists w'. split; [exact H|].
  destruct (moveSnake_when_moved s fuel w w' newHead Hst Ho H)
    as (_ & (_ & T2 & _) & _).
  rewrite Hp in T2. exact T2.
Qed.

Lemma active_power_up_lasts_until_its_deadline_witness :
  exists w',
    moveSnake Deferred 1 (atLeftEdge (Some {| ap_type := GHOST; expiresAt := 5000 |}))
      (worldOf (atLeftEdge (Some {| ap_type := GHOST; expiresAt := 5000 |}))
         (constSeq (1 # 4)) (tickingClock 6000))
    = Some (tt, w')
    /\ activePowerUp (state w') = None.
Proof.
  destruct (active_power_up_lasts_until_its_deadline Deferred 1
              (worldOf (atLeftEdge (Some {| ap_type := GHOST; expiresAt := 5000 |}))
                 (constSeq (1 # 4)) (tickingClock 6000))
              {| x := 19; y := 5 |})
    as (w' & E & Ha).
  - reflexivity.
  - vm_compute. reflexivity.
  - vm_compute. reflexivity.
  - vm_compute. intros Heats. discriminate Heats.
  - exists w'. split; [exact E | exact Ha].
Defined.

(** X15.  The combo window: on a move, whenever the food can be placed
    the tick returns; a move that eats sets the combo deadline to
    [COMBO_TIMEOUT_MS] past the second clock reading of the tick and a
    move that does not eat leaves the deadline alone; the counter is the
    swept one (0 if it ran out at the top of the tick), plus one if the
    move eats.  This holds whether React runs the updater of the snake
    eagerly or at the render. *)
Theorem eating_extends_the_combo_window s fuel w newHead :
  status (state w) = PLAYING ->
  outcome (state w) (snake (state w)) = Moved newHead ->
  foodCanBePlaced s fuel w ->
  exists w',
    moveSnake s fuel (state w) w = Some (tt, w')
    /\ comboExpiresAt (state w')
       = (if eats (state w) newHead
          then clockSeq w (S (clockPos w)) + COMBO_TIMEOUT_MS
          else comboExpiresAt (state w))
    /\ combo (state w')
       = (if (combo (state w) >? 0)
             && (clockSeq w (clockPos w) >? comboExpiresAt (state w))
          then 0 else combo (state w))
         + (if eats (state w) newHead then 1 else 0).
Proof.
  intros Hst Ho Hsrc.
  destruct (moveSnake_returns s fuel w Hsrc) as (w' & H).
  exists w'. split; [exact H|].
  destruct (moveSnake_when_moved s fuel w w' newHead Hst Ho H)
    as (_ & (T1 & _) & _).
  destruct (moveSnake_outcome s fuel w w' Hst H) as (_ & O). rewrite Ho in O.
  destruct O as (_ & _ & Oco & _).
  split; [exact T1 | exact Oco].
Qed.

Lemma eating_extends_the_combo_window_witness :
  exists w',
    moveSnake Deferred 1 (foodAhead 2 9000)
      (worldOf (foodAhead 2 9000) (constSeq (1 # 4)) (tickingClock 6000))
    = Some (tt, w')
    /\ comboExpiresAt (state w') = 10001 /\ combo (state w') = 3.
Proof.
  destruct (eating_extends_the_combo_window Deferred 1
              (worldOf (foodAhead 2 9000) (constSeq (1 # 4)) (tickingClock 6000))
              {| x := 10; y := 9 |})
    as (w' & E & Hd & Hc).
  - reflexivity.
  - vm_compute. reflexivity.
  - vm_compute. intros _. exists 0%nat. split; [lia | reflexivity].
  - exists w'. split; [exact E|]. split; [exact Hd | exact Hc].
Defined.

(** ** Where a power-up can appear *)

Lemma placementLoop_sound currentSnake currentFood currentPowerUps :
  forall budget attempts w,
    19 - attempts <= Z.of_nat budget -> attempts <= 19 ->
    exists k,
      placementLoop budget attempts currentSnake currentFood currentPowerUps w
      = Some ((drawAt w k, attempts + Z.of_nat k + 1), consumed (2 * S k) w)
      /\ attempts + Z.of_nat k <= 19
      /\ (attempts + Z.of_nat k + 1 < 20 ->
          blocked currentSnake currentFood currentPowerUps (drawAt w k) = false).
Proof.
  induction budget as [|budget IH]; intros attempts w Hb Ha;
    rewrite placementLoop_unfold.
  - assert (Hlt : (attempts + 1 <? 20) = false) by lia.
    rewrite Hlt, andb_false_r. exists 0%nat.
    split; [do 3 f_equal; lia|]. split; lia.
  - destruct (blocked _ _ _ (drawAt w 0)) eqn:Eb; cbn [andb].
    + destruct (attempts + 1 <? 20) eqn:Hlt.
      * destruct (IH (attempts + 1) (consumed 2 w)) as (k & E & Hk & Hf); [lia | lia |].
        exists (S k). rewrite E, drawAt_consumed, consumed_consumed.
        replace (2 + 2 * S k)%nat with (2 * S (S k))%nat by lia.
        split; [do 3 f_equal; lia|]. split; [lia|].
        intros Hlt'. rewrite drawAt_consumed in Hf. apply Hf. lia.
      * exists 0%nat. split; [do 3 f_equal; lia|]. split; lia.
    + exists 0%nat. split; [do 3 f_equal; lia|]. split; [lia|]. intros _. exact Eb.
Qed.

(** X16.  [generatePowerUp] always returns, after at most 40 calls of
    [Math.random()], and with [Math.random()] in [0, 1) whatever it
    spawns is on a cell of the board that is free: the board held no
    power-up, and the cell is neither a segment of the snake nor the
    food. *)
Theorem generatePowerUp_spawns_only_on_free_cells currentSnake currentFood
    currentPowerUps w :
  unitInterval (randomSeq w) ->
  exists item n,
    generatePowerUp currentSnake currentFood currentPowerUps w
    = Some (item, consumed n w)
    /\ (n <= 40)%nat
    /\ forall p, item = Some p ->
         currentPowerUps = []
         /\ inGrid {| x := pu_x p; y := pu_y p |} = true
         /\ existsb (fun s => (x s =? pu_x p) && (y s =? pu_y p)) currentSnake = false
         /\ (pu_x p =? x currentFood) && (pu_y p =? y currentFood) = false.
Proof.
  intros U. unfold generatePowerUp.
  destruct currentPowerUps as [|q qs]; cbn [List.length Nat.ltb Nat.leb].
  2:{ exists None, 0%nat. rewrite consumed_0. split; [reflexivity|].
      split; [lia | discriminate]. }
  destruct (placementLoop_sound currentSnake currentFood [] 20 0 w)
    as (k & E & Hk & Hf); [lia | lia |].
  cbn [bind]. rewrite E.
  destruct (0 + Z.of_nat k + 1 >=? 20) eqn:Ea.
  - exists None, (2 * S k)%nat. split; [reflexivity|]. split; [lia | discriminate].
  - eexists _, (2 * S k + 1)%nat. split.
    + unfold bind, Math_random, ret, consumed.
      cbn [state savedComboTimeRef localStorage randomSeq randomPos clockSeq
           clockPos calls].
      do 3 f_equal. lia.
    + split; [lia|]. intros p Hp. inversion Hp; subst p; clear Hp. cbn [pu_x pu_y].
      assert (Hfree := Hf ltac:(lia)).
      unfold blocked, isOccupied in Hfree. cbn [existsb] in Hfree.
      rewrite orb_false_r in Hfree. apply orb_false_iff in Hfree.
      destruct Hfree as (Hs & Hfd).
      split; [reflexivity|]. split; [|split; assumption].
      pose proof (drawAt_inGrid w k U) as Hg.
      unfold inGrid in *. cbn [x y]. exact Hg.
Qed.

Lemma generatePowerUp_spawns_only_on_free_cells_witness :
  exists item n,
    generatePowerUp INITIAL_SNAKE {| x := 5; y := 5 |} []
      (worldOf initialGame aheadSeq (tickingClock 0))
    = Some (item, consumed n (worldOf initialGame aheadSeq (tickingClock 0)))
    /\ (n <= 40)%nat.
Proof.
  destruct (generatePowerUp_spawns_only_on_free_cells INITIAL_SNAKE
              {| x := 5; y := 5 |} [] (worldOf initialGame aheadSeq (tickingClock 0)))
    as (item & n & E & Hn & _).
  - exact aheadSeq_unit.
  - exists item, n. split; [exact E | exact Hn].
Defined.

(** ** Touch *)

Lemma Qltb_lt a b : Qltb a b = true <-> (a < b)%Q.
Proof.
  unfold Qltb. rewrite negb_true_iff. split.
  - intros H. apply Qnot_le_lt. intros Hle.
    apply Qle_bool_iff in Hle. congruence.
  - intros H. destruct (Qle_bool b a) eqn:E; [|reflexivity].
    apply Qle_bool_iff in E. exfalso. exact (Qlt_not_le _ _ H E).
Qed.

Lemma Qltb_ge a b : Qltb a b = false <-> (b <= a)%Q.
Proof.
  unfold Qltb. rewrite negb_false_iff. apply Qle_bool_iff.
Qed.

Lemma Qltb_flip a b :
  (0 < Qabs (b - a))%Q -> Qltb 0 (a - b) = negb (Qltb 0 (b - a)).
Proof.
  intros H.
  assert (Hne : ~ (b - a == 0)%Q).
  { intros E. rewrite E in H. exact (Qlt_irrefl _ H). }
  destruct (Qltb 0 (b - a)) eqn:E1; cbn [negb].
  - apply Qltb_lt in E1. apply Qltb_ge. lra.
  - apply Qltb_ge in E1. apply Qltb_lt.
    destruct (Qlt_le_dec 0 (a - b)) as [Hlt|Hle]; [exact Hlt|].
    exfalso. apply Hne. lra.
Qed.

(** X17.  A swipe and the swipe back steer in opposite directions: when
    the longer displacement between two touch points exceeds
    [SWIPE_THRESHOLD], ending the touch the other way round hands
    [updateDirection] the reverse direction, whatever the window sizes;
    and the handler always leaves the reference to the start of the touch
    empty. *)
Theorem swipe_back_steers_the_opposite_way start finish wd ht wd' ht' :
  Qltb SWIPE_THRESHOLD
       (Qmax (Qabs (clientX finish - clientX start))
             (Qabs (clientY finish - clientY start))) = true ->
  exists d,
    touchDirection (Some start) false finish wd ht = Some d
    /\ touchDirection (Some finish) false start wd' ht' = Some (opposite d)
    /\ handleTouchEnd (Some start) false finish wd ht
       = (updateDirection d ;; ret None)
    /\ handleTouchEnd (Some finish) false start wd' ht'
       = (updateDirection (opposite d) ;; ret None).
Proof.
  intros Hsw.
  assert (Hd : exists d,
             touchDirection (Some start) false finish wd ht = Some d
             /\ touchDirection (Some finish) false start wd' ht' = Some (opposite d)).
  { unfold touchDirection.
    rewrite (Qabs_Qminus (clientX start) (clientX finish)).
    rewrite (Qabs_Qminus (clientY start) (clientY finish)).
    rewrite Hsw.
    apply Qltb_lt in Hsw. apply Q.max_lt_iff in Hsw.
    pose proof (Qabs_nonneg (clientX finish - clientX start)) as Hx0.
    pose proof (Qabs_nonneg (clientY finish - clientY start)) as Hy0.
    unfold SWIPE_THRESHOLD in Hsw.
    destruct (Qltb (Qabs (clientY finish - clientY start))
                   (Qabs (clientX finish - clientX start))) eqn:Eax.
    - apply Qltb_lt in Eax.
      rewrite (Qltb_flip (clientX start) (clientX finish)) by lra.
      destruct (Qltb 0 (clientX finish - clientX start)); eexists; split; reflexivity.
    - apply Qltb_ge in Eax.
      rewrite (Qltb_flip (clientY start) (clientY finish))
        by (destruct Hsw; lra).
      destruct (Qltb 0 (clientY finish - clientY start)); eexists; split; reflexivity. }
  destruct Hd as (d & H1 & H2). exists d.
  unfold handleTouchEnd. rewrite H1, H2. repeat split; reflexivity.
Qed.

Lemma swipe_back_steers_the_opposite_way_witness :
  touchDirection (Some {| clientX := 100 # 1; clientY := 200 # 1 |}) false
    {| clientX := 160 # 1; clientY := 210 # 1 |} (400 # 1) (800 # 1) = Some RIGHT
  /\ touchDirection (Some {| clientX := 160 # 1; clientY := 210 # 1 |}) false
       {| clientX := 100 # 1; clientY := 200 # 1 |} (400 # 1) (800 # 1) = Some LEFT.
Proof.
  destruct (swipe_back_steers_the_opposite_way
              {| clientX := 100 # 1; clientY := 200 # 1 |}
              {| clientX := 160 # 1; clientY := 210 # 1 |}
              (400 # 1) (800 # 1) (400 # 1) (800 # 1))
    as (d & H1 & H2 & _).
  - vm_compute. reflexivity.
  - split; [vm_compute; reflexivity|].
    rewrite H2. f_equal.
    assert (E : Some d = Some RIGHT) by (rewrite <- H1; vm_compute; reflexivity).
    inversion E. reflexivity.
Defined.

(** ** A new round *)

Lemma generateFood_ext currentSnake currentPowerUps :
  forall fuel w1 w2 c w1',
    (forall k, drawAt w1 k = drawAt w2 k) ->
    generateFood fuel currentSnake currentPowerUps w1 = Some (c, w1') ->
    exists n,
      w1' = consumed n w1
      /\ generateFood fuel currentSnake currentPowerUps w2 = Some (c, consumed n w2).
Proof.
  induction fuel as [|fuel IH]; intros w1 w2 c w1' Hd H; [discriminate|].
  rewrite generateFood_unfold in *. rewrite <- (Hd 0%nat).
  destruct (isOccupied _ _ _ _).
  - destruct (IH (consumed 2 w1) (consumed 2 w2) c w1') as (n & E1 & E2).
    + intros k. rewrite !drawAt_consumed. apply Hd.
    + exact H.
    + exists (2 + n)%nat. rewrite <- !consumed_consumed. auto.
  - inversion H; subst. exists 2%nat. auto.
Qed.

Lemma resetGame_ext fuel w1 w2 w1' :
  (forall k, drawAt w1 k = drawAt w2 k) ->
  resetGame fuel w1 = Some (tt, w1') ->
  exists w2',
    resetGame fuel w2 = Some (tt, w2')
    /\ allButHighScore (state w2') = allButHighScore (state w1')
    /\ highScore (state w2') = highScore (state w2)
    /\ highScore (state w1') = highScore (state w1)
    /\ score (state w1') = 0
    /\ localStorage w2' = localStorage w2
    /\ localStorage w1' = localStorage w1.
Proof.
  intros Hd H. unfold resetGame in *. exec.
  match type of H with
  | context [generateFood fuel INITIAL_SNAKE [] ?w0] =>
      destruct (generateFood fuel INITIAL_SNAKE [] w0) as [[c w3]|] eqn:G;
        [|discriminate]
  end.
  match type of G with
  | generateFood _ _ _ ?wa = _ =>
      match goal with
      | |- context [generateFood fuel INITIAL_SNAKE [] ?wb] =>
          assert (Hd' : forall k, drawAt wa k = drawAt wb k)
            by (intros k; exact (Hd k));
          destruct (generateFood_ext _ _ _ wa wb _ _ Hd' G) as (n & E1 & E2)
      end
  end.
  rewrite E2. subst w3. exec. finished.
  eexists. split; [reflexivity|]. repeat split; reflexivity.
Qed.

(** X18.  A new round owes nothing to the round before it: from any two
    states of the component whose random sources go on in the same way,
    [resetGame] returns in the one when it returns in the other, and
    leaves the same game in both, the high score apart, which it keeps,
    as it keeps the store. *)
Theorem new_round_starts_from_scratch fuel w1 w2 w1' :
  (forall k, drawAt w1 k = drawAt w2 k) ->
  resetGame fuel w1 = Some (tt, w1') ->
  exists w2',
    resetGame fuel w2 = Some (tt, w2')
    /\ allButHighScore (state w2') = allButHighScore (state w1')
    /\ highScore (state w2') = highScore (state w2)
    /\ localStorage w2' = localStorage w2.
Proof.
  intros Hd H.
  destruct (resetGame_ext fuel w1 w2 w1' Hd H) as (w2' & E & Ha & Hh & _ & _ & Hl & _).
  exists w2'. auto.
Qed.

Lemma new_round_starts_from_scratch_witness :
  exists w2',
    resetGame 1 (worldOf foodUnderSpawn aheadSeq (tickingClock 0)) = Some (tt, w2')
    /\ allButHighScore (state w2')
       = allButHighScore
           (state (after (resetGame 1) (worldOf lastLife aheadSeq (tickingClock 6000)))).
Proof.
  destruct (new_round_starts_from_scratch 1
              (worldOf lastLife aheadSeq (tickingClock 6000))
              (worldOf foodUnderSpawn aheadSeq (tickingClock 0))
              (after (resetGame 1) (worldOf lastLife aheadSeq (tickingClock 6000))))
    as (w2' & E & Hr & _).
  - intros k. reflexivity.
  - vm_compute. reflexivity.
  - exists w2'. split; [exact E | exact Hr].
Defined.

(** ** Outside play *)

(** X19.  Outside play nothing moves: while the status is not PLAYING
    and the score is not above the high score, any number of ticks,
    whether React runs their updaters eagerly or at the render, leaves
    the component exactly as it is, the clock unread and no random number
    drawn. *)
Theorem ticks_outside_play_change_nothing fuel ss w :
  status (state w) <> PLAYING ->
  score (state w) <= highScore (state w) ->
  run fuel (map Tick ss) w = Some (tt, w).
Proof.
  intros Hst Hsc. induction ss as [|s ss IH]; [reflexivity|].
  cbn [map run bind]. unfold step. cbn [bind gets dispatch].
  rewrite (moveSnake_idle s fuel w Hst). cbn [bind gets].
  unfold highScoreEffect.
  assert (E : (score (state w) >? highScore (state w)) = false) by lia.
  rewrite E. cbn [ret]. exact IH.
Qed.

Lemma ticks_outside_play_change_nothing_witness :
  run 0 (map Tick [Eager; Deferred; Deferred; Eager; Deferred])
    (freshWorld (Some 3) aheadSeq (tickingClock 0))
  = Some (tt, freshWorld (Some 3) aheadSeq (tickingClock 0)).
Proof.
  apply ticks_outside_play_change_nothing.
  - discriminate.
  - vm_compute. discriminate.
Defined.

(** X20.  Pausing and resuming loses nothing of the round: from a game in
    play whose score the high score has caught up with (as it has after
    every event), a click on the pause button followed by a click on the
    overlay's resume returns without fuel with the status PLAYING again
    and the snake, its direction and buffered direction, the food, the
    board, the active power-up, the score, the lives, the combo and the
    high score as they were. *)
Theorem pause_and_resume_lose_nothing fuel w :
  status (state w) = PLAYING ->
  score (state w) <= highScore (state w) ->
  exists w',
    run fuel [ClickPause; OverlayResume] w = Some (tt, w')
    /\ status (state w') = PLAYING
    /\ round (state w') = round (state w)
    /\ nextDirection (state w') = nextDirection (state w)
    /\ highScore (state w') = highScore (state w).
Proof.
  intros Hst Hsc.
  destruct (handlePause_effect (state w) w) as (w1 & E1 & S1 & R1 & N1 & H1 & _).
  destruct (handleResume_effect w1) as (w2 & E2 & S2 & R2 & N2 & H2 & _).
  assert (Sc1 : score (state w1) = score (state w))
    by (unfold round in R1; inversion R1; reflexivity).
  assert (Sc2 : score (state w2) = score (state w1))
    by (unfold round in R2; inversion R2; reflexivity).
  exists w2. cbn [run bind]. unfold step. cbn [bind gets dispatch].
  rewrite Hst. cbn [GameStatus_eqb]. rewrite E1. cbn [bind gets].
  unfold highScoreEffect.
  assert (T1 : (score (state w1) >? highScore (state w1)) = false) by lia.
  rewrite T1. cbn [ret bind gets dispatch]. rewrite E2. cbn [bind gets].
  assert (T2 : (score (state w2) >? highScore (state w2)) = false) by lia.
  rewrite T2. cbn [ret].
  split; [reflexivity|]. rewrite S2, R2, R1, N2, N1, H2, H1. repeat split; reflexivity.
Qed.

Lemma pause_and_resume_lose_nothing_witness :
  exists w',
    run 0 [ClickPause; OverlayResume]
      (worldOf (foodAhead 2 9000) (constSeq (1 # 4)) (tickingClock 6000))
    = Some (tt, w')
    /\ status (state w') = PLAYING
    /\ round (state w') = round (foodAhead 2 9000).
Proof.
  destruct (pause_and_resume_lose_nothing 0
              (worldOf (foodAhead 2 9000) (constSeq (1 # 4)) (tickingClock 6000)))
    as (w' & E & Hs & Hr & _).
  - reflexivity.
  - vm_compute. discriminate.
  - exists w'. split; [exact E|]. split; [exact Hs | exact Hr].
Defined.

(** X21.  Mounting the component restores the stored high score: after
    the first render and its effects the high score is the stored value,
    or 0 if nothing is stored or the stored value is negative, and the
    game is idle with the initial snake. *)
Theorem mount_restores_the_stored_high_score saved rnd clk :
  mount (freshWorld saved rnd clk) = Some (tt, after mount (freshWorld saved rnd clk))
  /\ highScore (state (after mount (freshWorld saved rnd clk)))
     = match saved with
       | Some v => Z.max v 0
       | None => 0
       end
  /\ status (state (after mount (freshWorld saved rnd clk))) = IDLE
  /\ snake (state (after mount (freshWorld saved rnd clk))) = INITIAL_SNAKE
  /\ score (state (after mount (freshWorld saved rnd clk))) = 0.
Proof.
  split; [apply mount_returns|].
  unfold after, mount, loadHighScore, highScoreEffect, freshWorld.
  destruct saved as [v|]; exec.
  - change (score initialGame) with 0. change (highScore initialGame) with 0.
    cbn [Z.gtb Z.compare]. exec.
    destruct (0 >? v) eqn:E; exec; repeat split; try reflexivity; lia.
  - cbn. repeat split; reflexivity.
Qed.

(** ** Leaving and coming back *)

Lemma handleExit_effect w :
  exists we,
    handleExit w = Some (tt, we)
    /\ status (state we) = IDLE /\ score (state we) = 0
    /\ highScore (state we) = highScore (state w)
    /\ localStorage we = localStorage w
    /\ (forall k, drawAt w k = drawAt we k).
Proof.
  unfold handleExit. exec. eexists. repeat split; reflexivity.
Qed.

Lemma highScoreEffect_quiet w :
  score (state w) <= highScore (state w) ->
  highScoreEffect (state w) w = Some (tt, w).
Proof.
  intros H. unfold highScoreEffect.
  assert (E : (score (state w) >? highScore (state w)) = false) by lia.
  rewrite E. reflexivity.
Qed.

Lemma allButHighScore_inj g g' :
  allButHighScore g = allButHighScore g' -> highScore g = highScore g' -> g = g'.
Proof.
  destruct g, g'. unfold allButHighScore. cbn. intros H Hh.
  inversion H; subst. reflexivity.
Qed.

Lemma step_eq fuel e w w1 w2 :
  dispatch fuel (state w) e w = Some (tt, w1) ->
  highScoreEffect (state w1) w1 = Some (tt, w2) ->
  step fuel e w = Some (tt, w2).
Proof.
  intros D E. unfold step. cbn [bind gets]. rewrite D. cbn [bind gets]. exact E.
Qed.

Lemma run_cons_eq fuel e es w w1 :
  step fuel e w = Some (tt, w1) -> run fuel (e :: es) w = run fuel es w1.
Proof. intros H. cbn [run bind]. rewrite H. reflexivity. Qed.

Lemma dispatch_ClickStart_idle fuel r :
  status r = IDLE -> dispatch fuel r ClickStart = resetGame fuel.
Proof. intros H. cbn [dispatch]. rewrite H. reflexivity. Qed.


Lemma exit_then_start fuel w wr :
  0 <= highScore (state w) ->
  resetGame fuel w = Some (tt, wr) ->
  exists w2,
    run fuel [OverlayExit; ClickStart] w = Some (tt, w2)
    /\ state w2 = state wr
    /\ localStorage w2 = localStorage wr
    /\ highScoreEffect (state wr) wr = Some (tt, wr).
Proof.
  intros Hhs D.
  destruct (handleExit_effect w) as (we & Ex & Est & Esc & Ehs & Els & Ed).
  destruct (resetGame_ext fuel w we wr Ed D)
    as (we' & R & Ha & Hh & Hh1 & Hsc & Hl & Hl1).
  assert (Q1 : highScoreEffect (state wr) wr = Some (tt, wr))
    by (apply highScoreEffect_quiet; lia).
  assert (Hst : state we' = state wr)
    by (apply allButHighScore_inj; [exact Ha | congruence]).
  exists we'. split; [|split; [exact Hst | split; [congruence | exact Q1]]].
  rewrite (run_cons_eq fuel OverlayExit [ClickStart] w we).
  2:{ apply (step_eq fuel OverlayExit w we we); [exact Ex|].
      apply highScoreEffect_quiet. lia. }
  rewrite (run_cons_eq fuel ClickStart [] we we').
  2:{ apply (step_eq fuel ClickStart we we' we').
      - rewrite (dispatch_ClickStart_idle fuel _ Est). exact R.
      - apply highScoreEffect_quiet. rewrite Hst. lia. }
  reflexivity.
Qed.

Lemma dispatch_OverlayRestart fuel r : dispatch fuel r OverlayRestart = resetGame fuel.
Proof. reflexivity. Qed.

Lemma run_one_inv fuel e w w1 :
  run fuel [e] w = Some (tt, w1) ->
  exists wr, dispatch fuel (state w) e w = Some (tt, wr)
             /\ highScoreEffect (state wr) wr = Some (tt, w1).
Proof.
  intros H. apply run_cons in H. destruct H as (wa & Hs & Hr).
  assert (wa = w1) by (cbn [run ret] in Hr; congruence). subst wa.
  exact (step_inv _ _ _ _ Hs).
Qed.

(** X24.  Leaving to the menu and starting again gives the round that a
    restart gives: with a high score that is not negative (as it is after
    mounting), whenever the overlay's restart returns, the overlay's exit
    followed by START GAME returns too, with the same game state and the
    same store. *)
Theorem exit_and_start_is_a_restart fuel w w1 :
  0 <= highScore (state w) ->
  run fuel [OverlayRestart] w = Some (tt, w1) ->
  exists w2,
    run fuel [OverlayExit; ClickStart] w = Some (tt, w2)
    /\ state w2 = state w1
    /\ localStorage w2 = localStorage w1.
Proof.
  intros Hhs H.
  destruct (run_one_inv _ _ _ _ H) as (wr & D & E).
  rewrite dispatch_OverlayRestart in D.
  destruct (exit_then_start fuel w wr Hhs D) as (w2 & R & Hs & Hl & Q).
  assert (wr = w1) by congruence. subst wr.
  exists w2. auto.
Qed.

Lemma exit_and_start_is_a_restart_witness :
  exists w2,
    run 1 [OverlayExit; ClickStart] (worldOf lastLife aheadSeq (tickingClock 6000))
    = Some (tt, w2)
    /\ state w2
       = state (after (run 1 [OverlayRestart])
                  (worldOf lastLife aheadSeq (tickingClock 6000))).
Proof.
  destruct (exit_and_start_is_a_restart 1
              (worldOf lastLife aheadSeq (tickingClock 6000))
              (after (run 1 [OverlayRestart])
                 (worldOf lastLife aheadSeq (tickingClock 6000))))
    as (w2 & E & Hs & _).
  - vm_compute. discriminate.
  - vm_compute. reflexivity.
  - exists w2. split; [exact E | exact Hs].
Defined.
